(** * BusTub storage core: LRU-K replacer, buffer pool manager, B+ tree, trie

    A shallow embedding of the storage primitives of the repository and the
    properties checked against them.  Each definition names the source
    function it follows. *)

From Stdlib Require Import ZArith Lia Ascii String.
From Stdlib.Strings Require Import Byte.
From stdpp Require Import gmap strings list fin_maps sorting.

#[local] Set Warnings "-register-all".

(** ** Machine integers *)

(** [static_cast<size_t>(x)] and arithmetic on [size_t]. *)
Definition to_size_t (x : Z) : Z := (x mod 2 ^ 64)%Z.

(** Conversion to a 32-bit signed integer ([page_id_t], [frame_id_t]). *)
Definition to_int32 (x : Z) : Z := ((x + 2 ^ 31) mod 2 ^ 32 - 2 ^ 31)%Z.

(** ** State and exceptions

    A C++ member function that may throw is a function from the object's
    state to a result and the state at the point of return or throw: what
    was mutated before a throw stays mutated. *)

Inductive result (E A : Type) : Type :=
  | Return (a : A)
  | Raise (e : E).
Arguments Return {E A} a.
Arguments Raise {E A} e.

Definition M (S E A : Type) : Type := S → result E A * S.

Definition ret {S E A} (a : A) : M S E A := λ s, (Return a, s).
Definition throw {S E A} (e : E) : M S E A := λ s, (Raise e, s).
Definition bind {S E A B} (m : M S E A) (f : A → M S E B) : M S E B :=
  λ s, match m s with
       | (Return a, s') => f a s'
       | (Raise e, s') => (Raise e, s')
       end.
Definition get {S E} : M S E S := λ s, (Return s, s).
Definition modify {S E} (f : S → S) : M S E unit := λ s, (Return tt, f s).

Declare Scope m_scope.
Delimit Scope m_scope with M.
Notation "x <~ m ;; k" := (bind m (λ x, k))
  (at level 100, m at next level, right associativity) : m_scope.

(** ** Outcomes of calls that can dereference a null pointer *)

Inductive outcome (A : Type) : Type :=
  | Ok (a : A)
  | NullDeref.
Arguments Ok {A} a.
Arguments NullDeref {A}.

(** * Persistent trie (src/primer/trie.cpp) *)

Module Trie.

(** The value types [Put] and [Get] are instantiated with at the end of
    trie.cpp; [dynamic_cast] in [Get] succeeds exactly on the same type. *)
Inductive ValueType : Type :=
  | TUint32 | TUint64 | TString | TInteger | TMoveBlocked.

#[global] Instance ValueType_eq_dec : EqDecision ValueType.
Proof. solve_decision. Defined.

Inductive Value : Type :=
  | VUint32 (n : Z)
  | VUint64 (n : Z)
  | VString (s : string)
  | VInteger (n : Z)
  | VMoveBlocked (waited : bool).

Definition type_of (v : Value) : ValueType :=
  match v with
  | VUint32 _ => TUint32
  | VUint64 _ => TUint64
  | VString _ => TString
  | VInteger _ => TInteger
  | VMoveBlocked _ => TMoveBlocked
  end.

(** Modelled from the spec: the node classes of trie.h, which is not among the
    sources ("a value-bearing node and a plain node are distinguishable
    variants", each with a child map character -> child node).  [PlainNode] is
    [TrieNode], [NodeWithValue] is [TrieNodeWithValue<T>]; child pointers held
    in a map are never null. *)
Inductive TrieNode : Type :=
  | PlainNode (children : gmap ascii TrieNode)
  | NodeWithValue (children : gmap ascii TrieNode) (value : Value).

Definition children_ (n : TrieNode) : gmap ascii TrieNode :=
  match n with
  | PlainNode c => c
  | NodeWithValue c _ => c
  end.

Definition is_value_node_ (n : TrieNode) : bool :=
  match n with
  | PlainNode _ => false
  | NodeWithValue _ _ => true
  end.

(** [node->children_ = c] on a node this call created. *)
Definition set_children (n : TrieNode) (c : gmap ascii TrieNode) : TrieNode :=
  match n with
  | PlainNode _ => PlainNode c
  | NodeWithValue _ v => NodeWithValue c v
  end.

(** [Clone]: a new node with the same child map (children shared) and the
    same value. *)
Definition Clone (n : TrieNode) : TrieNode := n.

(** A trie is a handle on a possibly null root. *)
Record Trie : Type := mkTrie { root_ : option TrieNode }.

Definition empty_trie : Trie := mkTrie None.

(** The [for (char c : key)] loop of [Trie::Get].  [None]: the loop returned
    [nullptr]; [Some curr]: the loop ran to its end with this [curr]. *)
Fixpoint Get_loop (curr : option TrieNode) (key : string) : option (option TrieNode) :=
  match key with
  | EmptyString => Some curr
  | String c rest =>
      match curr with
      | None => None
      | Some node =>
          match children_ node !! c with
          | None => None
          | Some child => Get_loop (Some child) rest
          end
      end
  end.

(** The code of [Trie::Get<T>] after the loop: [curr->is_value_node_ && curr]
    reads the node before testing the pointer. *)
Definition Get_result (T : ValueType) (r : option (option TrieNode)) : outcome (option Value) :=
  match r with
  | None => Ok None
  | Some None => NullDeref
  | Some (Some (PlainNode _)) => Ok None
  | Some (Some (NodeWithValue _ v)) =>
      if decide (type_of v = T) then Ok (Some v) else Ok None
  end.

(** [Trie::Get<T>]. *)
Definition Get (T : ValueType) (t : Trie) (key : string) : outcome (option Value) :=
  Get_result T (Get_loop (root_ t) key).

(** The body of [Trie::Put] after the empty-key test: [current_node] is a
    node created by this call, [String c rest] the part of the key still to
    walk.  The loop handles every character but the last, cloning or creating
    the child and storing it in [current_node]; the code after the loop
    handles [key.back()], where [children_[key.back()]] is null when the
    character is absent. *)
Fixpoint Put_walk (current_node : TrieNode) (c : ascii) (rest : string) (value : Value)
    : TrieNode :=
  match rest with
  | EmptyString =>
      let value_node :=
        match children_ current_node !! c with
        | Some old => NodeWithValue (children_ old) value
        | None => NodeWithValue ∅ value
        end in
      set_children current_node (<[c := value_node]> (children_ current_node))
  | String c' rest' =>
      let child :=
        match children_ current_node !! c with
        | None => PlainNode ∅
        | Some old => Clone old
        end in
      set_children current_node
        (<[c := Put_walk child c' rest' value]> (children_ current_node))
  end.

(** [Trie::Put<T>]: the empty-key branch reads [root_->children_], not the
    children of [new_root]. *)
Definition Put (t : Trie) (key : string) (value : Value) : outcome Trie :=
  let new_root :=
    match root_ t with
    | Some r => Clone r
    | None => PlainNode ∅
    end in
  match key with
  | EmptyString =>
      match root_ t with
      | None => NullDeref
      | Some r => Ok (mkTrie (Some (NodeWithValue (children_ r) value)))
      end
  | String c rest => Ok (mkTrie (Some (Put_walk new_root c rest value)))
  end.

End Trie.

(** * LRU-K replacer (src/buffer/lru_k_replacer.cpp) *)

Module Replacer.
#[local] Open Scope Z_scope.

(** [std::out_of_range] and [std::runtime_error]. *)
Inductive exn : Type := OutOfRange | NotTracked.

(** Modelled from the spec: the node and the member declarations of
    lru_k_replacer.h, which is not among the sources ("a bounded history of
    the last up to K access timestamps, and an evictable flag (default
    false)"). *)
Record LRUKNode : Type := mkNode {
  history_ : list Z;
  is_evictable_ : bool;
}.

Definition new_node : LRUKNode := mkNode [] false.

Record LRUKReplacer : Type := mkReplacer {
  node_store_ : gmap Z LRUKNode;
  current_timestamp_ : Z;
  curr_size_ : Z;
  replacer_size_ : Z;
  k_ : Z;
  less_k_frames_ : list Z;
  k_frames_ : list Z;
}.

(** [LRUKReplacer::LRUKReplacer(num_frames, k)]. *)
Definition init (num_frames k : Z) : LRUKReplacer :=
  mkReplacer ∅ 0 0 num_frames k [] [].

Definition set_node_store (f : gmap Z LRUKNode → gmap Z LRUKNode) (r : LRUKReplacer) :=
  mkReplacer (f (node_store_ r)) (current_timestamp_ r) (curr_size_ r)
             (replacer_size_ r) (k_ r) (less_k_frames_ r) (k_frames_ r).
Definition set_less_k_frames (f : list Z → list Z) (r : LRUKReplacer) :=
  mkReplacer (node_store_ r) (current_timestamp_ r) (curr_size_ r)
             (replacer_size_ r) (k_ r) (f (less_k_frames_ r)) (k_frames_ r).
Definition set_k_frames (f : list Z → list Z) (r : LRUKReplacer) :=
  mkReplacer (node_store_ r) (current_timestamp_ r) (curr_size_ r)
             (replacer_size_ r) (k_ r) (less_k_frames_ r) (f (k_frames_ r)).
Definition set_current_timestamp (t : Z) (r : LRUKReplacer) :=
  mkReplacer (node_store_ r) t (curr_size_ r)
             (replacer_size_ r) (k_ r) (less_k_frames_ r) (k_frames_ r).
Definition set_curr_size (n : Z) (r : LRUKReplacer) :=
  mkReplacer (node_store_ r) (current_timestamp_ r) n
             (replacer_size_ r) (k_ r) (less_k_frames_ r) (k_frames_ r).

(** [node_store_[f]] of [std::unordered_map]: an absent key is inserted with
    a default node. *)
Definition index_store (store : gmap Z LRUKNode) (f : Z) : LRUKNode * gmap Z LRUKNode :=
  match store !! f with
  | Some n => (n, store)
  | None => (new_node, <[f := new_node]> store)
  end.

(** [std::list::remove(value)]. *)
Definition list_remove (f : Z) (l : list Z) : list Z :=
  filter (λ x, x ≠ f) l.

(** The lambda [get_evictable_from_list] of [Evict]: the first frame of the
    list whose node is evictable, erased from the list; [-1] when there is
    none. *)
Fixpoint get_evictable_from_list (store : gmap Z LRUKNode) (frames : list Z)
    : Z * list Z * gmap Z LRUKNode :=
  match frames with
  | [] => (-1, [], store)
  | f :: rest =>
      let '(n, store1) := index_store store f in
      if is_evictable_ n then (f, rest, store1)
      else
        let '(r, rest', store2) := get_evictable_from_list store1 rest in
        (r, f :: rest', store2)
  end.

Definition is_empty (l : list Z) : bool :=
  match l with [] => true | _ => false end.

(** [LRUKReplacer::Evict]: [Some f] is [true] with [*frame_id = f]. *)
Definition Evict (r : LRUKReplacer) : option Z * LRUKReplacer :=
  if is_empty (k_frames_ r) && is_empty (less_k_frames_ r) then (None, r)
  else
    let '(to_evict, r1) :=
      if negb (is_empty (less_k_frames_ r)) then
        let '(f, l, st) := get_evictable_from_list (node_store_ r) (less_k_frames_ r) in
        (f, set_less_k_frames (λ _, l) (set_node_store (λ _, st) r))
      else (-1, r) in
    let '(to_evict, r2) :=
      if (to_evict =? -1) && negb (is_empty (k_frames_ r1)) then
        let '(f, l, st) := get_evictable_from_list (node_store_ r1) (k_frames_ r1) in
        (f, set_k_frames (λ _, l) (set_node_store (λ _, st) r1))
      else (to_evict, r1) in
    if to_evict =? -1 then (None, r2)
    else
      (Some to_evict,
       set_curr_size (to_size_t (curr_size_ r2 - 1))
         (set_node_store (delete to_evict) r2)).

(** History update of [RecordAccess]: push the timestamp, keep at most
    [k] entries. *)
Definition push_history (k ts : Z) (n : LRUKNode) : LRUKNode :=
  let h := history_ n ++ [ts] in
  mkNode (if Z.of_nat (length h) >? k then tail h else h) (is_evictable_ n).

Definition elem_ofb (f : Z) (l : list Z) : bool := bool_decide (f ∈ l).

(** [LRUKReplacer::RecordAccess]. *)
Definition RecordAccess (frame_id : Z) : M LRUKReplacer exn unit :=
  λ r,
  if to_size_t frame_id >=? replacer_size_ r then (Raise OutOfRange, r)
  else
    let ts := to_size_t (current_timestamp_ r + 1) in
    let r := set_current_timestamp ts r in
    let r :=
      match node_store_ r !! frame_id with
      | None =>
          set_less_k_frames (λ l, l ++ [frame_id])
            (set_node_store (<[frame_id := new_node]>) r)
      | Some _ => r
      end in
    let '(node, store) := index_store (node_store_ r) frame_id in
    let accessed_node := push_history (k_ r) ts node in
    let r := set_node_store (λ _, <[frame_id := accessed_node]> store) r in
    let size := Z.of_nat (length (history_ accessed_node)) in
    let r :=
      if size <? k_ r then
        set_less_k_frames (λ l, list_remove frame_id l ++ [frame_id]) r
      else if size =? k_ r then
        if negb (elem_ofb frame_id (k_frames_ r)) then
          set_k_frames (λ l, l ++ [frame_id])
            (set_less_k_frames (list_remove frame_id) r)
        else
          set_k_frames (λ l, list_remove frame_id l ++ [frame_id]) r
      else r in
    (Return tt, r).

(** [LRUKReplacer::SetEvictable]. *)
Definition SetEvictable (frame_id : Z) (set_evictable : bool) : M LRUKReplacer exn unit :=
  λ r,
  if to_size_t frame_id >=? replacer_size_ r then (Raise OutOfRange, r)
  else
    match node_store_ r !! frame_id with
    | Some n =>
        (Return tt,
         set_node_store (<[frame_id := mkNode (history_ n) set_evictable]>) r)
    | None => (Raise NotTracked, r)
    end.

(** [LRUKReplacer::Remove]. *)
Definition Remove (frame_id : Z) : M LRUKReplacer exn unit :=
  λ r,
  if to_size_t frame_id >=? replacer_size_ r then (Raise OutOfRange, r)
  else
    let r :=
      match node_store_ r !! frame_id with
      | Some _ =>
          set_curr_size (to_size_t (curr_size_ r - 1))
            (set_node_store (delete frame_id) r)
      | None => r
      end in
    (Return tt,
     set_less_k_frames (list_remove frame_id)
       (set_k_frames (list_remove frame_id) r)).

(** [LRUKReplacer::Size]: the number of nodes whose flag is set. *)
Definition Size (r : LRUKReplacer) : Z :=
  Z.of_nat (size (filter (λ p, is_evictable_ p.2 = true) (node_store_ r))).

(** Sequences of calls on a replacer; a call that throws leaves the state
    it threw in. *)
Inductive op : Type :=
  | OpRecordAccess (frame_id : Z)
  | OpSetEvictable (frame_id : Z) (set_evictable : bool)
  | OpRemove (frame_id : Z)
  | OpEvict.

Definition step (r : LRUKReplacer) (o : op) : LRUKReplacer :=
  match o with
  | OpRecordAccess f => (RecordAccess f r).2
  | OpSetEvictable f b => (SetEvictable f b r).2
  | OpRemove f => (Remove f r).2
  | OpEvict => (Evict r).2
  end.

Definition run (ops : list op) (r : LRUKReplacer) : LRUKReplacer :=
  foldl step r ops.

(** ** The policy as the specification words it *)

(** The Kth most recent timestamp of a node, none with fewer than K
    accesses, and its backward K-distance at time [now], [None] being
    +infinity. *)
Definition kth_most_recent (k : Z) (n : LRUKNode) : option Z :=
  if Z.of_nat (length (history_ n)) <? k then None
  else reverse (history_ n) !! Z.to_nat (k - 1).

Definition backward_k_distance (now k : Z) (n : LRUKNode) : option Z :=
  (λ t, now - t) <$> kth_most_recent k n.

Definition first_access (n : LRUKNode) : option Z := head (history_ n).

(** ** The policy as the lists implement it *)

(** The last timestamp recorded for a node, and whether it has fewer than
    [k] of them. *)
Definition last_access (n : LRUKNode) : Z := List.last (history_ n) 0.

Definition fewer_than_k (k : Z) (n : LRUKNode) : bool :=
  Z.of_nat (length (history_ n)) <? k.

(** [nf] goes before [ng]: a node with fewer than [k] accesses before one
    with [k]; among nodes of the same kind, the one accessed least
    recently. *)
Definition evicted_before (k : Z) (nf ng : LRUKNode) : Prop :=
  (fewer_than_k k nf = true ∧ fewer_than_k k ng = false) ∨
  (fewer_than_k k nf = fewer_than_k k ng ∧ last_access nf < last_access ng).

Definition last_of (store : gmap Z LRUKNode) (f : Z) : Z :=
  from_option last_access 0 (store !! f).

(** A list of frames in the order of their last access, oldest first. *)
Definition lru_sorted (store : gmap Z LRUKNode) (l : list Z) : Prop :=
  StronglySorted (λ a b, last_of store a < last_of store b) l.

(** What holds of a replacer built with [k] after at most [n] calls. *)
Record invariant (k n : Z) (r : LRUKReplacer) : Prop := mkInvariant {
  inv_k : k_ r = k;
  inv_size : 0 ≤ replacer_size_ r < 2 ^ 64;
  inv_now : 0 ≤ current_timestamp_ r ≤ n;
  inv_nodup : NoDup (less_k_frames_ r ++ k_frames_ r);
  inv_node : ∀ f nd, node_store_ r !! f = Some nd →
      to_size_t f < replacer_size_ r ∧
      history_ nd ≠ [] ∧ Z.of_nat (length (history_ nd)) ≤ k ∧
      last_access nd ≤ current_timestamp_ r ∧
      (if fewer_than_k k nd then f ∈ less_k_frames_ r else f ∈ k_frames_ r);
  inv_less : ∀ f, f ∈ less_k_frames_ r →
      ∃ nd, node_store_ r !! f = Some nd ∧ fewer_than_k k nd = true;
  inv_full : ∀ f, f ∈ k_frames_ r →
      ∃ nd, node_store_ r !! f = Some nd ∧ fewer_than_k k nd = false;
  inv_less_sorted : lru_sorted (node_store_ r) (less_k_frames_ r);
  inv_full_sorted : lru_sorted (node_store_ r) (k_frames_ r);
}.

(** ** Concrete runs *)

(** Scenario 1 of the specification: pool 7, k = 2. *)
Definition scenario1_a : LRUKReplacer :=
  run ([OpRecordAccess 1; OpRecordAccess 2; OpRecordAccess 3; OpRecordAccess 4;
        OpRecordAccess 5; OpRecordAccess 6] ++
       [OpSetEvictable 1 true; OpSetEvictable 2 true; OpSetEvictable 3 true;
        OpSetEvictable 4 true; OpSetEvictable 5 true; OpSetEvictable 6 true])
      (init 7 2).

(** k = 2: frame 1 accessed at times 1 and 4, frame 2 at times 2 and 3, both
    evictable. *)
Definition two_frames_k2_ops : list op :=
  [OpRecordAccess 1; OpRecordAccess 2; OpRecordAccess 2; OpRecordAccess 1;
   OpSetEvictable 1 true; OpSetEvictable 2 true].

Definition two_frames_k2 : LRUKReplacer := run two_frames_k2_ops (init 7 2).

(** k = 3: frame 1 accessed at times 1 and 3, frame 2 at time 2, both
    evictable, both with fewer than 3 accesses. *)
Definition two_frames_k3 : LRUKReplacer :=
  run [OpRecordAccess 1; OpRecordAccess 2; OpRecordAccess 1;
       OpSetEvictable 1 true; OpSetEvictable 2 true]
      (init 7 3).

End Replacer.
(** * Buffer pool manager (src/buffer/buffer_pool_manager.cpp, two revisions) *)

Module BPM.
#[local] Open Scope Z_scope.

Definition INVALID_PAGE_ID : Z := -1.

(** Modelled from the spec: the frame of page.h, which is not among the
    sources ("a fixed-size slot holding one page's bytes, its current
    page_id, a pin_count, a dirty flag"). *)
Record Page : Type := mkPage {
  data_ : list byte;
  page_id_ : Z;
  pin_count_ : Z;
  is_dirty_ : bool;
}.

(** [Page::ResetMemory]: [memset] of the whole buffer. *)
Definition zeroed (data : list byte) : list byte := (λ _, x00) <$> data.

(** Modelled from the spec: the disk manager, an external collaborator
    ("ReadPage fills a fixed-size buffer, WritePage durably writes a
    fixed-size buffer").  [write_log] lists the page ids written, oldest
    first; a page that was never written reads as zeroes. *)
Record DiskManager : Type := mkDisk {
  contents : gmap Z (list byte);
  write_log : list Z;
}.

Definition WritePage (page_id : Z) (data : list byte) (d : DiskManager) : DiskManager :=
  mkDisk (<[page_id := data]> (contents d)) (write_log d ++ [page_id]).

Definition ReadPage (page_id : Z) (buffer : list byte) (d : DiskManager) : list byte :=
  default (zeroed buffer) (contents d !! page_id).

Record BufferPoolManager : Type := mkBPM {
  pool_size_ : Z;
  next_page_id_ : Z;
  pages_ : list Page;
  replacer_ : Replacer.LRUKReplacer;
  free_list_ : list Z;
  page_table_ : gmap Z Z;
  disk_manager_ : DiskManager;
}.

(** What ends a call other than a return: an exception of the replacer, or
    undefined behaviour (an uninitialised [victim_frame], an index outside
    [pages_]). *)
Inductive fault : Type :=
  | ReplacerException (e : Replacer.exn)
  | Undefined.

Abbreviation BPMM := (M BufferPoolManager fault).

Definition set_pages (f : list Page → list Page) (b : BufferPoolManager) :=
  mkBPM (pool_size_ b) (next_page_id_ b) (f (pages_ b)) (replacer_ b)
        (free_list_ b) (page_table_ b) (disk_manager_ b).
Definition set_replacer (r : Replacer.LRUKReplacer) (b : BufferPoolManager) :=
  mkBPM (pool_size_ b) (next_page_id_ b) (pages_ b) r
        (free_list_ b) (page_table_ b) (disk_manager_ b).
Definition set_free_list (f : list Z → list Z) (b : BufferPoolManager) :=
  mkBPM (pool_size_ b) (next_page_id_ b) (pages_ b) (replacer_ b)
        (f (free_list_ b)) (page_table_ b) (disk_manager_ b).
Definition set_page_table (f : gmap Z Z → gmap Z Z) (b : BufferPoolManager) :=
  mkBPM (pool_size_ b) (next_page_id_ b) (pages_ b) (replacer_ b)
        (free_list_ b) (f (page_table_ b)) (disk_manager_ b).
Definition set_disk_manager (f : DiskManager → DiskManager) (b : BufferPoolManager) :=
  mkBPM (pool_size_ b) (next_page_id_ b) (pages_ b) (replacer_ b)
        (free_list_ b) (page_table_ b) (f (disk_manager_ b)).
Definition set_next_page_id (n : Z) (b : BufferPoolManager) :=
  mkBPM (pool_size_ b) n (pages_ b) (replacer_ b)
        (free_list_ b) (page_table_ b) (disk_manager_ b).

Definition set_data (d : list byte) (p : Page) :=
  mkPage d (page_id_ p) (pin_count_ p) (is_dirty_ p).
Definition set_page_id (i : Z) (p : Page) :=
  mkPage (data_ p) i (pin_count_ p) (is_dirty_ p).
Definition set_pin_count (n : Z) (p : Page) :=
  mkPage (data_ p) (page_id_ p) n (is_dirty_ p).
Definition set_is_dirty (d : bool) (p : Page) :=
  mkPage (data_ p) (page_id_ p) (pin_count_ p) d.

(** [pages_[frame]], read and updated in place. *)
Definition page_at (frame : Z) : BPMM Page :=
  λ b, if frame <? 0 then (Raise Undefined, b)
       else match pages_ b !! Z.to_nat frame with
            | Some p => (Return p, b)
            | None => (Raise Undefined, b)
            end.

Definition update_page (frame : Z) (f : Page → Page) : BPMM unit :=
  (p <~ page_at frame ;;
   modify (set_pages (<[Z.to_nat frame := f p]>)))%M.

(** A call on [replacer_]. *)
Definition on_replacer {A} (m : M Replacer.LRUKReplacer Replacer.exn A) : BPMM A :=
  λ b, match m (replacer_ b) with
       | (Return a, r) => (Return a, set_replacer r b)
       | (Raise e, r) => (Raise (ReplacerException e), set_replacer r b)
       end.

(** [replacer_->Evict(&victim_frame)]: the flag returned and the frame
    written, when one is. *)
Definition replacer_Evict : BPMM (option Z) :=
  λ b, let '(f, r) := Replacer.Evict (replacer_ b) in (Return f, set_replacer r b).

(** [BufferPoolManager::BufferPoolManager]: [page_size] is the constant
    BUSTUB_PAGE_SIZE of common/config.h. *)
Definition init (page_size : nat) (pool_size replacer_k : Z) : BufferPoolManager :=
  mkBPM pool_size 0
        (replicate (Z.to_nat pool_size) (mkPage (replicate page_size x00) INVALID_PAGE_ID 0 false))
        (Replacer.init pool_size replacer_k)
        (Z.of_nat <$> seq 0 (Z.to_nat pool_size))
        ∅
        (mkDisk ∅ []).

(** [BufferPoolManager::AllocatePage]. *)
Definition AllocatePage : BPMM Z :=
  λ b, (Return (next_page_id_ b), set_next_page_id (to_int32 (next_page_id_ b + 1)) b).

(** The victim selection of [NewPage] (both revisions) and of [FetchPage] in
    src/buffer/buffer_pool_manager.cpp: the flag returned by [Evict] is
    not read, so [victim_frame] is uninitialised when it fails. *)
Definition take_victim_unchecked : BPMM Z :=
  (b <~ get ;;
   match free_list_ b with
   | f :: rest => (_ <~ modify (set_free_list (λ _, rest)) ;; ret f)
   | [] =>
       v <~ replacer_Evict ;;
       match v with
       | Some f => ret f
       | None => throw Undefined
       end
   end)%M.

(** [BufferPoolManager::NewPage], the same text in both revisions.  The result
    is the new page id and the frame the returned pointer designates. *)
Definition NewPage : BPMM (option (Z * Z)) :=
  (b <~ get ;;
   if (Replacer.Size (replacer_ b) =? 0) && Replacer.is_empty (free_list_ b)
   then ret None
   else
     victim_frame <~ take_victim_unchecked ;;
     p <~ page_at victim_frame ;;
     _ <~ (if is_dirty_ p then
             _ <~ modify (set_disk_manager (WritePage (page_id_ p) (data_ p))) ;;
             _ <~ modify (set_page_table (delete (page_id_ p))) ;;
             update_page victim_frame (λ p, set_data (zeroed (data_ p)) p)
           else ret tt) ;;
     page_id <~ AllocatePage ;;
     _ <~ update_page victim_frame (λ p, set_pin_count 1 (set_page_id page_id p)) ;;
     _ <~ on_replacer (Replacer.RecordAccess victim_frame) ;;
     _ <~ on_replacer (Replacer.SetEvictable victim_frame false) ;;
     _ <~ modify (set_page_table (<[page_id := victim_frame]>)) ;;
     ret (Some (page_id, victim_frame)))%M.

(** [BufferPoolManager::UnpinPage]: both revisions run the same statements. *)
Definition UnpinPage (page_id : Z) (is_dirty : bool) : BPMM bool :=
  (b <~ get ;;
   match page_table_ b !! page_id with
   | None => ret false
   | Some unpinned =>
       p <~ page_at unpinned ;;
       if pin_count_ p <=? 0 then ret false
       else
         _ <~ update_page unpinned (λ p, set_pin_count (pin_count_ p - 1) p) ;;
         _ <~ (if pin_count_ p - 1 =? 0
               then on_replacer (Replacer.SetEvictable unpinned true)
               else ret tt) ;;
         _ <~ (if is_dirty then update_page unpinned (set_is_dirty true) else ret tt) ;;
         ret true
   end)%M.

(** [BufferPoolManager::FlushPage], the same text in both revisions. *)
Definition FlushPage (page_id : Z) : BPMM bool :=
  (b <~ get ;;
   match page_table_ b !! page_id with
   | None => ret false
   | Some frame =>
       p <~ page_at frame ;;
       _ <~ modify (set_disk_manager (WritePage page_id (data_ p))) ;;
       _ <~ update_page frame (set_is_dirty false) ;;
       ret true
   end)%M.

(** The loop [for (frame_id = 0; frame_id < pool_size_; frame_id++)] of
    [FlushAllPages], over the page id each revision passes to [FlushPage]. *)
Fixpoint for_frames (body : Z → BPMM bool) (frames : list Z) : BPMM unit :=
  match frames with
  | [] => ret tt
  | f :: rest => (_ <~ body f ;; for_frames body rest)%M
  end.

Definition frame_ids (b : BufferPoolManager) : list Z :=
  Z.of_nat <$> seq 0 (Z.to_nat (pool_size_ b)).

(** ** src/buffer/buffer_pool_manager.cpp *)
Module Src.

(** [BufferPoolManager::FetchPage]. *)
Definition FetchPage (page_id : Z) : BPMM (option Z) :=
  (b <~ get ;;
   if (Replacer.Size (replacer_ b) =? 0) && Replacer.is_empty (free_list_ b)
   then ret None
   else
     match page_table_ b !! page_id with
     | Some frame =>
         _ <~ update_page frame (λ p, set_pin_count (pin_count_ p + 1) p) ;;
         ret (Some frame)
     | None =>
         victim_frame <~ take_victim_unchecked ;;
         p <~ page_at victim_frame ;;
         _ <~ (if is_dirty_ p then
                 _ <~ modify (set_disk_manager (WritePage (page_id_ p) (data_ p))) ;;
                 update_page victim_frame (set_is_dirty false)
               else ret tt) ;;
         b <~ get ;;
         _ <~ update_page victim_frame
                (λ p, set_data (ReadPage page_id (data_ p) (disk_manager_ b)) p) ;;
         _ <~ update_page victim_frame (λ p, set_page_id page_id (set_pin_count 1 p)) ;;
         _ <~ on_replacer (Replacer.RecordAccess victim_frame) ;;
         _ <~ on_replacer (Replacer.SetEvictable victim_frame false) ;;
         _ <~ modify (set_page_table (<[page_id := victim_frame]>)) ;;
         ret (Some victim_frame)
     end)%M.

(** [BufferPoolManager::FlushAllPages]: the loop index is passed as the
    page id. *)
Definition FlushAllPages : BPMM unit :=
  (b <~ get ;; for_frames (λ frame_id, FlushPage frame_id) (frame_ids b))%M.

(** [BufferPoolManager::DeletePage]. *)
Definition DeletePage (page_id : Z) : BPMM bool := ret false.

End Src.

(** ** src/unnamed/part_001 *)
Module Part001.

(** [BufferPoolManager::FetchPage]. *)
Definition FetchPage (page_id : Z) : BPMM (option Z) :=
  (b <~ get ;;
   match page_table_ b !! page_id with
   | Some frame =>
       _ <~ update_page frame (λ p, set_pin_count (pin_count_ p + 1) p) ;;
       ret (Some frame)
   | None =>
       v <~ match free_list_ b with
            | f :: rest => (_ <~ modify (set_free_list (λ _, rest)) ;; ret (Some f))
            | [] => replacer_Evict
            end ;;
       match v with
       | None => ret None
       | Some victim_frame =>
           _ <~ on_replacer (Replacer.RecordAccess victim_frame) ;;
           _ <~ on_replacer (Replacer.SetEvictable victim_frame false) ;;
           _ <~ modify (set_page_table (<[page_id := victim_frame]>)) ;;
           p <~ page_at victim_frame ;;
           _ <~ (if is_dirty_ p then
                   _ <~ modify (set_disk_manager (WritePage (page_id_ p) (data_ p))) ;;
                   update_page victim_frame (set_is_dirty false)
                 else ret tt) ;;
           b <~ get ;;
           _ <~ update_page victim_frame
                  (λ p, set_data (ReadPage page_id (data_ p) (disk_manager_ b)) p) ;;
           _ <~ update_page victim_frame (λ p, set_page_id page_id (set_pin_count 1 p)) ;;
           ret (Some victim_frame)
       end
   end)%M.

(** [BufferPoolManager::FlushAllPages]: each frame's current page id is
    passed to [FlushPage]. *)
Definition FlushAllPages : BPMM unit :=
  (b <~ get ;;
   for_frames (λ frame_id, p <~ page_at frame_id ;; FlushPage (page_id_ p)) (frame_ids b))%M.

(** [BufferPoolManager::DeletePage]; [it->second] after [erase(it)] reads the
    frame id the entry held. *)
Definition DeletePage (page_id : Z) : BPMM bool :=
  (b <~ get ;;
   match page_table_ b !! page_id with
   | None => ret true
   | Some frame =>
       p <~ page_at frame ;;
       if pin_count_ p >? 0 then ret false
       else
         _ <~ modify (set_page_table (delete page_id)) ;;
         _ <~ on_replacer (Replacer.Remove frame) ;;
         _ <~ modify (set_free_list (λ l, l ++ [frame])) ;;
         _ <~ update_page frame
                (λ p, mkPage (zeroed (data_ p)) INVALID_PAGE_ID 0 false) ;;
         ret true
   end)%M.

End Part001.

(** ** Predicates on pool states *)

(** The page-table invariant: every entry [(pid, f)] names a frame that
    holds page [pid], and no frame is the value of two entries. *)
Definition page_table_invariant (b : BufferPoolManager) : Prop :=
  (∀ pid f, page_table_ b !! pid = Some f →
     0 ≤ f ∧ ∃ p, pages_ b !! Z.to_nat f = Some p ∧ page_id_ p = pid) ∧
  (∀ pid1 pid2 f,
     page_table_ b !! pid1 = Some f → page_table_ b !! pid2 = Some f → pid1 = pid2).

(** The frame the page table gives for [page_id], if any, is a frame of the
    pool with a pin count that is not negative, and the replacer tracks it. *)
Definition frame_tracked (b : BufferPoolManager) (page_id : Z) : Prop :=
  ∀ f, page_table_ b !! page_id = Some f →
    0 ≤ f ∧ to_size_t f < Replacer.replacer_size_ (replacer_ b) ∧
    ∃ p n, pages_ b !! Z.to_nat f = Some p ∧ 0 ≤ pin_count_ p ∧
           Replacer.node_store_ (replacer_ b) !! f = Some n.

(** The replacer with the flag of [frame]'s node set, as [SetEvictable]
    leaves it. *)
Definition with_flag (frame : Z) (flag : bool) (r : Replacer.LRUKReplacer)
    : Replacer.LRUKReplacer :=
  Replacer.set_node_store
    (alter (λ n, Replacer.mkNode (Replacer.history_ n) flag) frame) r.

End BPM.

(** * B+ tree index (src/storage/index/b_plus_tree.cpp and the page layouts) *)

Module BPlusTree.
#[local] Open Scope Z_scope.

Definition INVALID_PAGE_ID : Z := -1.

Inductive IndexPageType : Type := INVALID_INDEX_PAGE | LEAF_PAGE | INTERNAL_PAGE.

(** Modelled from the spec: the page header of b_plus_tree_page.h and its
    accessors, which are not among the sources ("page type, current size, max
    size, parent page id, self page id, is-root flag", then "an array of
    (key, value) pairs" and for leaves a sibling pointer).  Leaf and internal
    pages share the layout, as the casts of [FindLeafNode] assume; keys are
    integers, values are record ids in a leaf and child page ids in an
    internal page.  [array_] lists the slots written so far; a slot beyond
    them reads as zero. *)
Record BPlusTreePage : Type := mkTreePage {
  page_type_ : IndexPageType;
  size_ : Z;
  max_size_ : Z;
  parent_page_id_ : Z;
  page_id_ : Z;
  is_root_ : bool;
  next_page_id_ : Z;
  array_ : list (Z * Z);
}.

Definition zero_page : BPlusTreePage :=
  mkTreePage INVALID_INDEX_PAGE 0 0 0 0 false 0 [].

(** [GenericComparator]: negative, zero or positive. *)
Definition comparator (a b : Z) : Z :=
  match a ?= b with
  | Lt => -1
  | Eq => 0
  | Gt => 1
  end.

(** ** Header accessors *)

Definition GetSize (p : BPlusTreePage) : Z := size_ p.
Definition GetMaxSize (p : BPlusTreePage) : Z := max_size_ p.
Definition GetParent (p : BPlusTreePage) : Z := parent_page_id_ p.
Definition GetPage (p : BPlusTreePage) : Z := page_id_ p.
Definition IsRootPage (p : BPlusTreePage) : bool := is_root_ p.
Definition IsLeafPage (p : BPlusTreePage) : bool :=
  match page_type_ p with LEAF_PAGE => true | _ => false end.
Definition GetNextPageId (p : BPlusTreePage) : Z := next_page_id_ p.

Definition SetPageType (t : IndexPageType) (p : BPlusTreePage) :=
  mkTreePage t (size_ p) (max_size_ p) (parent_page_id_ p) (page_id_ p)
             (is_root_ p) (next_page_id_ p) (array_ p).
Definition SetSize (n : Z) (p : BPlusTreePage) :=
  mkTreePage (page_type_ p) n (max_size_ p) (parent_page_id_ p) (page_id_ p)
             (is_root_ p) (next_page_id_ p) (array_ p).
Definition IncreaseSize (amount : Z) (p : BPlusTreePage) :=
  SetSize (size_ p + amount) p.
Definition SetMaxSize (n : Z) (p : BPlusTreePage) :=
  mkTreePage (page_type_ p) (size_ p) n (parent_page_id_ p) (page_id_ p)
             (is_root_ p) (next_page_id_ p) (array_ p).
Definition SetParent (i : Z) (p : BPlusTreePage) :=
  mkTreePage (page_type_ p) (size_ p) (max_size_ p) i (page_id_ p)
             (is_root_ p) (next_page_id_ p) (array_ p).
Definition SetPage (i : Z) (p : BPlusTreePage) :=
  mkTreePage (page_type_ p) (size_ p) (max_size_ p) (parent_page_id_ p) i
             (is_root_ p) (next_page_id_ p) (array_ p).
Definition SetRootPage (b : bool) (p : BPlusTreePage) :=
  mkTreePage (page_type_ p) (size_ p) (max_size_ p) (parent_page_id_ p) (page_id_ p)
             b (next_page_id_ p) (array_ p).
Definition SetNextPageId (i : Z) (p : BPlusTreePage) :=
  mkTreePage (page_type_ p) (size_ p) (max_size_ p) (parent_page_id_ p) (page_id_ p)
             (is_root_ p) i (array_ p).
Definition set_array (a : list (Z * Z)) (p : BPlusTreePage) :=
  mkTreePage (page_type_ p) (size_ p) (max_size_ p) (parent_page_id_ p) (page_id_ p)
             (is_root_ p) (next_page_id_ p) a.

(** ** Slots of [array_] *)

Definition slot (a : list (Z * Z)) (i : Z) : Z * Z :=
  default (0, 0) (a !! Z.to_nat i).

Definition set_slot (i : Z) (x : Z * Z) (a : list (Z * Z)) : list (Z * Z) :=
  <[Z.to_nat i := x]> (a ++ replicate (S (Z.to_nat i) - length a) (0, 0)).

(** [KeyAt], [ValueAt], [SetKeyAt], [SetValueAt] (internal page) and [SetAt]
    (leaf page). *)
Definition KeyAt (p : BPlusTreePage) (index : Z) : Z := (slot (array_ p) index).1.
Definition ValueAt (p : BPlusTreePage) (index : Z) : Z := (slot (array_ p) index).2.
Definition SetKeyAt (index key : Z) (p : BPlusTreePage) :=
  set_array (set_slot index (key, ValueAt p index) (array_ p)) p.
Definition SetValueAt (index value : Z) (p : BPlusTreePage) :=
  set_array (set_slot index (KeyAt p index, value) (array_ p)) p.
Definition SetAt (index key value : Z) (p : BPlusTreePage) :=
  set_array (set_slot index (key, value) (array_ p)) p.

(** The loop [for (int i = GetSize(); i > pos; i--) array_[i] = array_[i - 1]]
    of [ShiftAt] and [InsertAt]. *)
Definition shift_from (pos : Z) (p : BPlusTreePage) : BPlusTreePage :=
  foldl (λ q i, set_array (set_slot i (slot (array_ q) (i - 1)) (array_ q)) q)
        p (reverse (seqZ (pos + 1) (GetSize p - pos))).

Definition ShiftAt (pos : Z) (p : BPlusTreePage) : BPlusTreePage := shift_from pos p.

(** [B_PLUS_TREE_LEAF_PAGE_TYPE::Init]. *)
Definition LeafInit (max_size : Z) (p : BPlusTreePage) : BPlusTreePage :=
  SetNextPageId INVALID_PAGE_ID
    (SetRootPage false (SetMaxSize max_size (SetSize 0 (SetPageType LEAF_PAGE p)))).

(** [B_PLUS_TREE_INTERNAL_PAGE_TYPE::Init]. *)
Definition InternalInit (max_size : Z) (p : BPlusTreePage) : BPlusTreePage :=
  SetRootPage false (SetSize 0 (SetPageType INTERNAL_PAGE (SetMaxSize max_size p))).

(** The [while (low <= high)] loop shared by [FindPosition] (leaf) and
    [FindInsertPosition] (internal).  Each turn shrinks [high - low], so the
    fuel [high - low + 1] of the callers is never exhausted while
    [low <= high]. *)
Fixpoint search_le (fuel : nat) (p : BPlusTreePage) (key low high : Z) : Z :=
  match fuel with
  | O => low
  | S fuel' =>
      if low <=? high then
        let mid := (low + high) ÷ 2 in
        let comp_result := comparator (KeyAt p mid) key in
        if comp_result =? 0 then mid
        else if comp_result <? 0 then search_le fuel' p key (mid + 1) high
        else search_le fuel' p key low (mid - 1)
      else low
  end.

(** [B_PLUS_TREE_LEAF_PAGE_TYPE::FindPosition]. *)
Definition FindPosition (p : BPlusTreePage) (key : Z) : Z :=
  search_le (Z.to_nat (GetSize p - 1 - 0 + 1)) p key 0 (GetSize p - 1).

(** [B_PLUS_TREE_INTERNAL_PAGE_TYPE::FindInsertPosition]. *)
Definition FindInsertPosition (p : BPlusTreePage) (key : Z) : Z :=
  search_le (Z.to_nat (GetSize p - 1 - 1 + 1)) p key 1 (GetSize p - 1).

(** The [while (low < high)] loop of [FindChildIndex]. *)
Fixpoint search_lt (fuel : nat) (p : BPlusTreePage) (key low high : Z) : Z :=
  match fuel with
  | O => low
  | S fuel' =>
      if low <? high then
        let mid := (low + high) ÷ 2 in
        let comp_result := comparator (KeyAt p mid) key in
        if comp_result =? 0 then mid
        else if comp_result <? 0 then search_lt fuel' p key (mid + 1) high
        else search_lt fuel' p key low (mid - 1)
      else low
  end.

(** [B_PLUS_TREE_INTERNAL_PAGE_TYPE::FindChildIndex]. *)
Definition FindChildIndex (p : BPlusTreePage) (key : Z) : Z :=
  if comparator key (KeyAt p 1) <? 0 then 0
  else search_lt (Z.to_nat (GetSize p - 1 - 1 + 1)) p key 1 (GetSize p - 1).

(** [B_PLUS_TREE_INTERNAL_PAGE_TYPE::InsertAt]. *)
Definition InsertAt (position key child_id : Z) (p : BPlusTreePage) : BPlusTreePage :=
  if position =? 0 then IncreaseSize 1 (SetValueAt position child_id p)
  else IncreaseSize 1 (SetValueAt position child_id (SetKeyAt position key (shift_from position p))).

(** ** The tree over its pages *)

(** The tree with the pages it reaches through the buffer pool manager: the
    header page's [root_page_id_], the contents of every page by page id,
    and the pool's page id counter.  A pool that always has a frame to give
    is assumed; a page never written reads as zeroes. *)
Record Tree : Type := mkTree {
  leaf_max_size_ : Z;
  internal_max_size_ : Z;
  header_page_id_ : Z;
  root_page_id_ : Z;
  tree_pages : gmap Z BPlusTreePage;
  pool_next_page_id : Z;
}.

(** A loop of the tree that was cut off by its fuel. *)
Inductive stuck : Type := OutOfFuel.

Abbreviation TM := (M Tree stuck).

Definition set_root_page_id (i : Z) (t : Tree) :=
  mkTree (leaf_max_size_ t) (internal_max_size_ t) (header_page_id_ t) i
         (tree_pages t) (pool_next_page_id t).
Definition set_tree_pages (f : gmap Z BPlusTreePage → gmap Z BPlusTreePage) (t : Tree) :=
  mkTree (leaf_max_size_ t) (internal_max_size_ t) (header_page_id_ t) (root_page_id_ t)
         (f (tree_pages t)) (pool_next_page_id t).
Definition set_pool_next_page_id (i : Z) (t : Tree) :=
  mkTree (leaf_max_size_ t) (internal_max_size_ t) (header_page_id_ t) (root_page_id_ t)
         (tree_pages t) i.

(** The page a guard on [page_id] gives access to, and a write through it. *)
Definition page_of (t : Tree) (page_id : Z) : BPlusTreePage :=
  default zero_page (tree_pages t !! page_id).

Definition fetch (page_id : Z) : TM BPlusTreePage :=
  λ t, (Return (page_of t page_id), t).

Definition update (page_id : Z) (f : BPlusTreePage → BPlusTreePage) : TM unit :=
  λ t, (Return tt, set_tree_pages (<[page_id := f (page_of t page_id)]>) t).

(** [bpm_->NewPageGuarded(&id)]. *)
Definition NewPageGuarded : TM Z :=
  λ t, (Return (pool_next_page_id t),
        set_pool_next_page_id (to_int32 (pool_next_page_id t + 1))
          (set_tree_pages (<[pool_next_page_id t := zero_page]>) t)).

(** [BPlusTree::BPlusTree]; page 0 of the pool is the header page. *)
Definition init (header_page_id leaf_max_size internal_max_size : Z) : Tree :=
  mkTree leaf_max_size internal_max_size header_page_id INVALID_PAGE_ID ∅
         (header_page_id + 1).

(** [BPlusTree::GetRootPageId] and [BPlusTree::IsEmpty]. *)
Definition GetRootPageId : TM Z := λ t, (Return (root_page_id_ t), t).
Definition IsEmpty : TM bool := λ t, (Return (root_page_id_ t =? INVALID_PAGE_ID), t).

(** [BPlusTree::GetValue]: the body declares a context and returns. *)
Definition GetValue (key : Z) (result : list Z) : TM (bool * list Z) :=
  ret (false, result).

(** [BPlusTree::Remove]: the body declares a context. *)
Definition Remove (key : Z) : TM unit := ret tt.

(** The [while] loop of [FindLeafNode]. *)
Fixpoint FindLeafNode_loop (fuel : nat) (key current_page_id : Z) : TM Z :=
  match fuel with
  | O => throw OutOfFuel
  | S fuel' =>
      if current_page_id =? INVALID_PAGE_ID then ret INVALID_PAGE_ID
      else
        (node_page <~ fetch current_page_id ;;
         if IsLeafPage node_page then ret current_page_id
         else
           let child_index := FindChildIndex node_page key in
           FindLeafNode_loop fuel' key (ValueAt node_page child_index))%M
  end.

(** [BPlusTree::FindLeafNode]. *)
Definition FindLeafNode (fuel : nat) (key : Z) : TM Z :=
  (root <~ GetRootPageId ;; FindLeafNode_loop fuel key root)%M.

(** [BPlusTree::InsertInLeaf], on the page held by the guard of [page]. *)
Definition InsertInLeaf (key value : Z) (page : Z) : TM bool :=
  (p <~ fetch page ;;
   if GetMaxSize p - 1 =? GetSize p then ret false
   else
     let position := FindPosition p key in
     _ <~ update page (λ p, IncreaseSize 1 (SetAt position key value (ShiftAt position p))) ;;
     ret true)%M.

(** [tmp.insert(tmp.begin() + n, x)]. *)
Definition vector_insert (n : Z) (x : Z * Z) (tmp : list (Z * Z)) : list (Z * Z) :=
  take (Z.to_nat n) tmp ++ x :: drop (Z.to_nat n) tmp.

(** The entries [(KeyAt(i), ValueAt(i))] for [i < GetSize()]. *)
Definition entries (p : BPlusTreePage) : list (Z * Z) :=
  (λ i, (KeyAt p i, ValueAt p i)) <$> seqZ 0 (GetSize p).

(** The temporary vector of [SplitInternalNode]. *)
Definition internal_tmp (p : BPlusTreePage) (key child_id : Z) : list (Z * Z) :=
  vector_insert (FindChildIndex p key + 1) (key, child_id) (entries p).

(** The temporary vector of [SplitLeafNode]. *)
Definition leaf_tmp (p : BPlusTreePage) (key value : Z) : list (Z * Z) :=
  vector_insert (FindPosition p key) (key, value) (entries p).

(** The two copy loops of [SplitInternalNode] and the [IncreaseSize(1)] after
    them: the old page, the new page and [middle_key]. *)
Definition split_internal_pages (tmp : list (Z * Z)) (page new_internal : BPlusTreePage)
    : BPlusTreePage * BPlusTreePage * Z :=
  let middle_index := to_size_t ((GetMaxSize page + 1) ÷ 2) in
  let page1 :=
    foldl (λ q i, SetValueAt i (slot tmp i).2 (SetKeyAt i (slot tmp i).1 q))
          page (seqZ 0 middle_index) in
  let middle_key := (slot tmp middle_index).1 in
  let '(page2, new2) :=
    foldl (λ '(q, n) i,
             let j := i - middle_index in
             (IncreaseSize (-1) q,
              IncreaseSize 1 (SetValueAt j (slot tmp i).2 (SetKeyAt j (slot tmp i).1 n))))
          (page1, new_internal)
          (seqZ middle_index (Z.of_nat (length tmp) - middle_index)) in
  (IncreaseSize 1 page2, new2, middle_key).

(** The two copy loops of [SplitLeafNode] and the [IncreaseSize(1)] after
    them. *)
Definition split_leaf_pages (tmp : list (Z * Z)) (page new_leaf : BPlusTreePage)
    : BPlusTreePage * BPlusTreePage * Z :=
  let middle_index := to_size_t (GetMaxSize page ÷ 2) in
  let page1 :=
    foldl (λ q i, SetAt i (slot tmp i).1 (slot tmp i).2 q) page (seqZ 0 middle_index) in
  let middle_key := (slot tmp middle_index).1 in
  let '(page2, new2) :=
    foldl (λ '(q, n) i,
             let j := i - middle_index in
             (IncreaseSize (-1) q,
              IncreaseSize 1 (SetAt j (slot tmp i).1 (slot tmp i).2 n)))
          (page1, new_leaf)
          (seqZ middle_index (Z.of_nat (length tmp) - middle_index)) in
  (IncreaseSize 1 page2, new2, middle_key).

Section Operations.

(** The default arguments of [Init], the macros LEAF_PAGE_SIZE and
    INTERNAL_PAGE_SIZE of the page headers, which are not among the
    sources. *)
Variables LEAF_PAGE_SIZE INTERNAL_PAGE_SIZE : Z.

(** [BPlusTree::SplitInternalNode], with the call of [InsertInParent] that
    ends it as [insert_in_parent]. *)
Definition SplitInternalNode_with (insert_in_parent : Z → Z → Z → TM unit)
    (page key child_id : Z) : TM unit :=
  (p <~ fetch page ;;
   let tmp := internal_tmp p key child_id in
   new_internal_id <~ NewPageGuarded ;;
   t <~ get ;;
   _ <~ update new_internal_id
          (λ n, SetPage new_internal_id
                  (SetMaxSize (internal_max_size_ t) (InternalInit INTERNAL_PAGE_SIZE n))) ;;
   p <~ fetch page ;;
   n <~ fetch new_internal_id ;;
   let '(p', n', middle_key) := split_internal_pages tmp p n in
   _ <~ update page (λ _, p') ;;
   _ <~ update new_internal_id (λ _, n') ;;
   _ <~ update child_id (SetParent new_internal_id) ;;
   insert_in_parent page middle_key new_internal_id)%M.

(** [BPlusTree::InsertInParent]; the recursion through [SplitInternalNode]
    climbs one level per call. *)
Fixpoint InsertInParent (fuel : nat) (old_node middle_key new_node : Z) : TM unit :=
  match fuel with
  | O => throw OutOfFuel
  | S fuel' =>
      (old <~ fetch old_node ;;
       if IsRootPage old then
         new_root_id <~ NewPageGuarded ;;
         t <~ get ;;
         new <~ fetch new_node ;;
         _ <~ update new_root_id
                (λ r, SetMaxSize (internal_max_size_ t)
                        (SetSize 2
                           (SetValueAt 0 (GetPage old)
                              (SetValueAt 1 (GetPage new)
                                 (SetKeyAt 1 middle_key
                                    (SetPage new_root_id
                                       (SetRootPage true
                                          (InternalInit INTERNAL_PAGE_SIZE r)))))))) ;;
         _ <~ update new_node (SetParent new_root_id) ;;
         _ <~ update old_node (SetParent new_root_id) ;;
         modify (set_root_page_id new_root_id)
       else
         parent <~ fetch (GetParent old) ;;
         new <~ fetch new_node ;;
         if GetSize parent <? GetMaxSize parent then
           let position := FindInsertPosition parent middle_key in
           _ <~ update (GetParent old) (InsertAt position middle_key (GetPage new)) ;;
           update new_node (SetParent (GetParent old))
         else
           SplitInternalNode_with (InsertInParent fuel') (GetParent old) middle_key (GetPage new))%M
  end.

Definition SplitInternalNode (fuel : nat) (page key child_id : Z) : TM unit :=
  SplitInternalNode_with (InsertInParent fuel) page key child_id.

(** [BPlusTree::SplitLeafNode]. *)
Definition SplitLeafNode (fuel : nat) (page key value : Z) : TM unit :=
  (p <~ fetch page ;;
   let tmp := leaf_tmp p key value in
   new_leaf_id <~ NewPageGuarded ;;
   t <~ get ;;
   _ <~ update new_leaf_id
          (λ n, SetPage new_leaf_id (SetMaxSize (leaf_max_size_ t) (LeafInit LEAF_PAGE_SIZE n))) ;;
   p <~ fetch page ;;
   n <~ fetch new_leaf_id ;;
   let '(p', n', middle_key) := split_leaf_pages tmp p n in
   _ <~ update page (λ _, p') ;;
   _ <~ update new_leaf_id (λ _, n') ;;
   p <~ fetch page ;;
   _ <~ update new_leaf_id (SetNextPageId (GetNextPageId p)) ;;
   _ <~ update page (SetNextPageId new_leaf_id) ;;
   InsertInParent fuel page middle_key new_leaf_id)%M.

(** [BPlusTree::Insert]. *)
Definition Insert (fuel : nat) (key value : Z) : TM bool :=
  (empty <~ IsEmpty ;;
   if empty : bool then
     root_id <~ NewPageGuarded ;;
     _ <~ modify (set_root_page_id root_id) ;;
     t <~ get ;;
     _ <~ update root_id
            (λ r, SetMaxSize (leaf_max_size_ t)
                    (SetPage root_id (SetRootPage true (LeafInit LEAF_PAGE_SIZE r)))) ;;
     _ <~ InsertInLeaf key value root_id ;;
     ret true
   else
     leaf_node_id <~ FindLeafNode fuel key ;;
     inserted <~ InsertInLeaf key value leaf_node_id ;;
     if inserted : bool then ret true
     else
       _ <~ SplitLeafNode fuel leaf_node_id key value ;;
       ret true)%M.

End Operations.

(** [ceil(a / b)] for positive [b]. *)
Definition ceil_div (a b : Z) : Z := (a + b - 1) / b.

End BPlusTree.

(** * Concrete runs used by the statements below *)

Module Scenarios.
#[local] Open Scope Z_scope.

(** The state a buffer pool call leaves. *)
Definition after {A} (m : M BPM.BufferPoolManager BPM.fault A)
    (b : BPM.BufferPoolManager) : BPM.BufferPoolManager := (m b).2.

(** A pool of one frame (pages of two bytes, k = 2) after [NewPage], which
    gives page 0 in frame 0, pinned. *)
Definition pool1_page0_pinned : BPM.BufferPoolManager :=
  after BPM.NewPage (BPM.init 2 1 2).

(** Then [UnpinPage(0, false)]: page 0 is resident, clean and evictable. *)
Definition pool1_page0_unpinned : BPM.BufferPoolManager :=
  after (BPM.UnpinPage 0 false) pool1_page0_pinned.

(** [NewPage], [UnpinPage(0, true)], [NewPage], [UnpinPage(1, true)]: page 1
    is resident in frame 0 and dirty. *)
Definition pool1_page1_dirty : BPM.BufferPoolManager :=
  after (BPM.UnpinPage 1 true)
    (after BPM.NewPage (after (BPM.UnpinPage 0 true) pool1_page0_pinned)).

(** A tree with leaf and internal pages of at most 3 entries, header page 0,
    after [Insert(5, 50)]. *)
Definition tree_with_5 : BPlusTree.Tree :=
  (BPlusTree.Insert 255 255 8 5 50 (BPlusTree.init 0 3 3)).2.

(** A full internal page of [max_size] 4 and the empty page
    [SplitInternalNode] prepares for its right half. *)
Definition full_internal4 : BPlusTree.BPlusTreePage :=
  BPlusTree.mkTreePage BPlusTree.INTERNAL_PAGE 4 4 (-1) 7 true 0
    [(0, 100); (10, 101); (20, 102); (30, 103)].

Definition fresh_internal4 : BPlusTree.BPlusTreePage :=
  BPlusTree.SetPage 8
    (BPlusTree.SetMaxSize 4 (BPlusTree.InternalInit 255 BPlusTree.zero_page)).

(** A tree whose root, page 7, is that full internal page over the leaves
    100 to 103, and the leaf 104 that a split of leaf 103 has just
    produced with middle key 40. *)
Definition leaf4 (page_id next : Z) (kvs : list (Z * Z)) : BPlusTree.BPlusTreePage :=
  BPlusTree.mkTreePage BPlusTree.LEAF_PAGE (Z.of_nat (length kvs)) 4 7 page_id false next kvs.

Definition tree_full_root4 : BPlusTree.Tree :=
  BPlusTree.mkTree 4 4 0 7
    (<[7 := full_internal4]>
       (<[100 := leaf4 100 101 [(1, 1); (2, 2)]]>
          (<[101 := leaf4 101 102 [(10, 10); (11, 11)]]>
             (<[102 := leaf4 102 103 [(20, 20); (21, 21)]]>
                (<[103 := leaf4 103 104 [(30, 30); (31, 31)]]>
                   (<[104 := leaf4 104 (-1) [(40, 40); (41, 41)]]> ∅))))))
    105.

End Scenarios.

(** * Victim selection of the buffer pool manager, on its own *)

Module BPMVictim.
#[local] Open Scope Z_scope.

(** The victim selection of [FetchPage] in src/unnamed/part_001, which
    reads the flag [Evict] returns: [None] is the [return nullptr]. *)
Definition take_victim_checked : BPM.BPMM (option Z) :=
  (b <~ get ;;
   match BPM.free_list_ b with
   | f :: rest => (_ <~ modify (BPM.set_free_list (λ _, rest)) ;; ret (Some f))
   | [] => BPM.replacer_Evict
   end)%M.

(** The page [NewPage] leaves in the victim's frame: the bytes are zeroed
    and the dirty flag kept when the victim was dirty, and both are kept
    when it was clean. *)
Definition new_page_in (p : BPM.Page) (page_id : Z) : BPM.Page :=
  BPM.mkPage (if BPM.is_dirty_ p then BPM.zeroed (BPM.data_ p) else BPM.data_ p)
             page_id 1 (BPM.is_dirty_ p).

(** The disk after the write-back of a victim. *)
Definition written_back (p : BPM.Page) (d : BPM.DiskManager) : BPM.DiskManager :=
  if BPM.is_dirty_ p then BPM.WritePage (BPM.page_id_ p) (BPM.data_ p) d else d.

(** The pool of [Scenarios.pool1_page1_dirty] once its only frame has been
    taken as victim. *)
Definition pool1_page1_victim : BPM.BufferPoolManager :=
  (BPM.take_victim_unchecked Scenarios.pool1_page1_dirty).2.

End BPMVictim.

(** * Page operations of the B+ tree not reached by its tree code
      (src/storage/page/b_plus_tree_leaf_page.cpp, b_plus_tree_internal_page.cpp) *)

Module BPlusTreePages.
Import BPlusTree.
#[local] Open Scope Z_scope.

(** [B_PLUS_TREE_LEAF_PAGE_TYPE::Insert], the statements [InsertInLeaf]
    runs on the page. *)
Definition LeafInsert (position key value : Z) (p : BPlusTreePage) : BPlusTreePage :=
  IncreaseSize 1 (SetAt position key value (ShiftAt position p)).

(** The loop [for (int i = position; i < GetSize() - 1; i++)] of the leaf
    page's [Remove]: [array_[i].first = KeyAt(i + 1)], then
    [array_[i].second = ValueAt(i + 1)]. *)
Definition remove_loop (position : Z) (p : BPlusTreePage) : BPlusTreePage :=
  foldl (λ q i, let q1 := SetKeyAt i (KeyAt q (i + 1)) q in
                SetValueAt i (ValueAt q1 (i + 1)) q1)
        p (seqZ position (GetSize p - 1 - position)).

(** [B_PLUS_TREE_LEAF_PAGE_TYPE::Remove]. *)
Definition LeafRemove (position : Z) (p : BPlusTreePage) : bool * BPlusTreePage :=
  if (position <? 0) || (position >=? GetSize p) then (false, p)
  else (true, IncreaseSize (-1) (remove_loop position p)).

(** The loop of [ValueIndex] over the indices still to visit. *)
Fixpoint ValueIndex_loop (p : BPlusTreePage) (value : Z) (indices : list Z) : Z :=
  match indices with
  | [] => -1
  | i :: rest =>
      if ValueAt p i =? value then i else ValueIndex_loop p value rest
  end.

(** [B_PLUS_TREE_INTERNAL_PAGE_TYPE::ValueIndex]. *)
Definition ValueIndex (p : BPlusTreePage) (value : Z) : Z :=
  ValueIndex_loop p value (seqZ 0 (GetSize p)).

(** The keys of the slots from [first] to [GetSize() - 1] increase
    strictly: from 0 in a leaf, from 1 in an internal page, whose slot 0
    holds a child pointer only. *)
Definition keys_increasing (first : Z) (p : BPlusTreePage) : Prop :=
  ∀ i j, first ≤ i → i < j → j < GetSize p → KeyAt p i < KeyAt p j.

(** Two pages agree on the header fields other than the size. *)
Definition same_header (a b : BPlusTreePage) : Prop :=
  page_type_ a = page_type_ b ∧ max_size_ a = max_size_ b ∧
  parent_page_id_ a = parent_page_id_ b ∧ page_id_ a = page_id_ b ∧
  is_root_ a = is_root_ b ∧ next_page_id_ a = next_page_id_ b.

(** Pages for the examples: a leaf and an internal page of [max_size] 8
    holding three entries. *)
Definition leaf_10_20_30 : BPlusTreePage :=
  mkTreePage LEAF_PAGE 3 8 (-1) 5 true (-1) [(10, 100); (20, 200); (30, 300)].

Definition internal_10_20 : BPlusTreePage :=
  mkTreePage INTERNAL_PAGE 3 8 (-1) 6 true 0 [(0, 50); (10, 51); (20, 52)].

(** A tree whose root, page 5, is that leaf. *)
Definition tree_leaf_root : Tree :=
  mkTree 8 8 0 5 (<[5 := leaf_10_20_30]> ∅) 6.

(** A tree of leaf size 4 whose root leaf, page 5, holds three entries, and
    the same tree in the middle of a split: page 6 has taken the upper
    entries and the parent has not been told yet. *)
Definition tree_full_leaf_root : Tree :=
  mkTree 4 4 0 5
    (<[5 := mkTreePage LEAF_PAGE 3 4 (-1) 5 true (-1) [(10, 100); (20, 200); (30, 300)]]> ∅)
    6.

Definition tree_split_pending : Tree :=
  mkTree 4 4 0 5
    (<[5 := mkTreePage LEAF_PAGE 2 4 (-1) 5 true 6 [(10, 100); (20, 200)]]>
       (<[6 := mkTreePage LEAF_PAGE 2 4 0 6 false (-1) [(25, 250); (30, 300)]]> ∅))
    7.

End BPlusTreePages.

(** * Page guards (src/storage/page/page_guard.cpp) and the guarded calls of
      the buffer pool manager (src/unnamed/part_001) *)

Module PageGuard.
#[local] Open Scope Z_scope.

(** Modelled from the spec: the [BasicPageGuard] of page_guard.h, which is
    not among the sources ("ownership token wrapping (bpm, frame)").
    [bpm_] tells whether the pool pointer is set, the one pool being the
    state the calls run in; [page_] is the frame the page pointer
    designates, if any. *)
Record BasicPageGuard : Type := mkGuard {
  bpm_ : bool;
  page_ : option Z;
  is_dirty_ : bool;
}.

(** The fields a guard is left with when it has given its page up. *)
Definition released : BasicPageGuard := mkGuard false None false.

(** [BasicPageGuard::BasicPageGuard(BasicPageGuard &&that)]: the new guard
    and what is left of [that]. *)
Definition move (that : BasicPageGuard) : BasicPageGuard * BasicPageGuard :=
  (mkGuard (bpm_ that) (page_ that) (is_dirty_ that), released).

(** [BasicPageGuard::Drop], also the destructor; a set page pointer with a
    null pool pointer is a null dereference. *)
Definition Drop (g : BasicPageGuard) : BPM.BPMM BasicPageGuard :=
  match page_ g with
  | Some frame =>
      if bpm_ g then
        (p <~ BPM.page_at frame ;;
         _ <~ (if is_dirty_ g then BPM.UnpinPage (BPM.page_id_ p) true
               else BPM.UnpinPage (BPM.page_id_ p) false) ;;
         ret released)%M
      else throw BPM.Undefined
  | None => ret g
  end.

(** [BasicPageGuard::operator=(BasicPageGuard &&that)] for [that] another
    guard than [this]: the guard assigned to and what is left of [that]. *)
Definition move_assign (this that : BasicPageGuard)
    : BPM.BPMM (BasicPageGuard * BasicPageGuard) :=
  (_ <~ Drop this ;;
   ret (mkGuard (bpm_ that) (page_ that) (is_dirty_ that), released))%M.

(** [BufferPoolManager::FetchPageBasic] of src/unnamed/part_001: the guard
    is built from the pool and the pointer [FetchPage] returns. *)
Definition FetchPageBasic (page_id : Z) : BPM.BPMM BasicPageGuard :=
  (page <~ BPM.Part001.FetchPage page_id ;; ret (mkGuard true page false))%M.

(** [BufferPoolManager::NewPageGuarded]: the page id written and the
    guard. *)
Definition NewPageGuarded : BPM.BPMM (option Z * BasicPageGuard) :=
  (r <~ BPM.NewPage ;;
   ret (fst <$> r, mkGuard true (snd <$> r) false))%M.

End PageGuard.

(** * Counting evictable frames *)

Module ReplacerCount.
#[local] Open Scope Z_scope.

(** What a frame contributes to [LRUKReplacer::Size]: 1 when it is tracked
    with its flag set, 0 otherwise. *)
Definition counted (o : option Replacer.LRUKNode) : Z :=
  match o with
  | Some nd => if Replacer.is_evictable_ nd then 1 else 0
  | None => 0
  end.

(** [Size()] of a replacer whose node store is [store]. *)
Definition store_size (store : gmap Z Replacer.LRUKNode) : Z :=
  Z.of_nat (size (filter (λ p, Replacer.is_evictable_ p.2 = true) store)).

End ReplacerCount.
(** * Trie removal (src/primer/trie.cpp) *)

Module TrieRemove.
Import Trie.

(** [children_.empty()]. *)
Definition no_children (c : gmap ascii TrieNode) : bool := Nat.eqb (size c) 0.

(** [RemoveHelper(node, key, index)], with [key] the part of the key from
    [index] on and [None] for the null pointer it returns when the node is to
    be deleted.  [node] is a copy this call owns. *)
Fixpoint RemoveHelper (node : TrieNode) (key : string) : option TrieNode :=
  match key with
  | EmptyString =>
      if no_children (children_ node) then None
      else Some (PlainNode (children_ node))
  | String c rest =>
      match children_ node !! c with
      | None => Some node
      | Some found =>
          match RemoveHelper (Clone found) rest with
          | None =>
              let erased := delete c (children_ node) in
              if no_children erased && negb (is_value_node_ node) then None
              else Some (set_children node erased)
          | Some child => Some (set_children node (<[c := child]> (children_ node)))
          end
      end
  end.

(** [Trie::Remove]. *)
Definition Remove (t : Trie) (key : string) : Trie :=
  match root_ t with
  | None => mkTrie None
  | Some r => mkTrie (RemoveHelper (Clone r) key)
  end.

(** What a lookup of [key] finds below a possibly deleted node: the answer
    of [Get]'s walk from the node, and not-found when there is no node. *)
Definition subtree_get (T : ValueType) (o : option TrieNode) (key : string)
    : outcome (option Value) :=
  match o with
  | None => Ok None
  | Some n => Get_result T (Get_loop (Some n) key)
  end.

End TrieRemove.
(** * Properties of the trie *)

Module TrieFacts.
Import Trie.

Lemma children_set_children n c : children_ (set_children n c) = c.
Proof. by destruct n. Qed.

(** Walking the key just put ends on a node carrying the value. *)
Lemma Get_loop_Put_walk rest : ∀ node c v,
  ∃ ch, Get_loop (Some (Put_walk node c rest v)) (String c rest)
        = Some (Some (NodeWithValue ch v)).
Proof.
  induction rest as [|c' rest IH]; intros node c v; simpl.
  - rewrite children_set_children, lookup_insert_eq.
    destruct (children_ node !! c); eauto.
  - rewrite children_set_children, lookup_insert_eq. apply IH.
Qed.

Lemma Get_loop_no_children key :
  ∀ T, Get_result T (Get_loop (Some (PlainNode ∅)) key) = Ok None.
Proof. destruct key; intros T; simpl; [done|]. by rewrite lookup_empty. Qed.

Lemma Get_result_set_children T n c :
  Get_result T (Some (Some (set_children n c))) = Get_result T (Some (Some n)).
Proof. by destruct n. Qed.

(** Walking any other key answers as it did on the node before the put. *)
Lemma Get_loop_Put_walk_other T rest : ∀ node c v key,
  key ≠ String c rest →
  Get_result T (Get_loop (Some (Put_walk node c rest v)) key)
  = Get_result T (Get_loop (Some node) key).
Proof.
  induction rest as [|c' rest IH]; intros node c v key Hne.
  - destruct key as [|d key]; simpl.
    + apply Get_result_set_children.
    + rewrite children_set_children.
      destruct (decide (d = c)) as [->|Hd].
      * rewrite lookup_insert_eq.
        destruct key as [|e key]; [done|].
        destruct (children_ node !! c) as [old|]; simpl; [done|].
        by rewrite lookup_empty.
      * by rewrite lookup_insert_ne.
  - destruct key as [|d key].
    + simpl. apply Get_result_set_children.
    + cbn [Put_walk Get_loop]. rewrite children_set_children.
      destruct (decide (d = c)) as [->|Hd].
      * rewrite lookup_insert_eq.
        assert (key ≠ String c' rest) as Hk by congruence.
        rewrite (IH _ _ _ _ Hk).
        destruct (children_ node !! c) as [old|]; [done|].
        apply Get_loop_no_children.
      * by rewrite lookup_insert_ne.
Qed.

(** [Put] then [Get] of the same key, whenever the root is not null or the
    key is not empty. *)
Lemma Put_Get t key v :
  (is_Some (root_ t) ∨ key ≠ EmptyString) →
  ∃ t', Put t key v = Ok t' ∧ Get (type_of v) t' key = Ok (Some v).
Proof.
  intros H. destruct key as [|c rest].
  - destruct H as [[r Hr]|H]; [|done].
    unfold Put. rewrite Hr. eexists; split; [done|].
    unfold Get; simpl. by rewrite decide_True.
  - unfold Put. eexists; split; [done|].
    unfold Get. cbn [root_].
    destruct (Get_loop_Put_walk rest
                (match root_ t with Some r => Clone r | None => PlainNode ∅ end) c v)
      as [ch ->].
    simpl. by rewrite decide_True.
Qed.

(** C10: on the trie whose root is null, [Get] and [Put] with the empty key
    dereference the null root; with a key of at least one character [Get]
    answers not-found and [Put] returns a trie that answers that key with
    the value and every other key with not-found, no null pointer being
    read. *)
Theorem empty_trie_null_dereference :
  (∀ T, Get T empty_trie EmptyString = NullDeref) ∧
  (∀ v, Put empty_trie EmptyString v = NullDeref) ∧
  (∀ T c rest, Get T empty_trie (String c rest) = Ok None) ∧
  (∀ c rest v, ∃ t',
      Put empty_trie (String c rest) v = Ok t' ∧
      Get (type_of v) t' (String c rest) = Ok (Some v) ∧
      ∀ T key, key ≠ String c rest → Get T t' key = Ok None).
Proof.
  repeat split; try done.
  intros c rest v. eexists; split; [reflexivity|]. split.
  - unfold Get. cbn [root_ empty_trie].
    destruct (Get_loop_Put_walk rest (PlainNode ∅) c v) as [ch ->].
    simpl. by rewrite decide_True.
  - intros T key Hne. unfold Get. cbn [root_ empty_trie].
    rewrite Get_loop_Put_walk_other by done. apply Get_loop_no_children.
Qed.

Lemma empty_trie_null_dereference_witness :
  ∃ t', Put empty_trie "a" (VUint32 1) = Ok t' ∧
        "b"%string ≠ "a"%string ∧ Get TUint32 t' "b" = Ok None.
Proof.
  destruct empty_trie_null_dereference as (_ & _ & _ & H).
  destruct (H "a"%char EmptyString (VUint32 1)) as (t' & Hput & _ & Hother).
  exists t'. split; [exact Hput|]. split; [discriminate|].
  apply Hother. discriminate.
Defined.

(** C9: the property "for every trie, key and value, [Put] returns a trie
    that answers the key with the value" fails: on the null root with the
    empty key [Put] reads [root_->children_]. *)
Theorem Put_Get_fails_on_null_root_empty_key :
  Put empty_trie EmptyString (VUint32 7) = NullDeref ∧
  ¬ (∀ t key v, ∃ t', Put t key v = Ok t' ∧ Get (type_of v) t' key = Ok (Some v)).
Proof.
  split; [reflexivity|].
  intros H. destruct (H empty_trie EmptyString (VUint32 7)) as (t' & Hput & _).
  discriminate Hput.
Qed.

End TrieFacts.
(** * Properties of the buffer pool manager *)

Module BPMFacts.
Import BPM Scenarios.
#[local] Open Scope Z_scope.

(** Unfold the monad of a call down to the state it works on. *)
Ltac run_m :=
  repeat (unfold bind, get, update_page, page_at, modify, ret, throw, on_replacer;
          cbn beta iota).

(** C1: a clean victim keeps its page-table entry.  In a pool of one frame,
    after [NewPage] (page 0) and [UnpinPage(0, false)] the invariant holds;
    the next [NewPage] reuses frame 0 for page 1 and leaves the entry of
    page 0 in place, so frame 0 is the value of two entries and the entry of
    page 0 names a frame holding page 1.  [FetchPage] of an absent page does
    the same in both revisions. *)
Theorem clean_victim_keeps_its_page_table_entry :
  page_table_invariant pool1_page0_unpinned ∧
  (let b := after NewPage pool1_page0_unpinned in
   page_table_ b !! 0 = Some 0 ∧ page_table_ b !! 1 = Some 0 ∧
   page_id_ <$> pages_ b !! 0%nat = Some 1 ∧ ¬ page_table_invariant b) ∧
  (let b := after (Part001.FetchPage 5) pool1_page0_unpinned in
   page_table_ b !! 0 = Some 0 ∧ page_table_ b !! 5 = Some 0 ∧
   page_id_ <$> pages_ b !! 0%nat = Some 5 ∧ ¬ page_table_invariant b) ∧
  (let b := after (Src.FetchPage 5) pool1_page0_unpinned in
   page_table_ b !! 0 = Some 0 ∧ page_table_ b !! 5 = Some 0 ∧
   page_id_ <$> pages_ b !! 0%nat = Some 5 ∧ ¬ page_table_invariant b).
Proof.
  split; [|split; [|split]].
  - assert (page_table_ pool1_page0_unpinned = {[0 := 0]}) as Hpt
      by (vm_compute; reflexivity).
    assert (pages_ pool1_page0_unpinned !! 0%nat
            = Some (mkPage [x00; x00] 0 0 false)) as Hpg
      by (vm_compute; reflexivity).
    split.
    + intros pid f. rewrite Hpt. intros [<- <-]%lookup_singleton_Some.
      split; [lia|]. eexists; split; [exact Hpg|done].
    + intros pid1 pid2 f. rewrite Hpt.
      intros [<- _]%lookup_singleton_Some [<- _]%lookup_singleton_Some. done.
  - cbv zeta.
    assert (page_table_ (after NewPage pool1_page0_unpinned) !! 0 = Some 0) as H0
      by (vm_compute; reflexivity).
    assert (page_table_ (after NewPage pool1_page0_unpinned) !! 1 = Some 0) as H1
      by (vm_compute; reflexivity).
    split; [done|]. split; [done|]. split; [vm_compute; reflexivity|].
    intros [_ Hinj]. specialize (Hinj _ _ _ H0 H1). lia.
  - cbv zeta.
    assert (page_table_ (after (Part001.FetchPage 5) pool1_page0_unpinned) !! 0 = Some 0)
      as H0 by (vm_compute; reflexivity).
    assert (page_table_ (after (Part001.FetchPage 5) pool1_page0_unpinned) !! 5 = Some 0)
      as H1 by (vm_compute; reflexivity).
    split; [done|]. split; [done|]. split; [vm_compute; reflexivity|].
    intros [_ Hinj]. specialize (Hinj _ _ _ H0 H1). lia.
  - cbv zeta.
    assert (page_table_ (after (Src.FetchPage 5) pool1_page0_unpinned) !! 0 = Some 0)
      as H0 by (vm_compute; reflexivity).
    assert (page_table_ (after (Src.FetchPage 5) pool1_page0_unpinned) !! 5 = Some 0)
      as H1 by (vm_compute; reflexivity).
    split; [done|]. split; [done|]. split; [vm_compute; reflexivity|].
    intros [_ Hinj]. specialize (Hinj _ _ _ H0 H1). lia.
Qed.

(** In src/unnamed/part_001 [FetchPage] of a resident page increments the
    pin count of its frame and returns it, whatever the other frames are. *)
Lemma Part001_FetchPage_resident b page_id f p :
  page_table_ b !! page_id = Some f → 0 ≤ f →
  pages_ b !! Z.to_nat f = Some p →
  Part001.FetchPage page_id b =
    (Return (Some f),
     set_pages (<[Z.to_nat f := set_pin_count (pin_count_ p + 1) p]>) b).
Proof.
  intros Hpt Hf Hp. unfold Part001.FetchPage. run_m.
  rewrite Hpt. cbn beta iota.
  destruct (f <? 0) eqn:E; [lia|]. by rewrite Hp.
Qed.

(** C3: in src/buffer/buffer_pool_manager.cpp [FetchPage] tests
    "no evictable frame and no free frame" before it looks the page up: in
    a pool of one frame holding page 0 pinned, [FetchPage(0)] returns
    [nullptr] and changes nothing, although page 0 is resident; the revision
    of src/unnamed/part_001 returns frame 0 with pin count 2. *)
Theorem Src_FetchPage_resident_page_not_returned :
  page_table_ pool1_page0_pinned !! 0 = Some 0 ∧
  Src.FetchPage 0 pool1_page0_pinned = (Return None, pool1_page0_pinned) ∧
  (Part001.FetchPage 0 pool1_page0_pinned).1 = Return (Some 0) ∧
  pin_count_ <$> pages_ (after (Part001.FetchPage 0) pool1_page0_pinned) !! 0%nat = Some 2.
Proof. repeat split; vm_compute; reflexivity. Qed.

(** C8: in src/buffer/buffer_pool_manager.cpp [FlushAllPages] passes the
    frame index to [FlushPage]: with page 1 resident and dirty in frame 0 of
    a pool of one frame it writes nothing and page 1 stays dirty; the
    revision of src/unnamed/part_001 writes page 1 and clears the flag. *)
Theorem Src_FlushAllPages_skips_resident_page :
  page_table_ pool1_page1_dirty !! 1 = Some 0 ∧
  is_dirty_ <$> pages_ pool1_page1_dirty !! 0%nat = Some true ∧
  write_log (disk_manager_ pool1_page1_dirty) = [0] ∧
  (let b := after Src.FlushAllPages pool1_page1_dirty in
   write_log (disk_manager_ b) = [0] ∧
   is_dirty_ <$> pages_ b !! 0%nat = Some true) ∧
  (let b := after Part001.FlushAllPages pool1_page1_dirty in
   write_log (disk_manager_ b) = [0; 1] ∧
   is_dirty_ <$> pages_ b !! 0%nat = Some false).
Proof. repeat split; vm_compute; reflexivity. Qed.

Lemma SetEvictable_tracked f flag r n :
  to_size_t f < Replacer.replacer_size_ r →
  Replacer.node_store_ r !! f = Some n →
  Replacer.SetEvictable f flag r = (Return tt, with_flag f flag r).
Proof.
  intros Hlt Hn. unfold Replacer.SetEvictable, with_flag.
  destruct (to_size_t f >=? Replacer.replacer_size_ r) eqn:E; [lia|].
  rewrite Hn. f_equal. unfold Replacer.set_node_store. f_equal.
  apply map_eq. intros i. rewrite lookup_alter, lookup_insert.
  repeat case_decide; subst; try congruence. by rewrite Hn.
Qed.

(** C4: [UnpinPage(p, d)] returns [false] with the state unchanged exactly
    when [p] is not in the page table or the pin count of its frame is 0;
    otherwise it returns [true], the pin count is one less, the dirty flag is
    the old flag or [d] (so [d = false] never clears it), and the replacer
    is changed only when the new pin count is 0, by setting the frame's
    evictable flag.  The frame the page table names is taken to be a frame
    of the pool that the replacer tracks, with a pin count that is not
    negative. *)
Theorem UnpinPage_contract (b : BufferPoolManager) (page_id : Z) (is_dirty : bool) :
  frame_tracked b page_id →
  (UnpinPage page_id is_dirty b = (Return false, b) ↔
     page_table_ b !! page_id = None ∨
     ∃ f p, page_table_ b !! page_id = Some f ∧
            pages_ b !! Z.to_nat f = Some p ∧ pin_count_ p = 0) ∧
  (∀ f p, page_table_ b !! page_id = Some f →
          pages_ b !! Z.to_nat f = Some p → pin_count_ p ≠ 0 →
     UnpinPage page_id is_dirty b =
       (Return true,
        set_pages
          (<[Z.to_nat f := mkPage (data_ p) (page_id_ p) (pin_count_ p - 1)
                                  (is_dirty_ p || is_dirty)]>)
          (if pin_count_ p - 1 =? 0
           then set_replacer (with_flag f true (replacer_ b)) b
           else b))).
Proof.
  intros Htr.
  assert (∀ f p, page_table_ b !! page_id = Some f →
          pages_ b !! Z.to_nat f = Some p → pin_count_ p ≠ 0 →
     UnpinPage page_id is_dirty b =
       (Return true,
        set_pages
          (<[Z.to_nat f := mkPage (data_ p) (page_id_ p) (pin_count_ p - 1)
                                  (is_dirty_ p || is_dirty)]>)
          (if pin_count_ p - 1 =? 0
           then set_replacer (with_flag f true (replacer_ b)) b
           else b))) as Htrue.
  { intros f p Hpt Hp Hpin.
    destruct (Htr f Hpt) as (Hf & Hsz & p' & n & Hp' & Hge & Hn).
    assert (p' = p) as -> by congruence.
    assert (Z.to_nat f < length (pages_ b))%nat as Hlen by (by eapply lookup_lt_Some).
    unfold UnpinPage. run_m. rewrite Hpt. cbn beta iota.
    destruct (f <? 0) eqn:E; [lia|]. rewrite Hp.
    destruct (pin_count_ p <=? 0) eqn:E2; [lia|].
    rewrite Hp. 
    destruct (pin_count_ p - 1 =? 0) eqn:E3.
    - cbn [replacer_ set_pages]. rewrite (SetEvictable_tracked _ _ _ n Hsz Hn).
      destruct is_dirty; cbn [pages_ set_replacer set_pages].
      + rewrite list_lookup_insert_eq by done.
        f_equal. unfold set_pages, set_replacer; simpl.
        rewrite list_insert_insert_eq. by rewrite orb_true_r.
      + f_equal. unfold set_pages, set_replacer; simpl. by rewrite orb_false_r.
    - destruct is_dirty; cbn [pages_ set_replacer set_pages].
      + rewrite list_lookup_insert_eq by done.
        f_equal. unfold set_pages, set_replacer; simpl.
        rewrite list_insert_insert_eq. by rewrite orb_true_r.
      + f_equal. unfold set_pages, set_replacer; simpl. by rewrite orb_false_r. }
  split; [|exact Htrue].
  split.
  - intros Hres.
    destruct (page_table_ b !! page_id) as [f|] eqn:Hpt; [|by left].
    right. destruct (Htr f Hpt) as (Hf & Hsz & p & n & Hp & Hge & Hn).
    exists f, p. split; [done|]. split; [done|].
    destruct (decide (pin_count_ p = 0)) as [|Hne]; [done|].
    rewrite (Htrue f p eq_refl Hp Hne) in Hres. discriminate.
  - intros [Hnone|(f & p & Hpt & Hp & Hpin)].
    + unfold UnpinPage. run_m. by rewrite Hnone.
    + destruct (Htr f Hpt) as (Hf & _).
      unfold UnpinPage. run_m. rewrite Hpt. cbn beta iota.
      destruct (f <? 0) eqn:E; [lia|]. rewrite Hp.
      destruct (pin_count_ p <=? 0) eqn:E2; [done|lia].
Qed.

Lemma UnpinPage_contract_witness :
  frame_tracked pool1_page0_pinned 0 ∧
  UnpinPage 0 true pool1_page0_pinned =
    (Return true,
     set_pages (<[0%nat := mkPage [x00; x00] 0 0 true]>)
       (set_replacer (with_flag 0 true (replacer_ pool1_page0_pinned))
          pool1_page0_pinned)).
Proof.
  assert (frame_tracked pool1_page0_pinned 0) as Htr.
  { intros f Hf.
    assert (page_table_ pool1_page0_pinned = {[0 := 0]}) as Hpt
      by (vm_compute; reflexivity).
    rewrite Hpt in Hf. apply lookup_singleton_Some in Hf as [_ <-].
    split; [lia|]. split; [vm_compute; reflexivity|].
    exists (mkPage [x00; x00] 0 1 false), (Replacer.mkNode [1] false).
    repeat split; vm_compute; first [reflexivity | discriminate]. }
  split; [exact Htr|].
  destruct (UnpinPage_contract pool1_page0_pinned 0 true Htr) as [_ H].
  exact (H 0 (mkPage [x00; x00] 0 1 false) eq_refl eq_refl
           ltac:(vm_compute; discriminate)).
Defined.

End BPMFacts.
(** * Properties of the B+ tree *)

Module BPlusTreeFacts.
Import BPlusTree Scenarios.
#[local] Open Scope Z_scope.

(** ** Slots and copy loops *)

Lemma slot_set_slot_eq i x a : slot (set_slot i x a) i = x.
Proof.
  unfold slot, set_slot. rewrite list_lookup_insert_eq; [done|].
  rewrite length_app, length_replicate. lia.
Qed.

Lemma slot_set_slot_ne i j x a :
  Z.to_nat i ≠ Z.to_nat j → slot (set_slot i x a) j = slot a j.
Proof.
  intros Hne. unfold slot, set_slot. rewrite list_lookup_insert_ne by done.
  destruct (decide (Z.to_nat j < length a)%nat) as [Hlt|Hge].
  - by rewrite lookup_app_l.
  - rewrite lookup_app_r by lia. rewrite (lookup_ge_None_2 a) by lia.
    destruct (replicate _ _ !! _) as [y|] eqn:E; [|done].
    by apply lookup_replicate_1 in E as [-> _].
Qed.

Lemma set_slot_set_slot i x y a : set_slot i y (set_slot i x a) = set_slot i y a.
Proof.
  unfold set_slot at 1.
  replace (S (Z.to_nat i) - length (set_slot i x a))%nat with 0%nat.
  - simpl. rewrite app_nil_r. unfold set_slot. apply list_insert_insert_eq.
  - unfold set_slot. rewrite length_insert, length_app, length_replicate. lia.
Qed.

Lemma array_set_key_value j k v q :
  array_ (SetValueAt j v (SetKeyAt j k q)) = set_slot j (k, v) (array_ q).
Proof.
  unfold SetValueAt, SetKeyAt, KeyAt, set_array; simpl.
  rewrite slot_set_slot_eq. simpl. apply set_slot_set_slot.
Qed.

Lemma foldl_pair {A B C} (F : A → C → A) (G : B → C → B) l : ∀ a b,
  foldl (λ '(a, b) i, (F a i, G b i)) (a, b) l = (foldl F a l, foldl G b l).
Proof. induction l as [|x l IH]; intros a b; simpl; [done|]. apply IH. Qed.

(** A copy loop writing [tmp[m + i]] to slot [g (m + i) = i] for [i < n];
    [H] is what each turn does to the header. *)
Lemma copy_loop_slots (H : BPlusTreePage → BPlusTreePage) (g : Z → Z) tmp m q (n : nat) :
  (∀ q, array_ (H q) = array_ q) →
  (∀ i : nat, g (m + Z.of_nat i) = Z.of_nat i) →
  let q' := foldl (λ q i, H (SetValueAt (g i) (slot tmp i).2
                               (SetKeyAt (g i) (slot tmp i).1 q)))
                  q (seqZ m (Z.of_nat n)) in
  ∀ i, (i < n)%nat → slot (array_ q') (Z.of_nat i) = slot tmp (m + Z.of_nat i).
Proof.
  intros HH Hg. induction n as [|n IH]; intros q' i Hi; [lia|].
  subst q'. rewrite seqZ_S, foldl_app. simpl.
  rewrite HH, array_set_key_value, Hg.
  destruct (decide (i = n)) as [->|Hne].
  - rewrite slot_set_slot_eq. by destruct (slot tmp (m + Z.of_nat n)).
  - rewrite slot_set_slot_ne by lia. apply IH. lia.
Qed.

Lemma copy_loop_header (H : BPlusTreePage → BPlusTreePage) (g : Z → Z) (d : Z) tmp q l :
  (∀ q, size_ (H q) = size_ q + d) →
  let q' := foldl (λ q i, H (SetValueAt (g i) (slot tmp i).2
                               (SetKeyAt (g i) (slot tmp i).1 q))) q l in
  size_ q' = size_ q + Z.of_nat (length l) * d.
Proof.
  intros HH. revert q. induction l as [|x l IH]; intros q q'; subst q'; simpl; [lia|].
  rewrite IH, HH. simpl. lia.
Qed.

Lemma shrink_loop (q : BPlusTreePage) (l : list Z) :
  let q' := foldl (λ q (_ : Z), IncreaseSize (-1) q) q l in
  size_ q' = size_ q - Z.of_nat (length l) ∧ array_ q' = array_ q.
Proof.
  revert q. induction l as [|x l IH]; intros q q'; subst q'; simpl; [split; [lia|done]|].
  destruct (IH (IncreaseSize (-1) q)) as [-> ->]. simpl. split; [lia|done].
Qed.

Lemma entries_of_slots (q : BPlusTreePage) tmp (off n : nat) :
  size_ q = Z.of_nat n → (off + n ≤ length tmp)%nat →
  (∀ i, (i < n)%nat → slot (array_ q) (Z.of_nat i) = slot tmp (Z.of_nat off + Z.of_nat i)) →
  entries q = take n (drop off tmp).
Proof.
  intros Hsz Hlen Hs. apply list_eq. intros i. unfold entries, GetSize.
  rewrite list_lookup_fmap, Hsz.
  destruct (decide (i < n)%nat) as [Hi|Hi].
  - rewrite lookup_seqZ_lt by lia. simpl.
    rewrite lookup_take_lt by done. rewrite lookup_drop.
    unfold KeyAt, ValueAt. rewrite Z.add_0_l, <- surjective_pairing, (Hs i Hi).
    unfold slot. replace (Z.to_nat (Z.of_nat off + Z.of_nat i)) with (off + i)%nat by lia.
    destruct (tmp !! (off + i)%nat) eqn:E; [done|].
    apply lookup_ge_None_1 in E. lia.
  - rewrite lookup_seqZ_ge by lia. simpl.
    symmetry. apply lookup_ge_None_2. rewrite length_take, length_drop. lia.
Qed.

Lemma split_internal_pages_spec (tmp : list (Z * Z)) (page new_internal : BPlusTreePage) :
  GetSize page = GetMaxSize page → 2 ≤ GetMaxSize page < 2 ^ 31 →
  GetSize new_internal = 0 →
  length tmp = S (Z.to_nat (GetMaxSize page)) →
  let middle_index := Z.to_nat ((GetMaxSize page + 1) / 2) in
  let '(page', new', middle_key) := split_internal_pages tmp page new_internal in
  GetSize page' = (GetMaxSize page + 1) / 2 ∧
  entries page' = take middle_index tmp ∧
  entries new' = drop middle_index tmp ∧
  ∃ child rest,
    drop middle_index tmp = (middle_key, child) :: rest ∧
    ValueAt new' 0 = child ∧
    KeyAt new' <$> seqZ 1 (GetSize new' - 1) = rest.*1.
Proof.
  unfold GetSize, GetMaxSize. intros Hfull Hmax Hnew Hlen.
  set (midn := Z.to_nat ((max_size_ page + 1) / 2)).
  unfold split_internal_pages, GetMaxSize.
  assert ((max_size_ page + 1) / 2 = Z.of_nat midn) as Hmid.
  { unfold midn. rewrite Z2Nat.id; [done|]. apply Z.div_pos; lia. }
  assert (1 ≤ Z.of_nat midn ≤ max_size_ page) as Hmidr.
  { rewrite <- Hmid. split.
    - apply Z.div_le_lower_bound; lia.
    - apply Z.lt_succ_r, Z.div_lt_upper_bound; lia. }
  assert (to_size_t ((max_size_ page + 1) ÷ 2) = Z.of_nat midn) as ->.
  { unfold to_size_t. rewrite Z.quot_div_nonneg, Hmid by lia.
    apply Z.mod_small. lia. }
  set (rn := (S (Z.to_nat (max_size_ page)) - midn)%nat).
  replace (Z.of_nat (length tmp) - Z.of_nat midn) with (Z.of_nat rn) by lia.
  set (page1 := foldl _ page (seqZ 0 (Z.of_nat midn))).
  set (F := λ (q : BPlusTreePage) (_ : Z), IncreaseSize (-1) q).
  set (G := λ (n : BPlusTreePage) (i : Z),
         IncreaseSize 1 (SetValueAt (i - Z.of_nat midn) (slot tmp i).2
                           (SetKeyAt (i - Z.of_nat midn) (slot tmp i).1 n))).
  assert (foldl (λ '(q, n) i,
             (IncreaseSize (-1) q,
              IncreaseSize 1 (SetValueAt (i - Z.of_nat midn) (slot tmp i).2
                                (SetKeyAt (i - Z.of_nat midn) (slot tmp i).1 n))))
          (page1, new_internal) (seqZ (Z.of_nat midn) (Z.of_nat rn))
          = (foldl F page1 (seqZ (Z.of_nat midn) (Z.of_nat rn)),
             foldl G new_internal (seqZ (Z.of_nat midn) (Z.of_nat rn)))) as ->
    by apply (foldl_pair F G).
  (* the old page *)
  assert (size_ page1 = size_ page) as Hsz1.
  { subst page1.
    rewrite (copy_loop_header (λ q, q) (λ i, i) 0 tmp page); [lia|intros; lia]. }
  assert (∀ i, (i < midn)%nat →
            slot (array_ page1) (Z.of_nat i) = slot tmp (0 + Z.of_nat i)) as Hs1
    by exact (copy_loop_slots (λ q, q) (λ i, i) tmp 0 page midn
                (λ _, eq_refl) (λ i, Z.add_0_l _)).
  destruct (shrink_loop page1 (seqZ (Z.of_nat midn) (Z.of_nat rn))) as [Hsz2 Harr2].
  fold F in Hsz2, Harr2. rewrite length_seqZ in Hsz2.
  set (page2 := foldl F page1 _) in *.
  (* the new page *)
  set (new2 := foldl G new_internal _).
  assert (size_ new2 = size_ new_internal
                       + Z.of_nat (length (seqZ (Z.of_nat midn) (Z.of_nat rn))) * 1) as Hszn
    by exact (copy_loop_header (IncreaseSize 1) (λ i, i - Z.of_nat midn) 1 tmp new_internal
                (seqZ (Z.of_nat midn) (Z.of_nat rn)) (λ _, eq_refl)).
  rewrite length_seqZ in Hszn.
  assert (∀ i : nat, Z.of_nat midn + Z.of_nat i - Z.of_nat midn = Z.of_nat i) as Hg by lia.
  assert (∀ i, (i < rn)%nat →
            slot (array_ new2) (Z.of_nat i) = slot tmp (Z.of_nat midn + Z.of_nat i)) as Hsn
    by exact (copy_loop_slots (IncreaseSize 1) (λ i, i - Z.of_nat midn) tmp
                (Z.of_nat midn) new_internal rn (λ _, eq_refl) Hg).
  assert (entries new2 = drop midn tmp) as Hen.
  { rewrite (entries_of_slots new2 tmp midn rn); [|lia|lia|done].
    apply take_ge. rewrite length_drop. lia. }
  split; [simpl; lia|]. split; [|split; [done|]].
  - rewrite (entries_of_slots (IncreaseSize 1 page2) tmp 0 midn); [done|simpl; lia|lia|].
    intros i Hi. simpl. rewrite Harr2. by apply Hs1.
  - destruct (drop midn tmp) as [|[k c] rest] eqn:Hd.
    { apply (f_equal length) in Hd. rewrite length_drop in Hd. simpl in Hd. lia. }
    assert (slot tmp (Z.of_nat midn) = (k, c)) as Hslot.
    { unfold slot. rewrite Nat2Z.id.
      by rewrite <- (Nat.add_0_r midn), <- lookup_drop, Hd. }
    exists c, rest. rewrite Hslot. split; [done|].
    unfold entries, GetSize in Hen.
    rewrite seqZ_cons in Hen by lia. rewrite fmap_cons in Hen.
    injection Hen as Hk Hv Hrest. split; [done|].
    rewrite <- Hrest, <- list_fmap_compose. unfold GetSize.
    replace (Z.pred (size_ new2)) with (size_ new2 - 1) by lia. done.
Qed.

Lemma length_internal_tmp p key child_id :
  length (internal_tmp p key child_id) = S (Z.to_nat (GetSize p)).
Proof.
  unfold internal_tmp, vector_insert, entries.
  rewrite length_app, length_cons, length_take, length_drop, length_fmap, length_seqZ. lia.
Qed.

(** The index [FindChildIndex] returns is a slot of the page, so the
    insertion of [SplitInternalNode] falls inside the vector. *)
Lemma search_lt_range fuel p key : ∀ low high,
  1 ≤ low → low ≤ high + 1 →
  low ≤ search_lt fuel p key low high ≤ Z.max low high.
Proof.
  induction fuel as [|fuel IH]; intros low high Hlow Hle; simpl; [lia|].
  destruct (low <? high) eqn:E; [|lia].
  assert (low ≤ (low + high) ÷ 2 < high) as Hmid.
  { rewrite Z.quot_div_nonneg by lia. split.
    - apply Z.div_le_lower_bound; lia.
    - apply Z.div_lt_upper_bound; lia. }
  destruct (_ =? 0); [lia|].
  destruct (_ <? 0).
  - specialize (IH ((low + high) ÷ 2 + 1) high). lia.
  - specialize (IH low ((low + high) ÷ 2 - 1)). lia.
Qed.

Lemma FindChildIndex_range p key :
  2 ≤ GetSize p → 0 ≤ FindChildIndex p key ≤ GetSize p - 1.
Proof.
  intros Hsz. unfold FindChildIndex. destruct (_ <? 0); [lia|].
  pose proof (search_lt_range (Z.to_nat (GetSize p - 1 - 1 + 1)) p key 1 (GetSize p - 1)).
  lia.
Qed.

Lemma page_of_insert t i j x :
  page_of (set_tree_pages (<[i := x]>) t) j = if decide (i = j) then x else page_of t j.
Proof.
  unfold page_of, set_tree_pages; simpl. rewrite lookup_insert.
  by destruct (decide (i = j)).
Qed.

Lemma page_of_set_pool_next_page_id t i j :
  page_of (set_pool_next_page_id i t) j = page_of t j.
Proof. reflexivity. Qed.

(** C7, as the code has it: when [SplitInternalNode] splits a full internal
    page ([GetSize] = [GetMaxSize] = m), the vector of its m entries and
    the new pair is cut at [(m + 1) / 2], rounded down: that many entries
    stay in the old page and the rest go to the new page in order.  The key
    handed to [InsertInParent] is the first key of the right part; its child
    pointer is the new page's slot 0 and the keys in the new page's slots
    from 1 on are the other keys of the right part. *)
Theorem SplitInternalNode_halves (INTERNAL_PAGE_SIZE : Z)
    (insert_in_parent : Z → Z → Z → TM unit) (t : Tree) (page key child_id : Z) :
  GetSize (page_of t page) = GetMaxSize (page_of t page) →
  2 ≤ GetMaxSize (page_of t page) < 2 ^ 31 →
  page ≠ pool_next_page_id t →
  let max_size := GetMaxSize (page_of t page) in
  let tmp := internal_tmp (page_of t page) key child_id in
  let middle_index := Z.to_nat ((max_size + 1) / 2) in
  let new_internal_id := pool_next_page_id t in
  ∃ t' middle_key,
    SplitInternalNode_with INTERNAL_PAGE_SIZE insert_in_parent page key child_id t
      = insert_in_parent page middle_key new_internal_id t' ∧
    length tmp = S (Z.to_nat max_size) ∧
    GetSize (page_of t' page) = (max_size + 1) / 2 ∧
    entries (page_of t' page) = take middle_index tmp ∧
    entries (page_of t' new_internal_id) = drop middle_index tmp ∧
    ∃ child rest,
      drop middle_index tmp = (middle_key, child) :: rest ∧
      ValueAt (page_of t' new_internal_id) 0 = child ∧
      KeyAt (page_of t' new_internal_id)
        <$> seqZ 1 (GetSize (page_of t' new_internal_id) - 1) = rest.*1.
Proof.
  intros Hfull Hmax Hfresh max_size tmp middle_index new_internal_id.
  set (p := page_of t page) in *.
  set (n0 := SetPage new_internal_id
               (SetMaxSize (internal_max_size_ t) (InternalInit INTERNAL_PAGE_SIZE zero_page))).
  assert (length tmp = S (Z.to_nat max_size)) as Hlen
    by (unfold tmp; rewrite length_internal_tmp, Hfull; done).
  pose proof (split_internal_pages_spec tmp p n0 Hfull Hmax eq_refl Hlen) as Hspec.
  cbv zeta in Hspec.
  destruct (split_internal_pages tmp p n0) as [[p' n'] middle_key] eqn:Hsplit.
  destruct Hspec as (Hsz & Hleft & Hright & child & rest & Hdrop & Hchild & Hkeys).
  assert (∀ i q, entries (SetParent i q) = entries q) as Hent by done.
  assert (∀ i q, GetSize (SetParent i q) = GetSize q) as Hgs by done.
  assert (∀ i q j, ValueAt (SetParent i q) j = ValueAt q j) as Hva by done.
  assert (∀ i q, KeyAt (SetParent i q) = KeyAt q) as Hka by done.
  unfold SplitInternalNode_with.
  repeat (unfold bind, get, fetch, NewPageGuarded, update, ret; cbn beta iota).
  rewrite !page_of_insert, !page_of_set_pool_next_page_id, !page_of_insert.
  fold new_internal_id. rewrite !(decide_True (P := new_internal_id = new_internal_id)) by done.
  rewrite ?(decide_True (P := page = page)) by done.
  rewrite !(decide_False (P := new_internal_id = page)) by done.
  cbn [internal_max_size_ set_pool_next_page_id set_tree_pages].
  fold p. fold n0. fold tmp. rewrite Hsplit.
  eexists _, middle_key. split; [reflexivity|].
  rewrite !page_of_insert, !page_of_set_pool_next_page_id, !page_of_insert.
  rewrite !(decide_True (P := new_internal_id = new_internal_id)) by done.
  rewrite ?(decide_True (P := page = page)) by done.
  rewrite !(decide_False (P := new_internal_id = page)) by done.
  split; [done|].
  repeat case_decide; try (unfold new_internal_id in *; congruence);
    rewrite ?Hent, ?Hgs, ?Hva, ?Hka; eauto 10.
Qed.

Lemma SplitInternalNode_halves_witness :
  GetSize (page_of tree_full_root4 7) = GetMaxSize (page_of tree_full_root4 7) ∧
  2 ≤ GetMaxSize (page_of tree_full_root4 7) < 2 ^ 31 ∧
  7 ≠ pool_next_page_id tree_full_root4 ∧
  ∃ t' middle_key,
    SplitInternalNode_with 255 (λ _ _ _, ret tt) 7 40 104 tree_full_root4
      = (Return tt, t') ∧
    entries (page_of t' 7)
      = take 2 (internal_tmp (page_of tree_full_root4 7) 40 104) ∧
    drop 2 (internal_tmp (page_of tree_full_root4 7) 40 104) !! 0%nat
      = Some (middle_key, ValueAt (page_of t' 105) 0).
Proof.
  assert (GetSize (page_of tree_full_root4 7) = GetMaxSize (page_of tree_full_root4 7))
    as H1 by reflexivity.
  assert (2 ≤ GetMaxSize (page_of tree_full_root4 7) < 2 ^ 31) as H2
    by (vm_compute; split; [discriminate|reflexivity]).
  assert (7 ≠ pool_next_page_id tree_full_root4) as H3 by (vm_compute; discriminate).
  split; [exact H1|]. split; [exact H2|]. split; [exact H3|].
  destruct (SplitInternalNode_halves 255 (λ _ _ _, ret tt) tree_full_root4 7 40 104 H1 H2 H3)
    as (t' & middle_key & Heq & _ & _ & Hleft & _ & child & rest & Hdrop & Hchild & _).
  exists t', middle_key. split; [exact Heq|]. split; [exact Hleft|].
  change (Z.to_nat ((GetMaxSize (page_of tree_full_root4 7) + 1) / 2)) with 2%nat in Hdrop.
  change (pool_next_page_id tree_full_root4) with 105 in Hchild.
  rewrite Hdrop, Hchild. reflexivity.
Defined.

(** C7 with the rounding [ceil((max_size + 1) / 2)] fails: for [max_size] 4
    that is 3 entries in the old page; [SplitInternalNode] leaves 2 and
    moves 3 to the new page 105. *)
Lemma SplitInternalNode_left_size_is_not_ceil :
  let t' := (SplitInternalNode 255 8 7 40 104 tree_full_root4).2 in
  GetMaxSize (page_of tree_full_root4 7) = 4 ∧
  GetSize (page_of tree_full_root4 7) = 4 ∧
  ceil_div (4 + 1) 2 = 3 ∧
  GetSize (page_of t' 7) = 2 ∧
  entries (page_of t' 7) = [(0, 100); (10, 101)] ∧
  entries (page_of t' 105) = [(20, 102); (30, 103); (40, 104)] ∧
  GetSize (page_of t' 7) ≠ ceil_div (GetMaxSize (page_of tree_full_root4 7) + 1) 2.
Proof. repeat split; try (vm_compute; reflexivity). vm_compute. discriminate. Qed.

(** C5: [Insert] of a key the tree already holds returns [true] and stores
    a second entry for it: after [Insert(5, 50)] on the empty tree,
    [Insert(5, 51)] returns [true] and the root leaf holds the key 5
    twice. *)
Theorem Insert_duplicate_key_returns_true :
  entries (page_of tree_with_5 (root_page_id_ tree_with_5)) = [(5, 50)] ∧
  (Insert 255 255 8 5 51 tree_with_5).1 = Return true ∧
  (let t' := (Insert 255 255 8 5 51 tree_with_5).2 in
   entries (page_of t' (root_page_id_ t')) = [(5, 51); (5, 50)]).
Proof. repeat split; vm_compute; reflexivity. Qed.

(** C6: [GetValue] never finds a key: it returns [false] and leaves the
    result vector and the tree as they were, also for the key 5 just
    inserted with value 50. *)
Theorem GetValue_after_Insert_not_found :
  (Insert 255 255 8 5 50 (init 0 3 3)).1 = Return true ∧
  GetValue 5 [] tree_with_5 = (Return (false, []), tree_with_5) ∧
  ∀ key result t, GetValue key result t = (Return (false, result), t).
Proof. repeat split; vm_compute; reflexivity. Qed.

End BPlusTreeFacts.
(** * Properties of the replacer *)

Module ReplacerFacts.
Import Replacer.
#[local] Open Scope Z_scope.

(** ** Lists of frames *)

Lemma elem_of_list_remove f x l : x ∈ list_remove f l ↔ x ≠ f ∧ x ∈ l.
Proof. unfold list_remove. by rewrite list_elem_of_filter. Qed.

Lemma list_remove_notin f l : f ∉ l → list_remove f l = l.
Proof.
  unfold list_remove. induction l as [|x l IH]; intros Hf; [done|].
  apply not_elem_of_cons in Hf as [Hne Hf].
  rewrite filter_cons_True by done. by rewrite IH.
Qed.

Lemma list_remove_app f l1 l2 :
  list_remove f (l1 ++ l2) = list_remove f l1 ++ list_remove f l2.
Proof. apply filter_app. Qed.

Lemma list_remove_middle f l1 l2 :
  f ∉ l1 → f ∉ l2 → list_remove f (l1 ++ f :: l2) = l1 ++ l2.
Proof.
  intros H1 H2. rewrite list_remove_app. unfold list_remove at 2.
  rewrite filter_cons_False by (intros H; by apply H).
  fold (list_remove f l2). by rewrite !list_remove_notin.
Qed.

Lemma list_remove_sublist f l : sublist (list_remove f l) l.
Proof. apply sublist_filter. Qed.

Lemma lru_sorted_sublist store l' l :
  sublist l' l → lru_sorted store l → lru_sorted store l'.
Proof.
  unfold lru_sorted. induction 1 as [|x l1 l2 Hs IH|x l1 l2 Hs IH]; intros Hl.
  - done.
  - apply StronglySorted_cons in Hl as [Hall Hl]. apply StronglySorted_cons. split.
    + eapply Forall_forall. intros y Hy.
      eapply Forall_forall in Hall; [exact Hall|]. by eapply elem_of_sublist.
    + auto.
  - apply StronglySorted_cons in Hl as [_ Hl]. auto.
Qed.

Lemma lru_sorted_ext store store' l :
  (∀ x, x ∈ l → last_of store' x = last_of store x) →
  lru_sorted store l → lru_sorted store' l.
Proof.
  unfold lru_sorted. induction l as [|x l IH]; intros Hext Hl; [constructor|].
  apply StronglySorted_cons in Hl as [Hall Hl]. apply StronglySorted_cons. split.
  - apply Forall_forall. intros y Hy.
    rewrite !Hext by set_solver. by eapply Forall_forall in Hall.
  - apply IH; [|done]. intros y Hy. apply Hext. set_solver.
Qed.

Lemma lru_sorted_snoc store l f :
  lru_sorted store l →
  (∀ x, x ∈ l → last_of store x < last_of store f) →
  lru_sorted store (l ++ [f]).
Proof.
  unfold lru_sorted. intros Hl Hlt. apply StronglySorted_app. split; [|split; [done|]].
  - intros x y Hx Hy. apply list_elem_of_singleton in Hy as ->. auto.
  - repeat constructor.
Qed.

Lemma last_of_insert store f nd x :
  last_of (<[f := nd]> store) x = if decide (f = x) then last_access nd else last_of store x.
Proof. unfold last_of. rewrite lookup_insert. by destruct (decide (f = x)). Qed.

Lemma last_of_delete_ne store f x : f ≠ x → last_of (delete f store) x = last_of store x.
Proof. intros Hne. unfold last_of. by rewrite lookup_delete_ne. Qed.

(** ** The scan of [Evict] *)

Lemma index_store_tracked store f nd :
  store !! f = Some nd → index_store store f = (nd, store).
Proof. intros H. unfold index_store. by rewrite H. Qed.

Lemma get_evictable_from_list_spec store l :
  (∀ f, f ∈ l → is_Some (store !! f)) →
  (get_evictable_from_list store l = (-1, l, store) ∧
   ∀ x nd, x ∈ l → store !! x = Some nd → is_evictable_ nd = false) ∨
  (∃ f l1 l2 nd,
     get_evictable_from_list store l = (f, l1 ++ l2, store) ∧
     l = l1 ++ f :: l2 ∧ store !! f = Some nd ∧ is_evictable_ nd = true ∧
     ∀ x ndx, x ∈ l1 → store !! x = Some ndx → is_evictable_ ndx = false).
Proof.
  induction l as [|f l IH]; intros Htr.
  - left. split; [done|]. intros x nd Hx. by apply elem_of_nil in Hx.
  - destruct (Htr f ltac:(left)) as [nd Hnd]. simpl.
    rewrite (index_store_tracked _ _ _ Hnd).
    destruct (is_evictable_ nd) eqn:Hev.
    + right. exists f, [], l, nd. repeat split; try done.
      intros x ndx Hx. by apply elem_of_nil in Hx.
    + destruct IH as [[-> Hnone]|(g & l1 & l2 & ndg & -> & -> & Hg & Hgev & Hl1)].
      { intros x Hx. apply Htr. by right. }
      * left. split; [done|]. intros x ndx Hx Hndx.
        apply elem_of_cons in Hx as [->|Hx]; [congruence|eauto].
      * right. exists g, (f :: l1), l2, ndg. repeat split; try done.
        intros x ndx Hx Hndx.
        apply elem_of_cons in Hx as [->|Hx]; [congruence|eauto].
Qed.

(** The scan over a list kept in the order of last access: no evictable
    frame, or the evictable frame accessed least recently, erased. *)
Lemma scan_sorted store l :
  NoDup l → lru_sorted store l →
  (∀ x, x ∈ l → is_Some (store !! x) ∧ x ≠ -1) →
  ∃ f l', get_evictable_from_list store l = (f, l', store) ∧
    ((f = -1 ∧ l' = l ∧
      ∀ x nd, x ∈ l → store !! x = Some nd → is_evictable_ nd = false) ∨
     (f ≠ -1 ∧ f ∈ l ∧ l' = list_remove f l ∧
      (∃ nd, store !! f = Some nd ∧ is_evictable_ nd = true) ∧
      ∀ x ndx, x ∈ l → x ≠ f → store !! x = Some ndx → is_evictable_ ndx = true →
               last_of store f < last_of store x)).
Proof.
  intros Hnd Hsorted Htr.
  destruct (get_evictable_from_list_spec store l) as
    [[Heq Hnone]|(f & l1 & l2 & nd & Heq & -> & Hf & Hev & Hl1)].
  { intros x Hx. by apply Htr. }
  - exists (-1), l. split; [done|]. left. done.
  - exists f, (l1 ++ l2). split; [done|]. right.
    apply NoDup_app in Hnd as (Hnd1 & Hdisj & Hnd2).
    apply NoDup_cons in Hnd2 as [Hf2 Hnd2].
    assert (f ∉ l1) as Hf1 by (intros Hin; apply (Hdisj f Hin); left).
    assert (f ∈ l1 ++ f :: l2) as Hfin by (apply elem_of_app; right; left).
    split; [by apply Htr|]. split; [done|].
    split; [by rewrite list_remove_middle|]. split; [eauto|].
    intros x ndx Hx Hne Hndx Hxev.
    apply elem_of_app in Hx as [Hx|Hx].
    { specialize (Hl1 x ndx Hx Hndx). congruence. }
    apply elem_of_cons in Hx as [->|Hx]; [done|].
    apply StronglySorted_app_1_r, StronglySorted_cons in Hsorted as [Hall _].
    by eapply Forall_forall in Hall.
Qed.

Lemma tracked_not_minus_one k n r f nd :
  invariant k n r → node_store_ r !! f = Some nd → f ≠ -1.
Proof.
  intros Hinv Hf ->. destruct (inv_node _ _ _ Hinv _ _ Hf) as (Hlt & _).
  pose proof (inv_size _ _ _ Hinv). unfold to_size_t in Hlt.
  change ((-1) mod 2 ^ 64) with (2 ^ 64 - 1) in Hlt. lia.
Qed.

(** ** [Evict] on a state satisfying the invariant *)

Lemma Evict_spec k n r :
  invariant k n r →
  match Evict r with
  | (None, r') =>
      r' = r ∧ ∀ f nd, node_store_ r !! f = Some nd → is_evictable_ nd = false
  | (Some f, r') =>
      (∃ nd, node_store_ r !! f = Some nd ∧ is_evictable_ nd = true ∧
         ∀ g m, g ≠ f → node_store_ r !! g = Some m → is_evictable_ m = true →
                evicted_before k nd m) ∧
      r' = mkReplacer (delete f (node_store_ r)) (current_timestamp_ r)
                      (to_size_t (curr_size_ r - 1)) (replacer_size_ r) (k_ r)
                      (list_remove f (less_k_frames_ r)) (list_remove f (k_frames_ r))
  end.
Proof.
  intros Hinv.
  pose proof (inv_nodup _ _ _ Hinv) as Hnd.
  apply NoDup_app in Hnd as (Hnd1 & Hdisj & Hnd2).
  assert (∀ x, x ∈ less_k_frames_ r → is_Some (node_store_ r !! x) ∧ x ≠ -1) as Htr1.
  { intros x Hx. destruct (inv_less _ _ _ Hinv x Hx) as (nd & Hx' & _).
    split; [eauto|]. by eapply tracked_not_minus_one. }
  assert (∀ x, x ∈ k_frames_ r → is_Some (node_store_ r !! x) ∧ x ≠ -1) as Htr2.
  { intros x Hx. destruct (inv_full _ _ _ Hinv x Hx) as (nd & Hx' & _).
    split; [eauto|]. by eapply tracked_not_minus_one. }
  destruct (scan_sorted _ _ Hnd1 (inv_less_sorted _ _ _ Hinv) Htr1)
    as (f1 & l1' & Hscan1 & Hcase1).
  destruct (scan_sorted _ _ Hnd2 (inv_full_sorted _ _ _ Hinv) Htr2)
    as (f2 & l2' & Hscan2 & Hcase2).
  (* how a tracked frame sits in the lists *)
  assert (∀ g m, node_store_ r !! g = Some m →
            if fewer_than_k k m then g ∈ less_k_frames_ r else g ∈ k_frames_ r) as Hwhere.
  { intros g m Hg. by destruct (inv_node _ _ _ Hinv g m Hg) as (_ & _ & _ & _ & ?). }
  assert (∀ g, g ∈ less_k_frames_ r → ∀ m, node_store_ r !! g = Some m →
            fewer_than_k k m = true) as Hless.
  { intros g Hg m Hm. destruct (inv_less _ _ _ Hinv g Hg) as (m' & Hm' & ?). congruence. }
  assert (∀ g, g ∈ k_frames_ r → ∀ m, node_store_ r !! g = Some m →
            fewer_than_k k m = false) as Hfull.
  { intros g Hg m Hm. destruct (inv_full _ _ _ Hinv g Hg) as (m' & Hm' & ?). congruence. }
  unfold Evict.
  destruct r as [store now cs size k' less kf]. cbn [node_store_ current_timestamp_
    curr_size_ replacer_size_ k_ less_k_frames_ k_frames_] in *.
  destruct Hcase1 as [(-> & -> & Hnone1)|(Hf1 & Hin1 & -> & (nd1 & Hnd1' & Hev1) & Hord1)].
  - (* no evictable frame with fewer than k accesses *)
    assert ((if negb (is_empty less)
             then let '(f, l, st) := get_evictable_from_list store less in
                  (f, set_less_k_frames (λ _, l)
                        (set_node_store (λ _, st)
                           (mkReplacer store now cs size k' less kf)))
             else (-1, mkReplacer store now cs size k' less kf))
            = (-1, mkReplacer store now cs size k' less kf)) as Hfirst.
    { destruct less; [done|]. simpl negb. cbv iota. by rewrite Hscan1. }
    destruct Hcase2 as [(-> & -> & Hnone2)|(Hf2 & Hin2 & -> & (nd2 & Hnd2' & Hev2) & Hord2)].
    + (* nor one with k accesses *)
      assert (∀ f nd, store !! f = Some nd → is_evictable_ nd = false) as Hnone.
      { intros f nd Hf. specialize (Hwhere f nd Hf).
        destruct (fewer_than_k k nd); eauto. }
      destruct (is_empty kf && is_empty less) eqn:E; [done|].
      rewrite Hfirst. cbn [node_store_ k_frames_]. simpl (-1 =? -1).
      destruct kf as [|x kf]; simpl in *.
      * done.
      * rewrite Hscan2. simpl. done.
    + destruct kf as [|x kf]; [by apply elem_of_nil in Hin2|].
      simpl (is_empty (x :: kf) && _). cbv iota.
      rewrite Hfirst. cbn [node_store_ k_frames_]. simpl (-1 =? -1).
      simpl negb. simpl andb. cbv iota. rewrite Hscan2.
      cbn beta iota. destruct (f2 =? -1) eqn:E; [lia|].
      split.
      * exists nd2. split; [done|]. split; [done|].
        intros g m Hne Hg Hgev. specialize (Hwhere g m Hg).
        destruct (fewer_than_k k m) eqn:Hk.
        { specialize (Hnone1 g m Hwhere Hg). congruence. }
        right. split; [by rewrite (Hfull _ Hin2 _ Hnd2')|].
        specialize (Hord2 g m Hwhere Hne Hg Hgev).
        unfold last_of in Hord2. by rewrite Hnd2', Hg in Hord2.
      * unfold set_curr_size, set_node_store, set_k_frames; simpl.
        rewrite (list_remove_notin f2 less); [done|].
        intros Hin. by apply (Hdisj f2 Hin).
  - (* an evictable frame with fewer than k accesses *)
    destruct less as [|x less]; [by apply elem_of_nil in Hin1|].
    rewrite andb_false_r. simpl negb. cbv iota. rewrite Hscan1. cbn beta iota.
    destruct (f1 =? -1) eqn:E; [lia|]. simpl andb. cbv iota. rewrite E.
    split.
    + exists nd1. split; [done|]. split; [done|].
      intros g m Hne Hg Hgev. specialize (Hwhere g m Hg).
      pose proof (Hless _ Hin1 _ Hnd1') as Hk1.
      destruct (fewer_than_k k m) eqn:Hk.
      * right. split; [congruence|].
        specialize (Hord1 g m Hwhere Hne Hg Hgev).
        unfold last_of in Hord1. by rewrite Hnd1', Hg in Hord1.
      * left. done.
    + unfold set_curr_size, set_node_store, set_less_k_frames; simpl.
      rewrite (list_remove_notin f1 kf); [done|]. by apply Hdisj.
Qed.

(** ** The invariant is kept by every call *)

Lemma invariant_mono k n n' r : n ≤ n' → invariant k n r → invariant k n' r.
Proof.
  intros Hle [H1 H2 H3 H4 H5 H6 H7 H8 H9]. constructor; try done. lia.
Qed.

Lemma invariant_init num_frames k :
  0 ≤ num_frames < 2 ^ 64 → invariant k 0 (init num_frames k).
Proof.
  intros Hn. constructor; simpl; try done.
  - constructor.
  - intros f Hf. by apply elem_of_nil in Hf.
  - intros f Hf. by apply elem_of_nil in Hf.
  - constructor.
  - constructor.
Qed.

(** Dropping a frame from the store and from both lists, as [Evict] and
    [Remove] do. *)
Lemma invariant_delete k n r f cs :
  invariant k n r →
  invariant k n
    (mkReplacer (delete f (node_store_ r)) (current_timestamp_ r) cs
                (replacer_size_ r) (k_ r)
                (list_remove f (less_k_frames_ r)) (list_remove f (k_frames_ r))).
Proof.
  intros [H1 H2 H3 H4 H5 H6 H7 H8 H9]. constructor; simpl; try done.
  - rewrite <- list_remove_app. by apply NoDup_filter.
  - intros g nd [Hne Hg]%lookup_delete_Some.
    destruct (H5 g nd Hg) as (? & ? & ? & ? & Hin). repeat split; try done.
    destruct (fewer_than_k k nd); apply elem_of_list_remove; done.
  - intros g [Hne Hg]%elem_of_list_remove.
    destruct (H6 g Hg) as (nd & ? & ?). exists nd. by rewrite lookup_delete_ne.
  - intros g [Hne Hg]%elem_of_list_remove.
    destruct (H7 g Hg) as (nd & ? & ?). exists nd. by rewrite lookup_delete_ne.
  - eapply lru_sorted_ext; [|eapply lru_sorted_sublist; [apply list_remove_sublist|done]].
    intros x [Hne _]%elem_of_list_remove. by apply last_of_delete_ne.
  - eapply lru_sorted_ext; [|eapply lru_sorted_sublist; [apply list_remove_sublist|done]].
    intros x [Hne _]%elem_of_list_remove. by apply last_of_delete_ne.
Qed.

(** Changing the flag of a tracked frame, as [SetEvictable] does. *)
Lemma invariant_flag k n r f nd flag :
  invariant k n r → node_store_ r !! f = Some nd →
  invariant k n (set_node_store (<[f := mkNode (history_ nd) flag]>) r).
Proof.
  intros [H1 H2 H3 H4 H5 H6 H7 H8 H9] Hf.
  assert (∀ x, last_of (<[f := mkNode (history_ nd) flag]> (node_store_ r)) x
               = last_of (node_store_ r) x) as Hlast.
  { intros x. rewrite last_of_insert. case_decide as Hx; [|done].
    subst x. unfold last_of. by rewrite Hf. }
  constructor; simpl; try done.
  - intros g m. rewrite lookup_insert. case_decide as Hg.
    + subst g. intros [= <-]. apply (H5 f nd Hf).
    + apply H5.
  - intros g Hg. destruct (H6 g Hg) as (m & Hm & Hk).
    rewrite lookup_insert. case_decide as Hfg; [|eauto].
    subst g. exists (mkNode (history_ nd) flag). split; [done|].
    assert (m = nd) as -> by congruence. done.
  - intros g Hg. destruct (H7 g Hg) as (m & Hm & Hk).
    rewrite lookup_insert. case_decide as Hfg; [|eauto].
    subst g. exists (mkNode (history_ nd) flag). split; [done|].
    assert (m = nd) as -> by congruence. done.
  - eapply lru_sorted_ext; [|done]. auto.
  - eapply lru_sorted_ext; [|done]. auto.
Qed.

(** The history after one more access. *)
Lemma push_history_spec k ts nd :
  0 < k → Z.of_nat (length (history_ nd)) ≤ k →
  history_ (push_history k ts nd) ≠ [] ∧
  Z.of_nat (length (history_ (push_history k ts nd))) ≤ k ∧
  last_access (push_history k ts nd) = ts ∧
  is_evictable_ (push_history k ts nd) = is_evictable_ nd.
Proof.
  intros Hk Hlen. unfold push_history, last_access. cbn [history_ is_evictable_].
  rewrite length_app. cbn [length].
  destruct (Z.of_nat (length (history_ nd) + 1) >? k) eqn:E;
    rewrite Z.gtb_ltb in E; [apply Z.ltb_lt in E|apply Z.ltb_ge in E].
  - destruct (history_ nd) as [|t h] eqn:Hh; [simpl in E; lia|].
    cbn [app tail]. repeat split.
    + by destruct h.
    + rewrite length_app. simpl in *. lia.
    + apply last_last.
  - repeat split.
    + by destruct (history_ nd).
    + rewrite length_app. simpl. lia.
    + apply last_last.
Qed.

(** Moving a frame to the back of the list of its kind with a fresh
    timestamp, as [RecordAccess] does. *)
Lemma invariant_access k n r f nd' cs :
  invariant k n r →
  to_size_t f < replacer_size_ r →
  history_ nd' ≠ [] → Z.of_nat (length (history_ nd')) ≤ k →
  last_access nd' = current_timestamp_ r + 1 →
  invariant k (n + 1)
    (mkReplacer (<[f := nd']> (node_store_ r)) (current_timestamp_ r + 1) cs
       (replacer_size_ r) (k_ r)
       (list_remove f (less_k_frames_ r) ++ (if fewer_than_k k nd' then [f] else []))
       (list_remove f (k_frames_ r) ++ (if fewer_than_k k nd' then [] else [f]))).
Proof.
  intros [H1 H2 H3 H4 H5 H6 H7 H8 H9] Hsz Hne Hlen Hlast.
  assert (NoDup (list_remove f (less_k_frames_ r) ++ list_remove f (k_frames_ r))) as Hnd
    by (rewrite <- list_remove_app; by apply NoDup_filter).
  apply NoDup_app in Hnd as (Hnd1 & Hdisj & Hnd2).
  assert (∀ x, x ∈ list_remove f (less_k_frames_ r) ∨ x ∈ list_remove f (k_frames_ r) →
            x ≠ f ∧ last_of (<[f := nd']> (node_store_ r)) x = last_of (node_store_ r) x ∧
            last_of (node_store_ r) x < last_of (<[f := nd']> (node_store_ r)) f) as Hold.
  { intros x Hx.
    assert (x ≠ f ∧ ∃ m, node_store_ r !! x = Some m) as [Hxf [m Hm]].
    { destruct Hx as [[? Hx]%elem_of_list_remove|[? Hx]%elem_of_list_remove].
      - destruct (H6 x Hx) as (m & ? & _); eauto.
      - destruct (H7 x Hx) as (m & ? & _); eauto. }
    split; [done|]. rewrite !last_of_insert.
    rewrite decide_False by done. rewrite decide_True by done. split; [done|].
    unfold last_of. rewrite Hm. simpl.
    destruct (H5 x m Hm) as (_ & _ & _ & ? & _). lia. }
  assert (∀ l, (∀ x, x ∈ list_remove f l → x ∈ list_remove f (less_k_frames_ r) ∨
                                              x ∈ list_remove f (k_frames_ r)) →
               lru_sorted (node_store_ r) l →
               ∀ b : bool, lru_sorted (<[f := nd']> (node_store_ r))
                             (list_remove f l ++ (if b then [f] else []))) as Hsorted.
  { intros l Hl Hs b.
    assert (lru_sorted (<[f := nd']> (node_store_ r)) (list_remove f l)) as Hs'.
    { eapply lru_sorted_ext; [|eapply lru_sorted_sublist; [apply list_remove_sublist|done]].
      intros x Hx. by destruct (Hold x (Hl x Hx)) as (_ & ? & _). }
    destruct b; [|by rewrite app_nil_r].
    apply lru_sorted_snoc; [done|]. intros x Hx.
    destruct (Hold x (Hl x Hx)) as (_ & -> & ?). done. }
  constructor; simpl; try done.
  - lia.
  - destruct (fewer_than_k k nd'); rewrite ?app_nil_r.
    + rewrite <- app_assoc. apply NoDup_app. split; [done|]. split.
      * intros x Hx [->%list_elem_of_singleton|Hx']%elem_of_app.
        -- by apply elem_of_list_remove in Hx as [? _].
        -- by apply (Hdisj x).
      * apply NoDup_cons. split; [|done].
        by intros [? _]%elem_of_list_remove.
    + rewrite app_assoc. apply NoDup_app. split; [|split; [|apply NoDup_singleton]].
      * by apply NoDup_app.
      * intros x Hx ->%list_elem_of_singleton.
        apply elem_of_app in Hx as [[? _]%elem_of_list_remove|[? _]%elem_of_list_remove];
          done.
  - intros g m. rewrite lookup_insert. case_decide as Hg.
    + subst g. intros [= <-]. repeat split; try done; [lia|].
      destruct (fewer_than_k k nd'); apply elem_of_app; right; by left.
    + intros Hm. destruct (H5 g m Hm) as (? & ? & ? & ? & Hin).
      repeat split; try done; [lia|].
      destruct (fewer_than_k k m); apply elem_of_app; left;
        by apply elem_of_list_remove.
  - intros g [[Hne' Hg]%elem_of_list_remove|Hg]%elem_of_app.
    + destruct (H6 g Hg) as (m & ? & ?). exists m. by rewrite lookup_insert_ne.
    + destruct (fewer_than_k k nd') eqn:E; [|by apply elem_of_nil in Hg].
      apply list_elem_of_singleton in Hg as ->. exists nd'. by rewrite lookup_insert_eq.
  - intros g [[Hne' Hg]%elem_of_list_remove|Hg]%elem_of_app.
    + destruct (H7 g Hg) as (m & ? & ?). exists m. by rewrite lookup_insert_ne.
    + destruct (fewer_than_k k nd') eqn:E; [by apply elem_of_nil in Hg|].
      apply list_elem_of_singleton in Hg as ->. exists nd'. by rewrite lookup_insert_eq.
  - apply Hsorted; auto.
  - specialize (Hsorted (k_frames_ r) ltac:(auto) H9 (negb (fewer_than_k k nd'))).
    by destruct (fewer_than_k k nd').
Qed.

Lemma push_history_young k ts nd :
  Z.of_nat (length (history_ (push_history k ts nd))) < k →
  Z.of_nat (length (history_ nd)) < k.
Proof.
  unfold push_history. cbn [history_].
  destruct (_ >? k) eqn:E; rewrite Z.gtb_ltb in E;
    [apply Z.ltb_lt in E|apply Z.ltb_ge in E]; rewrite length_app in *; simpl in *.
  - destruct (history_ nd); simpl; [lia|]. rewrite length_app. simpl. lia.
  - lia.
Qed.

(** [RecordAccess] of a frame in range: the node gets the next timestamp
    and the frame goes to the back of the list of its kind. *)
Lemma RecordAccess_spec k n r f :
  invariant k n r → 0 < k →
  to_size_t f < replacer_size_ r → current_timestamp_ r + 1 < 2 ^ 64 →
  let nd' := push_history k (current_timestamp_ r + 1)
               (default new_node (node_store_ r !! f)) in
  RecordAccess f r =
    (Return tt,
     mkReplacer (<[f := nd']> (node_store_ r)) (current_timestamp_ r + 1) (curr_size_ r)
       (replacer_size_ r) (k_ r)
       (list_remove f (less_k_frames_ r) ++ (if fewer_than_k k nd' then [f] else []))
       (list_remove f (k_frames_ r) ++ (if fewer_than_k k nd' then [] else [f]))).
Proof.
  intros Hinv Hk Hsz Hts. cbv zeta.
  pose proof (inv_nodup _ _ _ Hinv) as Hnd.
  apply NoDup_app in Hnd as (Hnd1 & Hdisj & Hnd2).
  assert (to_size_t (current_timestamp_ r + 1) = current_timestamp_ r + 1) as Hnow.
  { unfold to_size_t. apply Z.mod_small. pose proof (inv_now _ _ _ Hinv). lia. }
  unfold RecordAccess.
  destruct (to_size_t f >=? replacer_size_ r) eqn:E.
  { rewrite Z.geb_leb in E. apply Z.leb_le in E. lia. }
  rewrite Hnow. pose proof (inv_k _ _ _ Hinv) as Hkr.
  destruct r as [store now cs size k' less kf].
  cbn [node_store_ current_timestamp_ curr_size_ replacer_size_ k_ less_k_frames_
       k_frames_ set_current_timestamp set_less_k_frames set_node_store set_k_frames] in *.
  subst k'.
  destruct (store !! f) as [nd|] eqn:Hf; cbn [default from_option id].
  - (* a tracked frame *)
    cbn [node_store_ current_timestamp_ curr_size_ replacer_size_ k_ less_k_frames_
         k_frames_ set_current_timestamp set_less_k_frames set_node_store set_k_frames].
    rewrite (index_store_tracked _ _ _ Hf).
    destruct (inv_node _ _ _ Hinv f nd Hf) as (_ & _ & Hlen & _ & Hin).
    cbn [less_k_frames_ k_frames_] in Hin.
    destruct (push_history_spec k (now + 1) nd Hk Hlen) as (_ & Hlen' & _ & _).
    set (nd' := push_history k (now + 1) nd) in *.
    cbn [node_store_ current_timestamp_ curr_size_ replacer_size_ k_ less_k_frames_
         k_frames_ set_current_timestamp set_less_k_frames set_node_store set_k_frames].
    unfold fewer_than_k in *.
    destruct (Z.of_nat (length (history_ nd')) <? k) eqn:Hyoung.
    + (* still fewer than k accesses: it was in the first list *)
      assert ((Z.of_nat (length (history_ nd)) <? k) = true) as Hwas.
      { apply Z.ltb_lt. apply Z.ltb_lt in Hyoung. by eapply push_history_young. }
      rewrite Hwas in Hin.
      rewrite (list_remove_notin f kf) by (by apply Hdisj).
      by rewrite app_nil_r.
    + apply Z.ltb_ge in Hyoung.
      replace (Z.of_nat (length (history_ nd'))) with k by lia. rewrite Z.eqb_refl.
      unfold elem_ofb. destruct (bool_decide (f ∈ kf)) eqn:Hkf.
      * apply bool_decide_eq_true in Hkf. simpl negb. cbv iota.
        cbn [node_store_ current_timestamp_ curr_size_ replacer_size_ k_ less_k_frames_
         k_frames_ set_current_timestamp set_less_k_frames set_node_store set_k_frames].
        rewrite (list_remove_notin f less); [by rewrite app_nil_r|].
        intros Hl. by apply (Hdisj f Hl).
      * apply bool_decide_eq_false in Hkf. simpl negb. cbv iota.
        cbn [node_store_ current_timestamp_ curr_size_ replacer_size_ k_ less_k_frames_
         k_frames_ set_current_timestamp set_less_k_frames set_node_store set_k_frames].
        rewrite (list_remove_notin f kf) by done. by rewrite app_nil_r.
  - (* a frame not tracked so far *)
    assert (f ∉ less) as Hl.
    { intros Hl. destruct (inv_less _ _ _ Hinv f Hl) as (? & ? & _). simpl in *. congruence. }
    assert (f ∉ kf) as Hkf.
    { intros Hl'. destruct (inv_full _ _ _ Hinv f Hl') as (? & ? & _). simpl in *. congruence. }
    cbn [node_store_ current_timestamp_ curr_size_ replacer_size_ k_ less_k_frames_
         k_frames_ set_current_timestamp set_less_k_frames set_node_store set_k_frames].
    unfold index_store. rewrite lookup_insert_eq.
    destruct (push_history_spec k (now + 1) new_node Hk ltac:(simpl; lia))
      as (_ & Hlen' & _ & _).
    set (nd' := push_history k (now + 1) new_node) in *.
    assert (list_remove f (less ++ [f]) = less) as Hrm.
    { rewrite list_remove_app, (list_remove_notin f less) by done.
      unfold list_remove. rewrite filter_cons_False by (intros H; by apply H).
      apply app_nil_r. }
    unfold fewer_than_k in *.
    destruct (Z.of_nat (length (history_ nd')) <? k) eqn:Hyoung.
    + unfold set_less_k_frames, set_node_store, set_k_frames, set_current_timestamp.
      cbn [node_store_ current_timestamp_ curr_size_ replacer_size_ k_ less_k_frames_
           k_frames_].
      by rewrite insert_insert_eq, Hrm, !list_remove_notin, app_nil_r by done.
    + apply Z.ltb_ge in Hyoung.
      replace (Z.of_nat (length (history_ nd'))) with k by lia. rewrite Z.eqb_refl.
      unfold set_less_k_frames, set_node_store, set_k_frames, set_current_timestamp.
      cbn [node_store_ current_timestamp_ curr_size_ replacer_size_ k_ less_k_frames_
           k_frames_].
      unfold elem_ofb. rewrite bool_decide_eq_false_2 by done. simpl negb. cbv iota.
      cbn [node_store_ current_timestamp_ curr_size_ replacer_size_ k_ less_k_frames_
           k_frames_].
      by rewrite insert_insert_eq, Hrm, !list_remove_notin, app_nil_r by done.
Qed.

Lemma step_invariant k n r o :
  0 < k → n + 1 < 2 ^ 64 → invariant k n r → invariant k (n + 1) (step r o).
Proof.
  intros Hk Hn Hinv. pose proof (inv_now _ _ _ Hinv) as Hnow.
  destruct o as [f|f flag|f|]; simpl.
  - (* RecordAccess *)
    destruct (decide (to_size_t f < replacer_size_ r)) as [Hlt|Hge].
    + rewrite (RecordAccess_spec k n r f Hinv Hk Hlt) by lia. cbn [snd].
      assert (Z.of_nat (length (history_ (default new_node (node_store_ r !! f)))) ≤ k)
        as Hlen.
      { destruct (node_store_ r !! f) as [nd|] eqn:Hf; simpl; [|lia].
        by destruct (inv_node _ _ _ Hinv f nd Hf) as (_ & _ & ? & _). }
      destruct (push_history_spec k (current_timestamp_ r + 1) _ Hk Hlen)
        as (Hne & Hlen' & Hlast & _).
      by apply invariant_access.
    + unfold RecordAccess.
      destruct (to_size_t f >=? replacer_size_ r) eqn:E.
      * simpl. eapply invariant_mono; [|done]. lia.
      * rewrite Z.geb_leb in E. apply Z.leb_gt in E. lia.
  - (* SetEvictable *)
    unfold SetEvictable. apply (invariant_mono k n); [lia|].
    destruct (to_size_t f >=? replacer_size_ r); [done|].
    destruct (node_store_ r !! f) as [nd|] eqn:Hf; [|done].
    by apply invariant_flag.
  - (* Remove *)
    unfold Remove. apply (invariant_mono k n); [lia|].
    destruct (to_size_t f >=? replacer_size_ r); [done|].
    destruct (node_store_ r !! f) as [nd|] eqn:Hf; cbn [snd].
    + apply (invariant_delete k n r f (to_size_t (curr_size_ r - 1)) Hinv).
    + pose proof (invariant_delete k n r f (curr_size_ r) Hinv) as H.
      rewrite delete_id in H by done. by destruct r.
  - (* Evict *)
    apply (invariant_mono k n); [lia|].
    pose proof (Evict_spec k n r Hinv) as H.
    destruct (Evict r) as [[f|] r']; cbn [snd].
    + destruct H as [_ ->]. by apply invariant_delete.
    + by destruct H as [-> _].
Qed.

Lemma run_invariant k ops : ∀ n r,
  0 < k → n + Z.of_nat (length ops) < 2 ^ 64 →
  invariant k n r → invariant k (n + Z.of_nat (length ops)) (run ops r).
Proof.
  induction ops as [|o ops IH]; intros n r Hk Hn Hinv; cbn [length run foldl] in *.
  - by rewrite Z.add_0_r.
  - replace (n + Z.of_nat (S (length ops)))
      with ((n + 1) + Z.of_nat (length ops)) in * by lia.
    apply IH; [done|done|]. apply step_invariant; [done|lia|done].
Qed.

(** ** The policy of [Evict] *)

(** C2, as the lists implement it: in every state reached from a new
    replacer (K at least 1) by fewer than 2^64 calls, [Evict] returns none
    exactly when no tracked frame is evictable, and then changes nothing;
    otherwise it returns an evictable tracked frame that goes before every
    other evictable tracked frame -- a frame with fewer than K accesses
    before one with K, and among frames of the same kind the one whose last
    access is the oldest -- and it removes that frame's node and list
    entry. *)
Theorem Evict_policy (num_frames k : Z) (ops : list op) :
  0 ≤ num_frames < 2 ^ 64 → 0 < k → Z.of_nat (length ops) < 2 ^ 64 →
  let r := run ops (init num_frames k) in
  match Evict r with
  | (None, r') =>
      r' = r ∧ ∀ f nd, node_store_ r !! f = Some nd → is_evictable_ nd = false
  | (Some f, r') =>
      (∃ nd, node_store_ r !! f = Some nd ∧ is_evictable_ nd = true ∧
         ∀ g m, g ≠ f → node_store_ r !! g = Some m → is_evictable_ m = true →
                evicted_before k nd m) ∧
      node_store_ r' = delete f (node_store_ r) ∧
      (f ∉ less_k_frames_ r') ∧ (f ∉ k_frames_ r')
  end.
Proof.
  intros Hsize Hk Hlen r.
  assert (invariant k (0 + Z.of_nat (length ops)) r) as Hinv.
  { apply run_invariant; [done|lia|]. by apply invariant_init. }
  pose proof (Evict_spec _ _ _ Hinv) as H.
  destruct (Evict r) as [[f|] r']; [|done].
  destruct H as [Hf ->]. split; [done|]. simpl.
  split; [done|]. split; by intros [? _]%elem_of_list_remove.
Qed.

Lemma Evict_policy_witness :
  0 ≤ 7 < 2 ^ 64 ∧ 0 < 2 ∧ Z.of_nat (length two_frames_k2_ops) < 2 ^ 64 ∧
  let r := run two_frames_k2_ops (init 7 2) in
  match Evict r with
  | (None, r') =>
      r' = r ∧ ∀ f nd, node_store_ r !! f = Some nd → is_evictable_ nd = false
  | (Some f, r') =>
      (∃ nd, node_store_ r !! f = Some nd ∧ is_evictable_ nd = true ∧
         ∀ g m, g ≠ f → node_store_ r !! g = Some m → is_evictable_ m = true →
                evicted_before 2 nd m) ∧
      node_store_ r' = delete f (node_store_ r) ∧
      (f ∉ less_k_frames_ r') ∧ (f ∉ k_frames_ r')
  end.
Proof.
  assert (0 ≤ 7 < 2 ^ 64) as H1 by (split; [discriminate|reflexivity]).
  assert (0 < 2) as H2 by reflexivity.
  assert (Z.of_nat (length two_frames_k2_ops) < 2 ^ 64) as H3 by reflexivity.
  split; [exact H1|]. split; [exact H2|]. split; [exact H3|].
  exact (Evict_policy 7 2 two_frames_k2_ops H1 H2 H3).
Defined.

(** C2 with the backward K-distance and the first-access tie-break fails.
    With K = 2, frame 1 accessed at times 1 and 4 and
    frame 2 at times 2 and 3, both evictable, the backward K-distances at
    time 4 are 3 and 2, and [Evict] returns frame 2, not the frame of
    largest distance.  With K = 3, frame 1 accessed at times 1 and 3 and
    frame 2 at time 2, both have distance +infinity and [Evict] returns
    frame 2, whose first access is the later one. *)
Lemma Evict_is_not_largest_k_distance :
  ((Evict two_frames_k2).1 = Some 2 ∧
   ∃ n1 n2,
     node_store_ two_frames_k2 !! 1 = Some n1 ∧ is_evictable_ n1 = true ∧
     node_store_ two_frames_k2 !! 2 = Some n2 ∧ is_evictable_ n2 = true ∧
     backward_k_distance (current_timestamp_ two_frames_k2) 2 n1 = Some 3 ∧
     backward_k_distance (current_timestamp_ two_frames_k2) 2 n2 = Some 2) ∧
  ((Evict two_frames_k3).1 = Some 2 ∧
   ∃ n1 n2,
     node_store_ two_frames_k3 !! 1 = Some n1 ∧ is_evictable_ n1 = true ∧
     node_store_ two_frames_k3 !! 2 = Some n2 ∧ is_evictable_ n2 = true ∧
     backward_k_distance (current_timestamp_ two_frames_k3) 3 n1 = None ∧
     backward_k_distance (current_timestamp_ two_frames_k3) 3 n2 = None ∧
     first_access n1 = Some 1 ∧ first_access n2 = Some 2).
Proof.
  split; (split; [vm_compute; reflexivity|]).
  - exists (mkNode [1; 4] true), (mkNode [2; 3] true).
    repeat split; vm_compute; reflexivity.
  - exists (mkNode [1; 3] true), (mkNode [2] true).
    repeat split; vm_compute; reflexivity.
Qed.

(** Scenario 1 of the specification: after accesses to frames 1 to 6,
    all evictable, [Evict] returns 1, 2, 3; after second accesses to 3, 4, 5
    and 6 it returns 4. *)
Example replacer_scenario1 :
  let r1 := Evict scenario1_a in
  let r2 := Evict r1.2 in
  let r3 := Evict r2.2 in
  let r4 := run [OpRecordAccess 3; OpRecordAccess 4; OpRecordAccess 5; OpRecordAccess 6]
                r3.2 in
  r1.1 = Some 1 ∧ r2.1 = Some 2 ∧ r3.1 = Some 3 ∧ (Evict r4).1 = Some 4.
Proof. repeat split; vm_compute; reflexivity. Qed.

End ReplacerFacts.
(** * More properties of the trie *)

Module TrieMoreFacts.
Import Trie TrieRemove.

Lemma no_children_empty (c : gmap ascii TrieNode) : no_children c = true ↔ c = ∅.
Proof.
  unfold no_children. rewrite Nat.eqb_eq. apply map_size_empty_iff.
Qed.

Lemma Get_result_same_kind T n c :
  Get_result T (Some (Some (set_children n c))) = Get_result T (Some (Some n)).
Proof. by destruct n. Qed.

Lemma Get_loop_children n1 n2 c rest :
  children_ n1 = children_ n2 →
  Get_loop (Some n1) (String c rest) = Get_loop (Some n2) (String c rest).
Proof. intros H. simpl. by rewrite H. Qed.

Lemma children_of_set_children n c : children_ (set_children n c) = c.
Proof. by destruct n. Qed.

(** After [RemoveHelper] the key itself is not found below the node. *)
Lemma RemoveHelper_same T key : ∀ node,
  subtree_get T (RemoveHelper node key) key = Ok None.
Proof.
  induction key as [|c rest IH]; intros node; simpl.
  - by destruct (no_children (children_ node)).
  - destruct (children_ node !! c) as [found|] eqn:Hc.
    + unfold Clone. specialize (IH found).
      destruct (RemoveHelper found rest) as [child|].
      * simpl. rewrite children_of_set_children, lookup_insert_eq. exact IH.
      * destruct (_ && _); [done|]. simpl.
        by rewrite children_of_set_children, lookup_delete_eq.
    + simpl. by rewrite Hc.
Qed.

(** A node [RemoveHelper] deletes on a key of at least one character holds
    no value. *)
Lemma RemoveHelper_deleted_plain node c rest :
  RemoveHelper node (String c rest) = None → is_value_node_ node = false.
Proof.
  simpl. destruct (children_ node !! c); [|done].
  destruct (RemoveHelper _ rest); [done|].
  destruct (no_children _); [|done]. simpl.
  destruct (is_value_node_ node); done.
Qed.

(** [RemoveHelper] leaves what every other key finds below the node. *)
Lemma RemoveHelper_other T key : ∀ node key',
  key' ≠ key →
  subtree_get T (RemoveHelper node key) key' = Get_result T (Get_loop (Some node) key').
Proof.
  induction key as [|c rest IH]; intros node key' Hne.
  - destruct key' as [|d rest']; [done|]. simpl.
    destruct (no_children (children_ node)) eqn:E; [|done].
    apply no_children_empty in E. by rewrite E, lookup_empty.
  - cbn [RemoveHelper].
    destruct (children_ node !! c) as [found|] eqn:Hc; [|done].
    unfold Clone.
    destruct (RemoveHelper found rest) as [child|] eqn:Hr.
    + (* the child is kept *)
      destruct key' as [|d rest']; [apply Get_result_same_kind|].
      cbn [subtree_get Get_loop]. rewrite children_of_set_children.
      destruct (decide (d = c)) as [->|Hd].
      * rewrite lookup_insert_eq, Hc.
        assert (rest' ≠ rest) as Hrest by congruence.
        specialize (IH found rest' Hrest). by rewrite Hr in IH.
      * by rewrite lookup_insert_ne.
    + (* the child is deleted *)
      assert (Get_result T (Get_loop (Some node) key') = Ok None ∨
              key' = EmptyString ∨
              ∃ d rest', key' = String d rest' ∧ d ≠ c) as Hcases.
      { destruct key' as [|d rest']; [by right; left|].
        destruct (decide (d = c)) as [->|Hd]; [left|right; right; eauto].
        simpl. rewrite Hc.
        assert (rest' ≠ rest) as Hrest by congruence.
        specialize (IH found rest' Hrest). by rewrite Hr in IH. }
      destruct (no_children (delete c (children_ node)) && negb (is_value_node_ node))
        eqn:E.
      * apply andb_prop in E as [E1 E2]. apply no_children_empty in E1.
        apply negb_true_iff in E2. cbn [subtree_get].
        destruct Hcases as [->| [->|(d & rest' & -> & Hd)]]; [done| |].
        -- simpl. by destruct node.
        -- simpl. rewrite <- (lookup_delete_ne (children_ node) c d) by done.
           by rewrite E1, lookup_empty.
      * cbn [subtree_get].
        destruct Hcases as [H| [->|(d & rest' & -> & Hd)]].
        -- rewrite H. destruct key' as [|d rest'].
           ++ rewrite <- H. apply Get_result_same_kind.
           ++ cbn [Get_loop]. rewrite children_of_set_children.
              destruct (decide (d = c)) as [->|Hd].
              ** by rewrite lookup_delete_eq.
              ** rewrite lookup_delete_ne by done. rewrite <- H. done.
        -- apply Get_result_same_kind.
        -- cbn [Get_loop]. by rewrite children_of_set_children, lookup_delete_ne.
Qed.

Lemma Get_as_subtree_get T o d rest :
  Get T (mkTrie o) (String d rest) = subtree_get T o (String d rest).
Proof. by destruct o. Qed.

Lemma Remove_same (T : ValueType) (t : Trie) (c : ascii) (rest : string) :
  Get T (Remove t (String c rest)) (String c rest) = Ok None.
Proof.
  unfold Remove. destruct (root_ t) as [r|]; [|done].
  rewrite Get_as_subtree_get. apply RemoveHelper_same.
Qed.

Lemma Remove_other (T : ValueType) (t : Trie) (key : string) (d : ascii) (rest : string) :
  String d rest ≠ key →
  Get T (Remove t key) (String d rest) = Get T t (String d rest).
Proof.
  intros Hne. unfold Remove. destruct t as [[r|]]; [|done]. cbn [root_].
  rewrite Get_as_subtree_get. unfold Clone. by apply RemoveHelper_other.
Qed.

Lemma Put_other (T : ValueType) (t : Trie) (r : TrieNode) (key key' : string) (v : Value) :
  root_ t = Some r → key' ≠ key →
  ∃ t', Put t key v = Ok t' ∧ Get T t' key' = Get T t key'.
Proof.
  intros Hr Hne. unfold Put. rewrite Hr. destruct key as [|c rest].
  - eexists; split; [done|]. unfold Get. cbn [root_]. rewrite Hr.
    destruct key' as [|d rest']; [done|]. reflexivity.
  - eexists; split; [done|]. unfold Get. cbn [root_]. rewrite Hr.
    unfold Clone. by apply TrieFacts.Get_loop_Put_walk_other.
Qed.

(** X3: After [Remove] of a key of at least one character, [Get] of that key
    answers not-found, whatever the trie held. *)
Theorem Get_after_Remove (T : ValueType) (t : Trie) (c : ascii) (rest : string) :
  Get T (Remove t (String c rest)) (String c rest) = Ok None.
Proof. apply Remove_same. Qed.

(** X4: [Remove] of one key leaves what [Get] answers for every other key of at
    least one character. *)
Theorem Get_after_Remove_other (T : ValueType) (t : Trie) (key : string)
    (d : ascii) (rest : string) :
  String d rest ≠ key →
  Get T (Remove t key) (String d rest) = Get T t (String d rest).
Proof. apply Remove_other. Qed.

Lemma Get_after_Remove_other_witness :
  "ab"%string ≠ "ac"%string ∧
  Get TUint32
    (Remove (mkTrie (Some (Put_walk (Put_walk (PlainNode ∅) "a" "b" (VUint32 1))
                             "a" "c" (VUint32 2)))) "ac") "ab"
  = Ok (Some (VUint32 1)).
Proof.
  split; [discriminate|].
  rewrite (Get_after_Remove_other TUint32 _ "ac" "a" "b"); [|discriminate].
  vm_compute. reflexivity.
Defined.

(** X1: What [Get] answers for the key just put: the value when the type asked
    for is the type put, not-found for any other type. *)
Theorem Get_after_Put (T : ValueType) (t t' : Trie) (key : string) (v : Value) :
  Put t key v = Ok t' →
  Get T t' key = if decide (type_of v = T) then Ok (Some v) else Ok None.
Proof.
  intros Hput. destruct key as [|c rest].
  - unfold Put in Hput. destruct (root_ t) as [r|]; [|done].
    injection Hput as <-. reflexivity.
  - unfold Put in Hput. injection Hput as <-. unfold Get. cbn [root_].
    destruct (TrieFacts.Get_loop_Put_walk rest
                (match root_ t with Some r => Clone r | None => PlainNode ∅ end) c v)
      as [ch ->].
    reflexivity.
Qed.

Lemma Get_after_Put_witness :
  Put empty_trie "ab" (VString "x") = Ok (mkTrie (Some (Put_walk (PlainNode ∅) "a" "b" (VString "x")))) ∧
  Get TUint64 (mkTrie (Some (Put_walk (PlainNode ∅) "a" "b" (VString "x")))) "ab" = Ok None ∧
  Get TString (mkTrie (Some (Put_walk (PlainNode ∅) "a" "b" (VString "x")))) "ab"
    = Ok (Some (VString "x")).
Proof.
  assert (Put empty_trie "ab" (VString "x")
          = Ok (mkTrie (Some (Put_walk (PlainNode ∅) "a" "b" (VString "x"))))) as H
    by reflexivity.
  split; [exact H|]. split.
  - exact (Get_after_Put TUint64 _ _ _ _ H).
  - exact (Get_after_Put TString _ _ _ _ H).
Defined.

(** X2: [Put] on a trie with a root leaves what [Get] answers for every other
    key. *)
Theorem Get_after_Put_other (T : ValueType) (t : Trie) (r : TrieNode)
    (key key' : string) (v : Value) :
  root_ t = Some r → key' ≠ key →
  ∃ t', Put t key v = Ok t' ∧ Get T t' key' = Get T t key'.
Proof. apply Put_other. Qed.

Lemma Get_after_Put_other_witness :
  root_ (mkTrie (Some (Put_walk (PlainNode ∅) "a" "b" (VUint32 1))))
    = Some (Put_walk (PlainNode ∅) "a" "b" (VUint32 1)) ∧
  "ab"%string ≠ "a"%string ∧
  ∃ t', Put (mkTrie (Some (Put_walk (PlainNode ∅) "a" "b" (VUint32 1)))) "a" (VUint32 2)
        = Ok t' ∧
        Get TUint32 t' "ab"
        = Get TUint32 (mkTrie (Some (Put_walk (PlainNode ∅) "a" "b" (VUint32 1)))) "ab".
Proof.
  split; [reflexivity|]. split; [discriminate|].
  apply (Get_after_Put_other TUint32
           (mkTrie (Some (Put_walk (PlainNode ∅) "a" "b" (VUint32 1))))
           (Put_walk (PlainNode ∅) "a" "b" (VUint32 1)) "a" "ab" (VUint32 2) eq_refl).
  discriminate.
Defined.

Lemma no_children_after_delete (c : ascii) (x : TrieNode) :
  no_children (delete c (<[c := x]> (∅ : gmap ascii TrieNode))) = true.
Proof. apply no_children_empty. by rewrite insert_empty, delete_singleton_eq. Qed.

Lemma RemoveHelper_cons node c rest :
  RemoveHelper node (String c rest) =
    match children_ node !! c with
    | None => Some node
    | Some found =>
        match RemoveHelper (Clone found) rest with
        | None =>
            if no_children (delete c (children_ node)) && negb (is_value_node_ node)
            then None
            else Some (set_children node (delete c (children_ node)))
        | Some child => Some (set_children node (<[c := child]> (children_ node)))
        end
    end.
Proof. reflexivity. Qed.

Lemma RemoveHelper_Put_walk rest : ∀ c v,
  RemoveHelper (Put_walk (PlainNode ∅) c rest v) (String c rest) = None.
Proof.
  induction rest as [|c' rest IH]; intros c v.
  - cbn [Put_walk children_ set_children]. rewrite lookup_empty.
    cbn [RemoveHelper children_]. rewrite lookup_insert_eq.
    unfold Clone. cbn [RemoveHelper children_].
    assert (no_children (∅ : gmap ascii TrieNode) = true) as -> by by apply no_children_empty.
    by rewrite no_children_after_delete.
  - cbn [Put_walk children_ set_children]. rewrite lookup_empty.
    rewrite RemoveHelper_cons. cbn [children_]. rewrite lookup_insert_eq.
    unfold Clone. rewrite IH. by rewrite no_children_after_delete.
Qed.

(** X5: Putting one key of at least one character into the empty trie and
    removing it gives back the empty trie: every node on the path is
    deleted and the root is null again. *)
Theorem Remove_after_Put_on_empty (c : ascii) (rest : string) (v : Value) :
  match Put empty_trie (String c rest) v with
  | Ok t' => Remove t' (String c rest) = empty_trie
  | NullDeref => False
  end.
Proof.
  cbn [Put empty_trie root_]. unfold Remove. cbn [root_]. unfold Clone.
  by rewrite RemoveHelper_Put_walk.
Qed.

(** X6: [Put] then [Remove] of the same key, on a trie with a root: the key is
    gone and every other key of at least one character answers as before
    the [Put]. *)
Theorem Get_after_Put_Remove (T : ValueType) (t t' : Trie) (r : TrieNode)
    (c d : ascii) (rest rest' : string) (v : Value) :
  root_ t = Some r → Put t (String c rest) v = Ok t' →
  Get T (Remove t' (String c rest)) (String d rest')
  = if decide (String d rest' = String c rest) then Ok None
    else Get T t (String d rest').
Proof.
  intros Hr Hput. case_decide as Hk.
  - rewrite Hk. apply Remove_same.
  - rewrite Remove_other by done.
    destruct (Put_other T t r (String c rest) (String d rest') v Hr Hk)
      as (t'' & Hput' & Hget).
    congruence.
Qed.

Lemma Get_after_Put_Remove_witness :
  ∃ t1 t2,
    Put empty_trie "ab" (VUint32 1) = Ok t1 ∧ Put t1 "ac" (VUint32 2) = Ok t2 ∧
    Get TUint32 (Remove t2 "ac") "ab" = Get TUint32 t1 "ab".
Proof.
  exists (mkTrie (Some (Put_walk (PlainNode ∅) "a" "b" (VUint32 1)))).
  eexists. split; [reflexivity|]. split; [reflexivity|].
  exact (Get_after_Put_Remove TUint32
           (mkTrie (Some (Put_walk (PlainNode ∅) "a" "b" (VUint32 1)))) _
           (Put_walk (PlainNode ∅) "a" "b" (VUint32 1))
           "a" "a" "c" "b" (VUint32 2) eq_refl eq_refl).
Defined.

End TrieMoreFacts.
(** * More properties of the replacer *)

Module ReplacerMoreFacts.
Import Replacer ReplacerCount.
#[local] Open Scope Z_scope.

Lemma Size_store_size r : Size r = store_size (node_store_ r).
Proof. reflexivity. Qed.

Lemma store_size_delete store f :
  store_size (delete f store) = store_size store - counted (store !! f).
Proof.
  unfold store_size. rewrite map_filter_delete, map_size_delete.
  destruct (filter _ store !! f) as [y|] eqn:Hy.
  - apply map_lookup_filter_Some in Hy as [Hf Hev]. simpl in Hev.
    rewrite Hf. simpl. rewrite Hev.
    assert (size (filter (λ p, is_evictable_ p.2 = true) store) ≠ 0%nat).
    { apply map_size_non_empty_iff. intros Hem.
      assert (filter (λ p : Z * LRUKNode, is_evictable_ p.2 = true) store !! f = Some y)
        as Hin by (apply map_lookup_filter_Some; done).
      rewrite Hem in Hin. by rewrite lookup_empty in Hin. }
    lia.
  - apply map_lookup_filter_None in Hy. simpl.
    destruct (store !! f) as [nd|] eqn:Hf; simpl; [|lia].
    destruct Hy as [?|Hy]; [done|].
    specialize (Hy nd eq_refl). simpl in Hy.
    destruct (is_evictable_ nd); [done|lia].
Qed.

Lemma store_size_insert store f nd :
  store_size (<[f := nd]> store)
  = store_size store - counted (store !! f) + counted (Some nd).
Proof.
  rewrite <- store_size_delete. unfold store_size at 1.
  rewrite map_filter_insert. simpl. case_decide as Hev.
  - rewrite Hev.
    rewrite <- (insert_delete_eq (filter _ store)), <- map_filter_delete.
    rewrite map_size_insert_None.
    + unfold store_size. lia.
    + apply map_lookup_filter_None. left. apply lookup_delete_eq.
  - destruct (is_evictable_ nd); [done|]. unfold store_size. lia.
Qed.

(** The node store after a [RecordAccess] in range, whatever the lists
    hold. *)
Lemma RecordAccess_in_range r f :
  to_size_t f < replacer_size_ r →
  ∃ r', RecordAccess f r = (Return tt, r') ∧
        node_store_ r' =
          <[f := push_history (k_ r) (to_size_t (current_timestamp_ r + 1))
                   (default new_node (node_store_ r !! f))]> (node_store_ r) ∧
        current_timestamp_ r' = to_size_t (current_timestamp_ r + 1) ∧
        replacer_size_ r' = replacer_size_ r ∧ k_ r' = k_ r ∧
        curr_size_ r' = curr_size_ r.
Proof.
  intros Hlt. unfold RecordAccess.
  destruct (to_size_t f >=? replacer_size_ r) eqn:E.
  { rewrite Z.geb_leb in E. apply Z.leb_le in E. lia. }
  destruct r as [store now cs size k less kf].
  unfold set_current_timestamp, set_less_k_frames, set_node_store, set_k_frames.
  cbn [node_store_ current_timestamp_ curr_size_ replacer_size_ k_ less_k_frames_
       k_frames_].
  destruct (store !! f) as [nd|] eqn:Hf; cbn [default from_option id].
  - cbn [node_store_ current_timestamp_ curr_size_ replacer_size_ k_ less_k_frames_
         k_frames_].
    rewrite (ReplacerFacts.index_store_tracked _ _ _ Hf).
    cbn [node_store_ current_timestamp_ curr_size_ replacer_size_ k_ less_k_frames_
         k_frames_].
    set (nd' := push_history k (to_size_t (now + 1)) nd).
    destruct (Z.of_nat (length (history_ nd')) <? k);
      [|destruct (Z.of_nat (length (history_ nd')) =? k);
        [destruct (negb (elem_ofb f kf))|]];
      (eexists; split; [reflexivity|]); done.
  - cbn [node_store_ current_timestamp_ curr_size_ replacer_size_ k_ less_k_frames_
         k_frames_].
    unfold index_store. rewrite lookup_insert_eq.
    cbn [node_store_ current_timestamp_ curr_size_ replacer_size_ k_ less_k_frames_
         k_frames_].
    set (nd' := push_history k (to_size_t (now + 1)) new_node).
    destruct (Z.of_nat (length (history_ nd')) <? k);
      [|destruct (Z.of_nat (length (history_ nd')) =? k);
        [destruct (negb (elem_ofb f kf))|]];
      (eexists; split; [reflexivity|]);
      cbn [node_store_ current_timestamp_ curr_size_ replacer_size_ k_ less_k_frames_
           k_frames_];
      rewrite insert_insert_eq; done.
Qed.

Lemma push_history_flag k ts nd :
  is_evictable_ (push_history k ts nd) = is_evictable_ nd.
Proof. reflexivity. Qed.

(** X7: [RecordAccess] either throws [OutOfRange], for a frame id that as a
    [size_t] is not below [replacer_size_], and changes nothing, or it
    returns: the node of the frame (a new one when it was not tracked) gets
    the next timestamp, the other nodes and every evictable flag are as
    before, and [Size()] is unchanged. *)
Theorem RecordAccess_contract (r : LRUKReplacer) (f : Z) :
  match RecordAccess f r with
  | (Raise e, r') =>
      e = OutOfRange ∧ r' = r ∧ replacer_size_ r ≤ to_size_t f
  | (Return _, r') =>
      to_size_t f < replacer_size_ r ∧
      node_store_ r' =
        <[f := push_history (k_ r) (to_size_t (current_timestamp_ r + 1))
                 (default new_node (node_store_ r !! f))]> (node_store_ r) ∧
      (∀ nd, node_store_ r' !! f = Some nd →
             is_evictable_ nd = is_evictable_ (default new_node (node_store_ r !! f))) ∧
      Size r' = Size r
  end.
Proof.
  destruct (decide (to_size_t f < replacer_size_ r)) as [Hlt|Hge].
  - destruct (RecordAccess_in_range r f Hlt) as (r' & -> & Hstore & _).
    split; [done|]. split; [done|]. split.
    + intros nd. rewrite Hstore, lookup_insert_eq. by intros [= <-].
    + rewrite !Size_store_size, Hstore, store_size_insert.
      destruct (node_store_ r !! f) as [nd|]; simpl; lia.
  - unfold RecordAccess.
    destruct (to_size_t f >=? replacer_size_ r) eqn:E.
    + repeat split; try done. lia.
    + rewrite Z.geb_leb in E. apply Z.leb_gt in E. lia.
Qed.

(** X8: [SetEvictable] throws [OutOfRange] for a frame id outside the replacer
    and [NotTracked] for a frame without a node, and changes nothing; on a
    tracked frame it sets the flag and nothing else, and [Size()] moves by
    the difference of the new flag and the old one. *)
Theorem SetEvictable_contract (r : LRUKReplacer) (f : Z) (flag : bool) :
  match SetEvictable f flag r with
  | (Raise e, r') =>
      r' = r ∧
      ((e = OutOfRange ∧ replacer_size_ r ≤ to_size_t f) ∨
       (e = NotTracked ∧ to_size_t f < replacer_size_ r ∧ node_store_ r !! f = None))
  | (Return _, r') =>
      ∃ nd, node_store_ r !! f = Some nd ∧
            r' = set_node_store (<[f := mkNode (history_ nd) flag]>) r ∧
            Size r' = Size r + (if flag then 1 else 0)
                             - (if is_evictable_ nd then 1 else 0)
  end.
Proof.
  unfold SetEvictable.
  destruct (to_size_t f >=? replacer_size_ r) eqn:E;
    rewrite Z.geb_leb in E; [apply Z.leb_le in E|apply Z.leb_gt in E].
  - split; [done|]. left. done.
  - destruct (node_store_ r !! f) as [nd|] eqn:Hf.
    + exists nd. split; [done|]. split; [done|].
      rewrite !Size_store_size. cbn [node_store_ set_node_store].
      rewrite store_size_insert, Hf. simpl. lia.
    + split; [done|]. right. done.
Qed.

(** X9: [Remove] throws [OutOfRange] for a frame id outside the replacer and
    changes nothing; otherwise it drops the frame's node, evictable or not,
    and erases the frame from both lists, leaving every other frame where
    it was; [Size()] goes down by one exactly when the frame was tracked
    and evictable. *)
Theorem Remove_contract (r : LRUKReplacer) (f : Z) :
  match Remove f r with
  | (Raise e, r') => e = OutOfRange ∧ r' = r ∧ replacer_size_ r ≤ to_size_t f
  | (Return _, r') =>
      to_size_t f < replacer_size_ r ∧
      node_store_ r' = delete f (node_store_ r) ∧
      less_k_frames_ r' = list_remove f (less_k_frames_ r) ∧
      k_frames_ r' = list_remove f (k_frames_ r) ∧
      (f ∉ less_k_frames_ r') ∧ (f ∉ k_frames_ r') ∧
      Size r' = Size r - counted (node_store_ r !! f)
  end.
Proof.
  unfold Remove.
  destruct (to_size_t f >=? replacer_size_ r) eqn:E;
    rewrite Z.geb_leb in E; [apply Z.leb_le in E|apply Z.leb_gt in E].
  - done.
  - split; [done|].
    assert (∀ l, f ∉ list_remove f l) as Hnot
      by (intros l [? _]%ReplacerFacts.elem_of_list_remove; done).
    destruct (node_store_ r !! f) as [nd|] eqn:Hf.
    + repeat split; try done; try apply Hnot.
      rewrite !Size_store_size. cbn [node_store_ set_node_store set_curr_size
        set_less_k_frames set_k_frames].
      by rewrite store_size_delete, Hf.
    + cbn [node_store_ set_less_k_frames set_k_frames less_k_frames_ k_frames_].
      rewrite delete_id by done.
      repeat split; try done; try apply Hnot.
      rewrite !Size_store_size. unfold set_less_k_frames, set_k_frames.
      cbn [node_store_ counted]. lia.
Qed.

(** X10: In every state reached from a new replacer (K at least 1) by fewer than
    2^64 calls: each tracked frame is in exactly one of the two lists, in
    [less_k_frames_] when it has fewer than K timestamps and in [k_frames_]
    when it has K; no frame is listed twice and every listed frame is
    tracked; a history holds between 1 and K timestamps, none later than
    the current one; and each list is in the order of the last access. *)
Theorem reachable_invariant (num_frames k : Z) (ops : list op) :
  0 ≤ num_frames < 2 ^ 64 → 0 < k → Z.of_nat (length ops) < 2 ^ 64 →
  invariant k (Z.of_nat (length ops)) (run ops (init num_frames k)).
Proof.
  intros Hsize Hk Hlen.
  apply (ReplacerFacts.run_invariant k ops 0 (init num_frames k) Hk); [lia|].
  by apply ReplacerFacts.invariant_init.
Qed.

Lemma reachable_invariant_witness :
  0 ≤ 7 < 2 ^ 64 ∧ 0 < 2 ∧ Z.of_nat (length two_frames_k2_ops) < 2 ^ 64 ∧
  invariant 2 (Z.of_nat (length two_frames_k2_ops)) (run two_frames_k2_ops (init 7 2)).
Proof.
  assert (0 ≤ 7 < 2 ^ 64) as H1 by (split; [discriminate|reflexivity]).
  assert (0 < 2) as H2 by reflexivity.
  assert (Z.of_nat (length two_frames_k2_ops) < 2 ^ 64) as H3 by reflexivity.
  split; [exact H1|]. split; [exact H2|]. split; [exact H3|].
  exact (reachable_invariant 7 2 two_frames_k2_ops H1 H2 H3).
Defined.

(** X11: In every such state a successful [Evict] lowers [Size()] by exactly
    one, and a failed one leaves it. *)
Theorem Evict_Size (num_frames k : Z) (ops : list op) :
  0 ≤ num_frames < 2 ^ 64 → 0 < k → Z.of_nat (length ops) < 2 ^ 64 →
  let r := run ops (init num_frames k) in
  Size (Evict r).2 = Size r - (if (Evict r).1 is Some _ then 1 else 0).
Proof.
  intros Hsize Hk Hlen r.
  assert (invariant k (0 + Z.of_nat (length ops)) r) as Hinv.
  { apply ReplacerFacts.run_invariant; [done|lia|].
    by apply ReplacerFacts.invariant_init. }
  pose proof (ReplacerFacts.Evict_spec _ _ _ Hinv) as H.
  destruct (Evict r) as [[f|] r']; cbn [fst snd].
  - destruct H as [(nd & Hf & Hev & _) ->].
    rewrite !Size_store_size. cbn [node_store_].
    rewrite store_size_delete, Hf. simpl. by rewrite Hev.
  - destruct H as [-> _]. lia.
Qed.

Lemma Evict_Size_witness :
  0 ≤ 7 < 2 ^ 64 ∧ 0 < 2 ∧ Z.of_nat (length two_frames_k2_ops) < 2 ^ 64 ∧
  let r := run two_frames_k2_ops (init 7 2) in
  Size (Evict r).2 = Size r - (if (Evict r).1 is Some _ then 1 else 0).
Proof.
  assert (0 ≤ 7 < 2 ^ 64) as H1 by (split; [discriminate|reflexivity]).
  assert (0 < 2) as H2 by reflexivity.
  assert (Z.of_nat (length two_frames_k2_ops) < 2 ^ 64) as H3 by reflexivity.
  split; [exact H1|]. split; [exact H2|]. split; [exact H3|].
  exact (Evict_Size 7 2 two_frames_k2_ops H1 H2 H3).
Defined.

End ReplacerMoreFacts.
(** * Properties of the B+ tree pages *)

Module BPlusTreePageFacts.
Import BPlusTree BPlusTreePages.
#[local] Open Scope Z_scope.

(** Comparisons that were destructed, as propositions. *)
Ltac bool_to_prop :=
  repeat match goal with
  | H : (_ <? _) = true |- _ => apply Z.ltb_lt in H
  | H : (_ <? _) = false |- _ => apply Z.ltb_ge in H
  | H : (_ <=? _) = true |- _ => apply Z.leb_le in H
  | H : (_ <=? _) = false |- _ => apply Z.leb_gt in H
  | H : (_ =? _) = true |- _ => apply Z.eqb_eq in H
  | H : (_ =? _) = false |- _ => apply Z.eqb_neq in H
  end.
Ltac blia := bool_to_prop; first [lia | exfalso; lia].

(** ** The binary searches *)

Lemma comparator_eq a b : (comparator a b =? 0) = true ↔ a = b.
Proof.
  unfold comparator. destruct (Z.compare_spec a b); split; intros; try done; lia.
Qed.

Lemma comparator_lt a b : (comparator a b <? 0) = true ↔ a < b.
Proof.
  unfold comparator. destruct (Z.compare_spec a b); split; intros; try done; lia.
Qed.

(** The loop of [FindPosition] and [FindInsertPosition] keeps the keys below
    [low] smaller than [key] and the keys above [high] greater. *)
Lemma search_le_spec first p key fuel : ∀ low high,
  keys_increasing first p →
  first ≤ low → 0 ≤ low → low ≤ high + 1 → high < GetSize p →
  (high - low < Z.of_nat fuel) →
  (∀ i, first ≤ i → i < low → KeyAt p i < key) →
  (∀ i, high < i → i < GetSize p → key < KeyAt p i) →
  let r := search_le fuel p key low high in
  low ≤ r ≤ high + 1 ∧
  (∀ i, first ≤ i → i < r → KeyAt p i < key) ∧
  (∀ i, r ≤ i → i < GetSize p → key ≤ KeyAt p i) ∧
  ((r < GetSize p ∧ KeyAt p r = key) ∨
   (∀ i, r ≤ i → i < GetSize p → key < KeyAt p i)).
Proof.
  induction fuel as [|fuel IH]; intros low high Hinc Hfirst Hlow0 Hle Hhigh Hfuel Hbelow Habove;
    cbn [search_le].
  { assert (high = low - 1) as -> by lia.
    split; [lia|]. split; [done|]. split.
    - intros i ? ?. apply Z.lt_le_incl, Habove; lia.
    - right. intros i ? ?. apply Habove; lia. }
  destruct (low <=? high) eqn:E.
  2:{ apply Z.leb_gt in E. assert (high = low - 1) as -> by lia.
      split; [lia|]. split; [done|]. split.
      - intros i ? ?. apply Z.lt_le_incl, Habove; lia.
      - right. intros i ? ?. apply Habove; lia. }
  apply Z.leb_le in E.
  assert (low ≤ (low + high) ÷ 2 ≤ high) as Hmid.
  { rewrite Z.quot_div_nonneg by lia. split.
    - apply Z.div_le_lower_bound; lia.
    - apply Z.div_le_upper_bound; lia. }
  set (mid := (low + high) ÷ 2) in *. cbv zeta.
  destruct (comparator (KeyAt p mid) key =? 0) eqn:Eeq.
  { apply comparator_eq in Eeq. split; [lia|]. split; [|split].
    - intros i ? ?. rewrite <- Eeq. apply Hinc; lia.
    - intros i ? ?. rewrite <- Eeq.
      destruct (decide (i = mid)) as [->|]; [lia|].
      apply Z.lt_le_incl, Hinc; lia.
    - left. split; [lia|done]. }
  assert (KeyAt p mid ≠ key) as Hne.
  { intros Heq. apply comparator_eq in Heq. congruence. }
  destruct (comparator (KeyAt p mid) key <? 0) eqn:Elt.
  - apply comparator_lt in Elt.
    destruct (IH (mid + 1) high) as (? & ? & ? & ?); try done; try lia.
    + intros i ? ?. destruct (decide (i = mid)) as [->|]; [done|].
      apply Z.lt_trans with (KeyAt p mid); [|done]. apply Hinc; lia.
    + split; [lia|done].
  - assert (key < KeyAt p mid) as Hgt.
    { destruct (Z.lt_total (KeyAt p mid) key) as [H|[H|H]]; [|done|done].
      apply comparator_lt in H. congruence. }
    destruct (IH low (mid - 1)) as (? & ? & ? & ?); try done; try lia.
    + intros i ? ?. destruct (decide (i = mid)) as [->|]; [done|].
      apply Z.lt_trans with (KeyAt p mid); [done|]. apply Hinc; lia.
    + split; [lia|done].
Qed.

(** X12: On a leaf whose keys increase, [FindPosition] returns the number of
    keys smaller than [key]: every key before the result is smaller, every
    key from the result on is at least [key], and the result is the slot
    of [key] when the leaf holds it. *)
Theorem FindPosition_lower_bound (p : BPlusTreePage) (key : Z) :
  0 ≤ GetSize p → keys_increasing 0 p →
  let r := FindPosition p key in
  0 ≤ r ≤ GetSize p ∧
  (∀ i, 0 ≤ i → i < r → KeyAt p i < key) ∧
  (∀ i, r ≤ i → i < GetSize p → key ≤ KeyAt p i) ∧
  ((r < GetSize p ∧ KeyAt p r = key) ∨
   (∀ i, r ≤ i → i < GetSize p → key < KeyAt p i)).
Proof.
  intros Hsz Hinc. unfold FindPosition.
  destruct (search_le_spec 0 p key (Z.to_nat (GetSize p - 1 - 0 + 1)) 0 (GetSize p - 1))
    as (Hr & H1 & H2 & H3); try done; try lia.
  split; [lia|done].
Qed.

Lemma leaf_10_20_30_increasing : keys_increasing 0 leaf_10_20_30.
Proof.
  intros i j Hi Hij Hj. cbn in Hj.
  assert (i = 0 ∨ i = 1) as [->| ->] by lia;
    (assert (j = 1 ∨ j = 2) as [->| ->] by lia); try lia; reflexivity.
Qed.

Lemma FindPosition_lower_bound_witness :
  let r := FindPosition leaf_10_20_30 25 in
  0 ≤ r ≤ GetSize leaf_10_20_30 ∧
  (∀ i, 0 ≤ i → i < r → KeyAt leaf_10_20_30 i < 25) ∧
  (∀ i, r ≤ i → i < GetSize leaf_10_20_30 → 25 ≤ KeyAt leaf_10_20_30 i) ∧
  ((r < GetSize leaf_10_20_30 ∧ KeyAt leaf_10_20_30 r = 25) ∨
   (∀ i, r ≤ i → i < GetSize leaf_10_20_30 → 25 < KeyAt leaf_10_20_30 i)).
Proof.
  apply (FindPosition_lower_bound leaf_10_20_30 25).
  - discriminate.
  - exact leaf_10_20_30_increasing.
Defined.

(** X13: On an internal page whose keys from slot 1 on increase,
    [FindInsertPosition] returns a slot from 1 on, never slot 0: the first
    slot whose key is not smaller than [key]. *)
Theorem FindInsertPosition_lower_bound (p : BPlusTreePage) (key : Z) :
  1 ≤ GetSize p → keys_increasing 1 p →
  let r := FindInsertPosition p key in
  1 ≤ r ≤ GetSize p ∧
  (∀ i, 1 ≤ i → i < r → KeyAt p i < key) ∧
  (∀ i, r ≤ i → i < GetSize p → key ≤ KeyAt p i) ∧
  ((r < GetSize p ∧ KeyAt p r = key) ∨
   (∀ i, r ≤ i → i < GetSize p → key < KeyAt p i)).
Proof.
  intros Hsz Hinc. unfold FindInsertPosition.
  destruct (search_le_spec 1 p key (Z.to_nat (GetSize p - 1 - 1 + 1)) 1 (GetSize p - 1))
    as (Hr & H1 & H2 & H3); try done; try lia.
  split; [lia|done].
Qed.

Lemma internal_10_20_increasing : keys_increasing 1 internal_10_20.
Proof.
  intros i j Hi Hij Hj. cbn in Hj.
  assert (i = 1) as -> by lia. assert (j = 2) as -> by lia. reflexivity.
Qed.

Lemma FindInsertPosition_lower_bound_witness :
  let r := FindInsertPosition internal_10_20 15 in
  1 ≤ r ≤ GetSize internal_10_20 ∧
  (∀ i, 1 ≤ i → i < r → KeyAt internal_10_20 i < 15) ∧
  (∀ i, r ≤ i → i < GetSize internal_10_20 → 15 ≤ KeyAt internal_10_20 i) ∧
  ((r < GetSize internal_10_20 ∧ KeyAt internal_10_20 r = 15) ∨
   (∀ i, r ≤ i → i < GetSize internal_10_20 → 15 < KeyAt internal_10_20 i)).
Proof.
  apply (FindInsertPosition_lower_bound internal_10_20 15).
  - discriminate.
  - exact internal_10_20_increasing.
Defined.


(** X14: [FindChildIndex] on an internal page of three slots: a key between the
    two keys of the page is sent to slot 2, whose key is greater, and not
    to slot 1. *)
Theorem FindChildIndex_between_two_keys (p : BPlusTreePage) (key : Z) :
  GetSize p = 3 → KeyAt p 1 < key → key < KeyAt p 2 →
  FindChildIndex p key = 2 ∧ key < KeyAt p (FindChildIndex p key).
Proof.
  intros Hsz H1 H2.
  assert (FindChildIndex p key = 2) as Hr.
  { unfold FindChildIndex.
    destruct (comparator key (KeyAt p 1) <? 0) eqn:E.
    { apply comparator_lt in E. lia. }
    rewrite Hsz.
    change (Z.to_nat (3 - 1 - 1 + 1)) with 2%nat. change (3 - 1) with 2.
    cbn [search_lt]. change (1 <? 2) with true. change ((1 + 2) ÷ 2) with 1.
    cbv iota zeta.
    assert ((comparator (KeyAt p 1) key =? 0) = false) as ->.
    { destruct (_ =? 0) eqn:E1; [|done]. apply comparator_eq in E1. lia. }
    assert ((comparator (KeyAt p 1) key <? 0) = true) as ->
      by (by apply comparator_lt).
    reflexivity. }
  by rewrite Hr.
Qed.

Lemma FindChildIndex_between_two_keys_witness :
  FindChildIndex internal_10_20 15 = 2 ∧
  15 < KeyAt internal_10_20 (FindChildIndex internal_10_20 15).
Proof.
  apply (FindChildIndex_between_two_keys internal_10_20 15); reflexivity.
Defined.


(** ** Shifting and inserting *)

Lemma entries_lookup (q : BPlusTreePage) (i : nat) :
  Z.of_nat i < GetSize q → entries q !! i = Some (slot (array_ q) (Z.of_nat i)).
Proof.
  intros Hi. unfold entries. rewrite list_lookup_fmap, lookup_seqZ_lt by done.
  simpl. unfold KeyAt, ValueAt. by rewrite Z.add_0_l, <- surjective_pairing.
Qed.

Lemma length_entries (q : BPlusTreePage) : length (entries q) = Z.to_nat (GetSize q).
Proof. unfold entries. by rewrite length_fmap, length_seqZ. Qed.

Lemma entries_eq (q : BPlusTreePage) (l : list (Z * Z)) :
  GetSize q = Z.of_nat (length l) →
  (∀ i x, l !! i = Some x → slot (array_ q) (Z.of_nat i) = x) →
  entries q = l.
Proof.
  intros Hsz Hs. apply list_eq. intros i.
  destruct (l !! i) as [x|] eqn:E.
  - rewrite entries_lookup.
    + by rewrite (Hs i x E).
    + apply lookup_lt_Some in E. lia.
  - apply lookup_ge_None_2. rewrite length_entries.
    apply lookup_ge_None_1 in E. lia.
Qed.

Lemma SetAt_as_internal j k v q : SetAt j k v q = SetValueAt j v (SetKeyAt j k q).
Proof.
  destruct q. unfold SetAt, SetValueAt, SetKeyAt, KeyAt, ValueAt, set_array.
  cbn [array_ page_type_ size_ max_size_ parent_page_id_ page_id_ is_root_ next_page_id_].
  f_equal. rewrite BPlusTreeFacts.slot_set_slot_eq. cbn [fst].
  by rewrite BPlusTreeFacts.set_slot_set_slot.
Qed.

(** The loop of [ShiftAt] and [InsertAt] moves the slots from [pos] to
    [pos + n - 1] one place up, starting from the last. *)
Lemma shift_loop (pos : Z) (n : nat) : ∀ q, 0 ≤ pos →
  let q' := foldl (λ q i, set_array (set_slot i (slot (array_ q) (i - 1)) (array_ q)) q)
              q (reverse (seqZ (pos + 1) (Z.of_nat n))) in
  q' = set_array (array_ q') q ∧
  ∀ i, 0 ≤ i →
    slot (array_ q') i
    = if (pos <? i) && (i <=? pos + Z.of_nat n) then slot (array_ q) (i - 1)
      else slot (array_ q) i.
Proof.
  induction n as [|n IH]; intros q Hpos; cbn zeta.
  { simpl. split; [by destruct q|]. intros i Hi.
    destruct (pos <? i) eqn:E1; [|done].
    destruct (i <=? pos + Z.of_nat 0) eqn:E2; [blia|done]. }
  rewrite seqZ_S, reverse_snoc. cbn [foldl].
  set (q1 := set_array _ q).
  destruct (IH q1 Hpos) as [Hhead Hslots]. cbn zeta in Hhead, Hslots.
  split.
  { rewrite Hhead at 1. reflexivity. }
  intros i Hi. rewrite (Hslots i Hi).
  assert (∀ j, 0 ≤ j → slot (array_ q1) j
            = if j =? pos + 1 + Z.of_nat n then slot (array_ q) (pos + Z.of_nat n)
              else slot (array_ q) j) as Hq1.
  { intros j Hj. subst q1. cbn [array_ set_array].
    destruct (j =? pos + 1 + Z.of_nat n) eqn:E.
    - apply Z.eqb_eq in E. subst j. rewrite BPlusTreeFacts.slot_set_slot_eq.
      f_equal. lia.
    - apply Z.eqb_neq in E. apply BPlusTreeFacts.slot_set_slot_ne. lia. }
  destruct (pos <? i) eqn:E1; cbn [andb].
  - destruct (i <=? pos + Z.of_nat n) eqn:E2.
    + rewrite Hq1 by lia.
      destruct (i - 1 =? pos + 1 + Z.of_nat n) eqn:E3; [blia|].
      destruct (i <=? pos + Z.of_nat (S n)) eqn:E4; [done|blia].
    + rewrite Hq1 by lia.
      destruct (i =? pos + 1 + Z.of_nat n) eqn:E3.
      * destruct (i <=? pos + Z.of_nat (S n)) eqn:E4; [|blia].
        f_equal. lia.
      * destruct (i <=? pos + Z.of_nat (S n)) eqn:E4; [blia|done].
  - rewrite Hq1 by lia.
    destruct (i =? pos + 1 + Z.of_nat n) eqn:E3; [blia|done].
Qed.

Lemma shift_from_spec (pos : Z) (p : BPlusTreePage) :
  0 ≤ pos → pos ≤ GetSize p →
  shift_from pos p = set_array (array_ (shift_from pos p)) p ∧
  ∀ i, 0 ≤ i →
    slot (array_ (shift_from pos p)) i
    = if (pos <? i) && (i <=? GetSize p) then slot (array_ p) (i - 1)
      else slot (array_ p) i.
Proof.
  intros Hpos Hle. unfold shift_from.
  replace (GetSize p - pos) with (Z.of_nat (Z.to_nat (GetSize p - pos))) by lia.
  destruct (shift_loop pos (Z.to_nat (GetSize p - pos)) p Hpos) as [Hh Hs].
  cbn zeta in Hh, Hs. split; [done|].
  intros i Hi. rewrite (Hs i Hi).
  replace (pos + Z.of_nat (Z.to_nat (GetSize p - pos))) with (GetSize p) by lia. done.
Qed.

(** The slots of a leaf after [Insert(position, key, value)]. *)
Lemma LeafInsert_spec (pos key value : Z) (p : BPlusTreePage) :
  0 ≤ pos → pos ≤ GetSize p →
  let q := LeafInsert pos key value p in
  q = SetSize (GetSize p + 1) (set_array (array_ q) p) ∧
  ∀ i, 0 ≤ i →
    slot (array_ q) i
    = if i =? pos then (key, value)
      else if (pos <? i) && (i <=? GetSize p) then slot (array_ p) (i - 1)
      else slot (array_ p) i.
Proof.
  intros Hpos Hle q. subst q. unfold LeafInsert, ShiftAt.
  destruct (shift_from_spec pos p Hpos Hle) as [Hh Hs].
  split.
  { rewrite Hh at 1. reflexivity. }
  intros i Hi. unfold IncreaseSize, SetSize, SetAt, set_array. cbn [array_].
  destruct (i =? pos) eqn:E.
  - apply Z.eqb_eq in E. subst i. apply BPlusTreeFacts.slot_set_slot_eq.
  - apply Z.eqb_neq in E. rewrite BPlusTreeFacts.slot_set_slot_ne by lia.
    by apply Hs.
Qed.

Lemma LeafInsert_entries (pos key value : Z) (p : BPlusTreePage) :
  0 ≤ pos → pos ≤ GetSize p →
  entries (LeafInsert pos key value p) = vector_insert pos (key, value) (entries p).
Proof.
  intros Hpos Hle.
  destruct (LeafInsert_spec pos key value p Hpos Hle) as [Hh Hs]. cbn zeta in Hh, Hs.
  assert (length (take (Z.to_nat pos) (entries p)) = Z.to_nat pos) as Htake.
  { rewrite length_take, length_entries. lia. }
  apply entries_eq.
  - rewrite Hh. unfold vector_insert.
    rewrite length_app, length_cons, length_take, length_drop, length_entries.
    unfold GetSize, SetSize, set_array; cbn [size_]. unfold GetSize in Hle. lia.
  - intros i x Hx. rewrite Hs by lia. unfold vector_insert in Hx.
    destruct (decide (i < Z.to_nat pos)%nat) as [Hlt|Hge].
    + rewrite lookup_app_l in Hx by lia. rewrite lookup_take_lt in Hx by done.
      rewrite entries_lookup in Hx by lia.
      destruct (Z.of_nat i =? pos) eqn:E; [blia|].
      destruct (pos <? Z.of_nat i) eqn:E2; [blia|]. cbn [andb]. congruence.
    + rewrite lookup_app_r in Hx by lia. rewrite Htake in Hx.
      destruct (i - Z.to_nat pos)%nat as [|m] eqn:Em; cbn [lookup list_lookup] in Hx.
      * destruct (Z.of_nat i =? pos) eqn:E; [congruence|blia].
      * change (drop (Z.to_nat pos) (entries p) !! m = Some x) in Hx.
        rewrite lookup_drop in Hx.
        assert (Z.to_nat pos + m < length (entries p))%nat as Hlen
          by (by apply lookup_lt_Some in Hx).
        rewrite length_entries in Hlen.
        rewrite entries_lookup in Hx by lia.
        destruct (Z.of_nat i =? pos) eqn:E; [blia|].
        destruct (pos <? Z.of_nat i) eqn:E2; [|blia].
        destruct (Z.of_nat i <=? GetSize p) eqn:E3; [|blia]. cbn [andb].
        injection Hx as <-. f_equal. lia.
Qed.


Lemma GetSize_LeafInsert (pos key value : Z) (p : BPlusTreePage) :
  0 ≤ pos → pos ≤ GetSize p → GetSize (LeafInsert pos key value p) = GetSize p + 1.
Proof.
  intros Hpos Hle.
  destruct (LeafInsert_spec pos key value p Hpos Hle) as [Hh _]. cbn zeta in Hh.
  rewrite Hh. reflexivity.
Qed.

Lemma KeyAt_LeafInsert (pos key value : Z) (p : BPlusTreePage) (i : Z) :
  0 ≤ pos → pos ≤ GetSize p → 0 ≤ i → i ≤ GetSize p →
  KeyAt (LeafInsert pos key value p) i
  = if i =? pos then key else if pos <? i then KeyAt p (i - 1) else KeyAt p i.
Proof.
  intros Hpos Hle Hi Hisz.
  destruct (LeafInsert_spec pos key value p Hpos Hle) as [_ Hs]. cbn zeta in Hs.
  unfold KeyAt. rewrite (Hs i Hi).
  destruct (i =? pos); [done|].
  destruct (pos <? i); [|done].
  destruct (i <=? GetSize p) eqn:E; [done|blia].
Qed.

(** Inserting an absent key at the position [FindPosition] gives keeps the
    keys of a leaf increasing. *)
Lemma LeafInsert_increasing (key value : Z) (p : BPlusTreePage) :
  0 ≤ GetSize p → keys_increasing 0 p →
  (∀ i, 0 ≤ i → i < GetSize p → KeyAt p i ≠ key) →
  keys_increasing 0 (LeafInsert (FindPosition p key) key value p).
Proof.
  intros Hsz Hinc Habsent.
  destruct (search_le_spec 0 p key (Z.to_nat (GetSize p - 1 - 0 + 1)) 0 (GetSize p - 1))
    as (Hr & Hbelow & _ & Hfound); try done; try lia.
  fold (FindPosition p key) in Hr, Hbelow, Hfound.
  set (r := FindPosition p key) in *.
  assert (∀ i, r ≤ i → i < GetSize p → key < KeyAt p i) as Habove.
  { destruct Hfound as [[Hlt Heq]|H]; [|done].
    exfalso. apply (Habsent r); [lia|done|done]. }
  assert (GetSize (LeafInsert r key value p) = GetSize p + 1) as Hsz'
    by (apply GetSize_LeafInsert; lia).
  intros i j Hi Hij Hj. rewrite Hsz' in Hj.
  rewrite !KeyAt_LeafInsert by lia.
  destruct (i =? r) eqn:Ei; destruct (j =? r) eqn:Ej;
    destruct (r <? i) eqn:Ei'; destruct (r <? j) eqn:Ej'; bool_to_prop;
    try lia; try (apply Hinc; lia); try (apply Hbelow; lia); try (apply Habove; lia).
Qed.

Lemma InsertInLeaf_spec (t : Tree) (page key value : Z) :
  InsertInLeaf key value page t
  = if GetMaxSize (page_of t page) - 1 =? GetSize (page_of t page) then (Return false, t)
    else (Return true,
          set_tree_pages
            (<[page := LeafInsert (FindPosition (page_of t page) key) key value
                         (page_of t page)]>) t).
Proof.
  unfold InsertInLeaf, bind, fetch. cbn beta iota.
  destruct (GetMaxSize (page_of t page) - 1 =? GetSize (page_of t page)); reflexivity.
Qed.

(** X15: [InsertInLeaf] refuses, changing nothing, exactly when the leaf holds
    [GetMaxSize() - 1] entries.  Otherwise the pair goes in at the position
    [FindPosition] gives and the entries from there on move one slot up;
    the other pages are untouched, and the keys of the leaf still increase
    when [key] was not among them. *)
Theorem InsertInLeaf_contract (t : Tree) (page key value : Z) :
  0 ≤ GetSize (page_of t page) → keys_increasing 0 (page_of t page) →
  match InsertInLeaf key value page t with
  | (Return false, t') =>
      t' = t ∧ GetSize (page_of t page) = GetMaxSize (page_of t page) - 1
  | (Return true, t') =>
      GetSize (page_of t page) ≠ GetMaxSize (page_of t page) - 1 ∧
      entries (page_of t' page)
      = vector_insert (FindPosition (page_of t page) key) (key, value)
          (entries (page_of t page)) ∧
      ((∀ i, 0 ≤ i → i < GetSize (page_of t page) → KeyAt (page_of t page) i ≠ key) →
       keys_increasing 0 (page_of t' page)) ∧
      (∀ other, other ≠ page → page_of t' other = page_of t other)
  | (Raise _, _) => False
  end.
Proof.
  intros Hsz Hinc. rewrite InsertInLeaf_spec.
  destruct (_ =? _) eqn:E; bool_to_prop.
  { split; [done|lia]. }
  destruct (search_le_spec 0 (page_of t page) key
              (Z.to_nat (GetSize (page_of t page) - 1 - 0 + 1)) 0
              (GetSize (page_of t page) - 1))
    as (Hr & _); try done; try lia.
  fold (FindPosition (page_of t page) key) in Hr.
  split; [lia|].
  rewrite BPlusTreeFacts.page_of_insert, decide_True by done.
  split; [apply LeafInsert_entries; lia|].
  split; [by apply LeafInsert_increasing|].
  intros other Hne. rewrite BPlusTreeFacts.page_of_insert. by rewrite decide_False.
Qed.

Lemma InsertInLeaf_contract_witness :
  match InsertInLeaf 25 250 5 tree_leaf_root with
  | (Return false, t') =>
      t' = tree_leaf_root ∧
      GetSize (page_of tree_leaf_root 5) = GetMaxSize (page_of tree_leaf_root 5) - 1
  | (Return true, t') =>
      GetSize (page_of tree_leaf_root 5) ≠ GetMaxSize (page_of tree_leaf_root 5) - 1 ∧
      entries (page_of t' 5)
      = vector_insert (FindPosition (page_of tree_leaf_root 5) 25) (25, 250)
          (entries (page_of tree_leaf_root 5)) ∧
      ((∀ i, 0 ≤ i → i < GetSize (page_of tree_leaf_root 5) →
             KeyAt (page_of tree_leaf_root 5) i ≠ 25) →
       keys_increasing 0 (page_of t' 5)) ∧
      (∀ other, other ≠ 5 → page_of t' other = page_of tree_leaf_root other)
  | (Raise _, _) => False
  end.
Proof.
  apply (InsertInLeaf_contract tree_leaf_root 5 25 250).
  - discriminate.
  - exact leaf_10_20_30_increasing.
Defined.

(** X16: [InsertAt] on an internal page: at a position from 1 on the entries
    from there move one slot up and the pair takes the slot; at position 0
    nothing moves and [key] is not stored, only the child pointer of slot 0
    is overwritten, and [GetSize()] grows by one all the same. *)
Theorem InsertAt_contract (p : BPlusTreePage) (position key child_id : Z) :
  0 ≤ position → position ≤ GetSize p →
  let q := InsertAt position key child_id p in
  GetSize q = GetSize p + 1 ∧
  if position =? 0 then
    ValueAt q 0 = child_id ∧ KeyAt q 0 = KeyAt p 0 ∧
    ∀ i, 1 ≤ i → slot (array_ q) i = slot (array_ p) i
  else
    entries q = vector_insert position (key, child_id) (entries p).
Proof.
  intros Hpos Hle q. subst q. unfold InsertAt.
  destruct (position =? 0) eqn:E; bool_to_prop.
  - subst position. split; [reflexivity|].
    unfold IncreaseSize, SetSize, SetValueAt, set_array, ValueAt, KeyAt. cbn [array_].
    rewrite BPlusTreeFacts.slot_set_slot_eq. split; [done|]. split; [done|].
    intros i Hi. apply BPlusTreeFacts.slot_set_slot_ne. lia.
  - rewrite <- SetAt_as_internal. fold (ShiftAt position p).
    fold (LeafInsert position key child_id p).
    split; [apply GetSize_LeafInsert; lia|]. apply LeafInsert_entries; lia.
Qed.

Lemma InsertAt_contract_witness :
  let q := InsertAt 2 15 77 internal_10_20 in
  GetSize q = GetSize internal_10_20 + 1 ∧
  if 2 =? 0 then
    ValueAt q 0 = 77 ∧ KeyAt q 0 = KeyAt internal_10_20 0 ∧
    ∀ i, 1 ≤ i → slot (array_ q) i = slot (array_ internal_10_20) i
  else
    entries q = vector_insert 2 (15, 77) (entries internal_10_20).
Proof.
  apply (InsertAt_contract internal_10_20 2 15 77); discriminate.
Defined.


(** ** Removing from a leaf *)

Lemma remove_step (q : BPlusTreePage) (i : Z) :
  0 ≤ i →
  (let q1 := SetKeyAt i (KeyAt q (i + 1)) q in SetValueAt i (ValueAt q1 (i + 1)) q1)
  = set_array (set_slot i (slot (array_ q) (i + 1)) (array_ q)) q.
Proof.
  intros Hi. cbv zeta. rewrite <- SetAt_as_internal. unfold SetAt. f_equal.
  unfold ValueAt, SetKeyAt, set_array, KeyAt. cbn [array_].
  rewrite BPlusTreeFacts.slot_set_slot_ne by lia.
  by rewrite <- surjective_pairing.
Qed.

Lemma remove_loop_steps (pos : Z) (n : nat) (q : BPlusTreePage) :
  0 ≤ pos →
  let q' := foldl (λ q i, let q1 := SetKeyAt i (KeyAt q (i + 1)) q in
                          SetValueAt i (ValueAt q1 (i + 1)) q1)
              q (seqZ pos (Z.of_nat n)) in
  q' = set_array (array_ q') q ∧
  ∀ i, 0 ≤ i →
    slot (array_ q') i
    = if (pos <=? i) && (i <? pos + Z.of_nat n) then slot (array_ q) (i + 1)
      else slot (array_ q) i.
Proof.
  intros Hpos. induction n as [|n IH]; cbn zeta.
  { simpl. split; [by destruct q|]. intros i Hi.
    destruct (pos <=? i) eqn:E1; [|done].
    destruct (i <? pos + Z.of_nat 0) eqn:E2; [blia|done]. }
  rewrite seqZ_S, foldl_app. cbn [foldl].
  cbn zeta in IH. destruct IH as [Hhead Hslots].
  set (qn := foldl _ q (seqZ pos (Z.of_nat n))) in *.
  rewrite remove_step by lia.
  split.
  { exact (f_equal (set_array _) Hhead). }
  cbn [array_ set_array]. intros i Hi.
  destruct (decide (i = pos + Z.of_nat n)) as [->|Hne].
  - rewrite BPlusTreeFacts.slot_set_slot_eq, Hslots by lia.
    destruct (pos <=? pos + Z.of_nat n + 1) eqn:E1; [|blia].
    destruct (pos + Z.of_nat n + 1 <? pos + Z.of_nat n) eqn:E2; [blia|].
    destruct (pos <=? pos + Z.of_nat n) eqn:E3; [|blia].
    destruct (pos + Z.of_nat n <? pos + Z.of_nat (S n)) eqn:E4; [done|blia].
  - rewrite BPlusTreeFacts.slot_set_slot_ne, Hslots by lia.
    destruct (pos <=? i) eqn:E1; [|done]. cbn [andb].
    destruct (i <? pos + Z.of_nat n) eqn:E2;
      destruct (i <? pos + Z.of_nat (S n)) eqn:E3; try done; blia.
Qed.

Lemma remove_loop_spec (pos : Z) (p : BPlusTreePage) :
  0 ≤ pos → pos < GetSize p →
  remove_loop pos p = set_array (array_ (remove_loop pos p)) p ∧
  ∀ i, 0 ≤ i →
    slot (array_ (remove_loop pos p)) i
    = if (pos <=? i) && (i <? GetSize p - 1) then slot (array_ p) (i + 1)
      else slot (array_ p) i.
Proof.
  intros Hpos Hlt. unfold remove_loop.
  replace (GetSize p - 1 - pos) with (Z.of_nat (Z.to_nat (GetSize p - 1 - pos))) by lia.
  destruct (remove_loop_steps pos (Z.to_nat (GetSize p - 1 - pos)) p Hpos) as [Hh Hs].
  cbn zeta in Hh, Hs. split; [done|].
  intros i Hi. rewrite (Hs i Hi).
  replace (pos + Z.of_nat (Z.to_nat (GetSize p - 1 - pos))) with (GetSize p - 1) by lia.
  done.
Qed.

(** X17: The leaf page's [Remove] refuses a position that is not a slot in use
    and changes nothing; otherwise the entry at the position is gone, the
    entries after it have moved one slot down in order, the entries before
    it stay, and the header is as before but for the size. *)
Theorem LeafRemove_contract (p : BPlusTreePage) (position : Z) :
  match LeafRemove position p with
  | (false, p') => p' = p ∧ (position < 0 ∨ GetSize p ≤ position)
  | (true, p') =>
      0 ≤ position ∧ position < GetSize p ∧
      p' = SetSize (GetSize p - 1) (set_array (array_ p') p) ∧
      entries p' = delete (Z.to_nat position) (entries p)
  end.
Proof.
  unfold LeafRemove.
  destruct (position <? 0) eqn:E1; cbn [orb]; bool_to_prop.
  { split; [done|lia]. }
  destruct (position >=? GetSize p) eqn:E2; rewrite Z.geb_leb in E2; bool_to_prop.
  { split; [done|lia]. }
  destruct (remove_loop_spec position p E1 E2) as [Hh Hs].
  split; [done|]. split; [done|]. split.
  { rewrite Hh at 1. reflexivity. }
  apply entries_eq.
  - rewrite length_delete.
    + rewrite length_entries, Hh. unfold GetSize, IncreaseSize, SetSize, set_array in *.
      cbn [size_]. lia.
    + apply lookup_lt_is_Some. rewrite length_entries. lia.
  - intros i x Hx. unfold IncreaseSize, SetSize. cbn [array_].
    rewrite Hs by lia.
    destruct (decide (i < Z.to_nat position)%nat) as [Hlt|Hge].
    + rewrite list_lookup_delete_lt in Hx by done.
      assert (Z.of_nat i < GetSize p) as Hi.
      { apply lookup_lt_Some in Hx. rewrite length_entries in Hx. lia. }
      rewrite entries_lookup in Hx by done.
      destruct (position <=? Z.of_nat i) eqn:E3; [blia|]. cbn [andb]. congruence.
    + rewrite list_lookup_delete_ge in Hx by lia.
      assert (Z.of_nat (S i) < GetSize p) as Hi.
      { apply lookup_lt_Some in Hx. rewrite length_entries in Hx. lia. }
      rewrite entries_lookup in Hx by done.
      destruct (position <=? Z.of_nat i) eqn:E3; [|blia].
      destruct (Z.of_nat i <? GetSize p - 1) eqn:E4; [|blia]. cbn [andb].
      injection Hx as <-. f_equal. lia.
Qed.

(** ** Searching a child pointer *)

Lemma ValueIndex_loop_spec (p : BPlusTreePage) (value : Z) (n : nat) : ∀ m,
  let r := ValueIndex_loop p value (seqZ m (Z.of_nat n)) in
  (r = -1 ∧ ∀ i, m ≤ i → i < m + Z.of_nat n → ValueAt p i ≠ value) ∨
  (m ≤ r ∧ r < m + Z.of_nat n ∧ ValueAt p r = value ∧
   ∀ i, m ≤ i → i < r → ValueAt p i ≠ value).
Proof.
  induction n as [|n IH]; intros m; cbn zeta.
  { left. split; [done|]. intros; lia. }
  rewrite seqZ_cons by lia. cbn [ValueIndex_loop].
  replace (Z.pred (Z.of_nat (S n))) with (Z.of_nat n) by lia.
  destruct (ValueAt p m =? value) eqn:E; bool_to_prop.
  { right. split; [lia|]. split; [lia|]. split; [done|]. intros; lia. }
  destruct (IH (Z.succ m)) as [[Hr Hnone]|(H1 & H2 & H3 & H4)].
  - left. split; [done|]. intros i ? ?.
    destruct (decide (i = m)) as [->|]; [done|]. apply Hnone; lia.
  - right. split; [lia|]. split; [lia|]. split; [done|]. intros i ? ?.
    destruct (decide (i = m)) as [->|]; [done|]. apply H4; lia.
Qed.

(** X18: [ValueIndex] returns the first slot in use whose value is [value], and
    -1 exactly when no slot in use holds it. *)
Theorem ValueIndex_first_or_minus_one (p : BPlusTreePage) (value : Z) :
  let r := ValueIndex p value in
  (r = -1 ∧ ∀ i, 0 ≤ i → i < GetSize p → ValueAt p i ≠ value) ∨
  (0 ≤ r ∧ r < GetSize p ∧ ValueAt p r = value ∧
   ∀ i, 0 ≤ i → i < r → ValueAt p i ≠ value).
Proof.
  unfold ValueIndex. destruct (decide (0 ≤ GetSize p)) as [Hsz|Hsz].
  - pose proof (ValueIndex_loop_spec p value (Z.to_nat (GetSize p)) 0) as H.
    cbn zeta in H. rewrite Z2Nat.id, Z.add_0_l in H by done. exact H.
  - left. replace (seqZ 0 (GetSize p)) with (@nil Z).
    + split; [done|]. intros; lia.
    + unfold seqZ. by replace (Z.to_nat (GetSize p)) with 0%nat by lia.
Qed.


(** ** Splitting a leaf *)

Lemma foldl_fun_ext {A B} (f g : A → B → A) (l : list B) (a : A) :
  (∀ a x, f a x = g a x) → foldl f a l = foldl g a l.
Proof.
  intros Hfg. revert a. induction l as [|x l IH]; intros a; simpl; [done|].
  by rewrite Hfg, IH.
Qed.

(** The two copy loops of a split and the [IncreaseSize(1)] after them,
    for a page that holds all of [tmp] but one entry and a cut at [mid]. *)
Lemma split_loops_spec (tmp : list (Z * Z)) (page new_page : BPlusTreePage) (midn : nat) :
  size_ page + 1 = Z.of_nat (length tmp) → (midn ≤ length tmp)%nat →
  size_ new_page = 0 →
  let mid := Z.of_nat midn in
  let page1 :=
    foldl (λ q i, SetValueAt i (slot tmp i).2 (SetKeyAt i (slot tmp i).1 q))
          page (seqZ 0 mid) in
  let page2 := foldl (λ q (_ : Z), IncreaseSize (-1) q) page1
                     (seqZ mid (Z.of_nat (length tmp) - mid)) in
  let new2 :=
    foldl (λ n i, IncreaseSize 1 (SetValueAt (i - mid) (slot tmp i).2
                                    (SetKeyAt (i - mid) (slot tmp i).1 n)))
          new_page (seqZ mid (Z.of_nat (length tmp) - mid)) in
  size_ (IncreaseSize 1 page2) = mid ∧
  entries (IncreaseSize 1 page2) = take midn tmp ∧
  size_ new2 = Z.of_nat (length tmp) - mid ∧
  entries new2 = drop midn tmp.
Proof.
  intros Hsize Hmid Hnew mid page1 page2 new2.
  set (rn := (length tmp - midn)%nat).
  assert (Z.of_nat (length tmp) - mid = Z.of_nat rn) as Hrn by (subst mid rn; lia).
  assert (size_ page1 = size_ page) as Hsz1.
  { subst page1.
    rewrite (BPlusTreeFacts.copy_loop_header (λ q, q) (λ i, i) 0 tmp page); [lia|intros; lia]. }
  assert (∀ i, (i < midn)%nat →
            slot (array_ page1) (Z.of_nat i) = slot tmp (0 + Z.of_nat i)) as Hs1
    by exact (BPlusTreeFacts.copy_loop_slots (λ q, q) (λ i, i) tmp 0 page midn
                (λ _, eq_refl) (λ i, Z.add_0_l _)).
  destruct (BPlusTreeFacts.shrink_loop page1 (seqZ mid (Z.of_nat (length tmp) - mid)))
    as [Hsz2 Harr2].
  fold page2 in Hsz2, Harr2. rewrite length_seqZ in Hsz2.
  assert (size_ new2 = size_ new_page
            + Z.of_nat (length (seqZ mid (Z.of_nat (length tmp) - mid))) * 1) as Hszn
    by exact (BPlusTreeFacts.copy_loop_header (IncreaseSize 1) (λ i, i - mid) 1 tmp new_page
                (seqZ mid (Z.of_nat (length tmp) - mid)) (λ _, eq_refl)).
  rewrite length_seqZ in Hszn.
  assert (∀ i : nat, mid + Z.of_nat i - mid = Z.of_nat i) as Hg by lia.
  assert (∀ i, (i < rn)%nat →
            slot (array_ new2) (Z.of_nat i) = slot tmp (mid + Z.of_nat i)) as Hsn.
  { subst new2. rewrite Hrn.
    exact (BPlusTreeFacts.copy_loop_slots (IncreaseSize 1) (λ i, i - mid) tmp
             mid new_page rn (λ _, eq_refl) Hg). }
  split; [simpl; lia|]. split; [|split; [lia|]].
  - rewrite (BPlusTreeFacts.entries_of_slots (IncreaseSize 1 page2) tmp 0 midn);
      [done|simpl; lia|lia|].
    intros i Hi. simpl. rewrite Harr2. by apply Hs1.
  - rewrite (BPlusTreeFacts.entries_of_slots new2 tmp midn rn); [|lia|subst rn; lia|done].
    apply take_ge. rewrite length_drop. subst rn. lia.
Qed.

Lemma split_leaf_pages_unfold (tmp : list (Z * Z)) (page new_leaf : BPlusTreePage) :
  split_leaf_pages tmp page new_leaf
  = let mid := to_size_t (GetMaxSize page ÷ 2) in
    let page1 :=
      foldl (λ q i, SetValueAt i (slot tmp i).2 (SetKeyAt i (slot tmp i).1 q))
            page (seqZ 0 mid) in
    (IncreaseSize 1
       (foldl (λ q (_ : Z), IncreaseSize (-1) q) page1
              (seqZ mid (Z.of_nat (length tmp) - mid))),
     foldl (λ n i, IncreaseSize 1 (SetValueAt (i - mid) (slot tmp i).2
                                     (SetKeyAt (i - mid) (slot tmp i).1 n)))
           new_leaf (seqZ mid (Z.of_nat (length tmp) - mid)),
     (slot tmp mid).1).
Proof.
  unfold split_leaf_pages. cbv zeta.
  set (mid := to_size_t (GetMaxSize page ÷ 2)).
  rewrite (foldl_fun_ext
             (λ q i, SetAt i (slot tmp i).1 (slot tmp i).2 q)
             (λ q i, SetValueAt i (slot tmp i).2 (SetKeyAt i (slot tmp i).1 q)))
    by (intros; apply SetAt_as_internal).
  set (page1 := foldl _ page (seqZ 0 mid)).
  rewrite (foldl_fun_ext
             (λ '(q, n) i,
                (IncreaseSize (-1) q,
                 IncreaseSize 1 (SetAt (i - mid) (slot tmp i).1 (slot tmp i).2 n)))
             (λ '(q, n) i,
                ((λ q (_ : Z), IncreaseSize (-1) q) q i,
                 (λ n i, IncreaseSize 1 (SetValueAt (i - mid) (slot tmp i).2
                                           (SetKeyAt (i - mid) (slot tmp i).1 n))) n i)))
    by (intros [q n] i; cbv beta; by rewrite SetAt_as_internal).
  by rewrite BPlusTreeFacts.foldl_pair.
Qed.

Lemma same_header_foldl {B} (f : BPlusTreePage → B → BPlusTreePage) (l : list B) :
  (∀ q i, same_header (f q i) q) → ∀ q, same_header (foldl f q l) q.
Proof.
  intros Hf. induction l as [|x l IH]; intros q; simpl.
  - by repeat split.
  - specialize (IH (f q x)). specialize (Hf q x). unfold same_header in *.
    repeat split; etrans; try apply IH; apply Hf.
Qed.

Lemma split_leaf_pages_spec (tmp : list (Z * Z)) (page new_leaf : BPlusTreePage) :
  GetSize page = GetMaxSize page - 1 → 1 ≤ GetMaxSize page < 2 ^ 31 →
  GetSize new_leaf = 0 →
  length tmp = Z.to_nat (GetMaxSize page) →
  let middle_index := Z.to_nat (GetMaxSize page / 2) in
  let '(page', new', middle_key) := split_leaf_pages tmp page new_leaf in
  GetSize page' = GetMaxSize page / 2 ∧
  GetSize new' = GetMaxSize page - GetMaxSize page / 2 ∧
  entries page' = take middle_index tmp ∧
  entries new' = drop middle_index tmp ∧
  1 ≤ GetSize new' ∧ middle_key = KeyAt new' 0 ∧
  same_header page' page ∧ same_header new' new_leaf.
Proof.
  unfold GetSize, GetMaxSize. intros Hfull Hmax Hnew Hlen.
  rewrite split_leaf_pages_unfold. unfold GetMaxSize. cbv zeta.
  set (midn := Z.to_nat (max_size_ page / 2)).
  assert (0 ≤ max_size_ page / 2 < max_size_ page) as Hmidr.
  { split; [apply Z.div_pos; lia|apply Z.div_lt_upper_bound; lia]. }
  assert (to_size_t (max_size_ page ÷ 2) = Z.of_nat midn) as ->.
  { unfold to_size_t. rewrite Z.quot_div_nonneg by lia. subst midn.
    rewrite Z2Nat.id by lia. apply Z.mod_small. lia. }
  destruct (split_loops_spec tmp page new_leaf midn) as (H1 & H2 & H3 & H4);
    [lia|subst midn; lia|done|].
  cbv zeta in H1, H2, H3, H4.
  assert (∀ l (q : BPlusTreePage),
            same_header
              (IncreaseSize 1
                 (foldl (λ q (_ : Z), IncreaseSize (-1) q)
                    (foldl (λ q i, SetValueAt i (slot tmp i).2 (SetKeyAt i (slot tmp i).1 q))
                       q l)
                    (seqZ (Z.of_nat midn) (Z.of_nat (length tmp) - Z.of_nat midn)))) q)
    as Hhead1.
  { intros l q.
    pose proof (same_header_foldl (λ q (_ : Z), IncreaseSize (-1) q)
                  (seqZ (Z.of_nat midn) (Z.of_nat (length tmp) - Z.of_nat midn))
                  (λ _ _, ltac:(by repeat split))
                  (foldl (λ q i, SetValueAt i (slot tmp i).2 (SetKeyAt i (slot tmp i).1 q))
                     q l)) as Ha.
    pose proof (same_header_foldl
                  (λ q i, SetValueAt i (slot tmp i).2 (SetKeyAt i (slot tmp i).1 q))
                  l (λ _ _, ltac:(by repeat split)) q) as Hb.
    unfold same_header in *. cbn [IncreaseSize SetSize page_type_ max_size_ parent_page_id_
                                  page_id_ is_root_ next_page_id_].
    repeat split; etrans; try apply Ha; apply Hb. }
  set (new2 := foldl _ new_leaf _) in *.
  split; [subst midn; lia|]. split; [subst midn; lia|]. split; [done|]. split; [done|].
  split; [subst midn; lia|].
  assert (entries new2 !! 0%nat = Some (slot (array_ new2) 0)) as Hfirst
    by (apply entries_lookup; unfold GetSize; subst midn; lia).
  rewrite H4, lookup_drop, Nat.add_0_r in Hfirst.
  split; [|split].
  - unfold KeyAt. unfold slot at 1. rewrite Nat2Z.id, Hfirst. reflexivity.
  - apply Hhead1.
  - subst new2. apply same_header_foldl. intros q i. by repeat split.
Qed.

(** X19: When [SplitLeafNode] splits a leaf that holds [GetMaxSize() - 1]
    entries, the vector of these and the new pair, [GetMaxSize()] pairs, is
    cut at [GetMaxSize() / 2] rounded down: that many pairs stay in the old
    leaf, the others go to the new leaf in order, and the key handed to
    [InsertInParent] is the first key of the new leaf. *)
Theorem split_leaf_pages_halves (tmp : list (Z * Z)) (page new_leaf : BPlusTreePage) :
  GetSize page = GetMaxSize page - 1 → 1 ≤ GetMaxSize page < 2 ^ 31 →
  GetSize new_leaf = 0 →
  length tmp = Z.to_nat (GetMaxSize page) →
  let middle_index := Z.to_nat (GetMaxSize page / 2) in
  let '(page', new', middle_key) := split_leaf_pages tmp page new_leaf in
  GetSize page' = GetMaxSize page / 2 ∧
  GetSize new' = GetMaxSize page - GetMaxSize page / 2 ∧
  entries page' = take middle_index tmp ∧
  entries new' = drop middle_index tmp ∧
  1 ≤ GetSize new' ∧ middle_key = KeyAt new' 0.
Proof.
  intros Hfull Hmax Hnew Hlen middle_index.
  pose proof (split_leaf_pages_spec tmp page new_leaf Hfull Hmax Hnew Hlen) as H.
  cbv zeta in H. fold middle_index in H.
  destruct (split_leaf_pages tmp page new_leaf) as [[page' new'] middle_key].
  destruct H as (? & ? & ? & ? & ? & ? & _). done.
Qed.

Lemma split_leaf_pages_halves_witness :
  let page := SetSize 3 (LeafInit 4 zero_page) in
  let tmp := [(10, 1); (20, 2); (25, 9); (30, 3)] in
  let '(page', new', middle_key) :=
    split_leaf_pages tmp (set_array [(10, 1); (20, 2); (30, 3)] page) (LeafInit 4 zero_page) in
  GetSize page' = 4 / 2 ∧
  GetSize new' = 4 - 4 / 2 ∧
  entries page' = take (Z.to_nat (4 / 2)) tmp ∧
  entries new' = drop (Z.to_nat (4 / 2)) tmp ∧
  1 ≤ GetSize new' ∧ middle_key = KeyAt new' 0.
Proof.
  apply (split_leaf_pages_halves [(10, 1); (20, 2); (25, 9); (30, 3)]
           (set_array [(10, 1); (20, 2); (30, 3)] (SetSize 3 (LeafInit 4 zero_page)))
           (LeafInit 4 zero_page)).
  - reflexivity.
  - split; [discriminate|reflexivity].
  - reflexivity.
  - reflexivity.
Defined.

End BPlusTreePageFacts.
(** * More properties of the B+ tree *)

Module BPlusTreeMoreFacts.
Import BPlusTree BPlusTreePages.
#[local] Open Scope Z_scope.

Ltac run_t :=
  repeat (unfold bind, get, modify, ret, throw, fetch, update, NewPageGuarded, IsEmpty,
            GetRootPageId;
          cbn beta iota).

Lemma page_of_set_root_page_id t i j : page_of (set_root_page_id i t) j = page_of t j.
Proof. reflexivity. Qed.

(** The page a guard on [i] reads after a write to it, whatever was done
    to the root page id and the pool's counter in between. *)
Lemma page_of_fresh t i x r n :
  page_of (set_root_page_id r (set_pool_next_page_id n (set_tree_pages (<[i := x]>) t))) i = x.
Proof.
  rewrite page_of_set_root_page_id, BPlusTreeFacts.page_of_set_pool_next_page_id,
    BPlusTreeFacts.page_of_insert.
  by rewrite decide_True.
Qed.

Lemma page_of_written t i x :
  page_of (set_tree_pages (<[i := x]>) t) i = x.
Proof. rewrite BPlusTreeFacts.page_of_insert. by rewrite decide_True. Qed.

(** X20: [Insert] into an empty tree always returns true.  It takes the next
    page of the pool as the root, a leaf flagged as root with the tree's
    leaf size, and stores the pair in it, except when the leaf size is 1:
    then [InsertInLeaf] refuses, its result is not read, and the root leaf
    stays empty. *)
Theorem Insert_into_empty_tree (LEAF_PAGE_SIZE INTERNAL_PAGE_SIZE : Z) (fuel : nat)
    (t : Tree) (key value : Z) :
  root_page_id_ t = INVALID_PAGE_ID →
  match Insert LEAF_PAGE_SIZE INTERNAL_PAGE_SIZE fuel key value t with
  | (Return b, t') =>
      b = true ∧ root_page_id_ t' = pool_next_page_id t ∧
      let r := page_of t' (pool_next_page_id t) in
      IsLeafPage r = true ∧ IsRootPage r = true ∧ GetPage r = pool_next_page_id t ∧
      GetMaxSize r = leaf_max_size_ t ∧ GetNextPageId r = INVALID_PAGE_ID ∧
      entries r = if leaf_max_size_ t =? 1 then [] else [(key, value)]
  | (Raise _, _) => False
  end.
Proof.
  intros Hempty. unfold Insert. run_t. rewrite Hempty.
  change (INVALID_PAGE_ID =? INVALID_PAGE_ID) with true. cbv beta iota.
  rewrite BPlusTreePageFacts.InsertInLeaf_spec.
  set (root_id := pool_next_page_id t).
  rewrite !page_of_fresh, !page_of_written.
  change (leaf_max_size_ (set_root_page_id _ _)) with (leaf_max_size_ t).
  set (leaf := SetMaxSize (leaf_max_size_ t) _).
  change (GetMaxSize leaf) with (leaf_max_size_ t). change (GetSize leaf) with 0.
  assert (entries leaf = []) as Hnone by reflexivity.
  destruct (leaf_max_size_ t - 1 =? 0) eqn:E.
  - rewrite page_of_written.
    assert ((leaf_max_size_ t =? 1) = true) as -> by (apply Z.eqb_eq in E; lia).
    repeat split; done.
  - rewrite page_of_written.
    assert ((leaf_max_size_ t =? 1) = false) as ->
      by (apply Z.eqb_neq in E; apply Z.eqb_neq; lia).
    change (FindPosition leaf key) with 0.
    split; [done|]. split; [done|].
    destruct (BPlusTreePageFacts.LeafInsert_spec 0 key value leaf) as [Hh _];
      [done|done|]. cbn zeta in Hh.
    rewrite Hh at 1 2 3 4 5.
    repeat (split; [reflexivity|]).
    by rewrite BPlusTreePageFacts.LeafInsert_entries, Hnone.
Qed.

Lemma Insert_into_empty_tree_witness :
  match Insert 255 255 8 5 50 (init 0 3 3) with
  | (Return b, t') =>
      b = true ∧ root_page_id_ t' = pool_next_page_id (init 0 3 3) ∧
      let r := page_of t' (pool_next_page_id (init 0 3 3)) in
      IsLeafPage r = true ∧ IsRootPage r = true ∧
      GetPage r = pool_next_page_id (init 0 3 3) ∧
      GetMaxSize r = leaf_max_size_ (init 0 3 3) ∧ GetNextPageId r = INVALID_PAGE_ID ∧
      entries r = if leaf_max_size_ (init 0 3 3) =? 1 then [] else [(5, 50)]
  | (Raise _, _) => False
  end.
Proof.
  apply (Insert_into_empty_tree 255 255 8 (init 0 3 3) 5 50). reflexivity.
Defined.


Ltac pages :=
  repeat first
    [ rewrite page_of_set_root_page_id
    | rewrite BPlusTreeFacts.page_of_set_pool_next_page_id
    | rewrite BPlusTreeFacts.page_of_insert ];
  repeat case_decide; try done; try lia.

(** The state [InsertInParent] leaves when [old_node] is flagged as root. *)
Lemma InsertInParent_root_eq (INTERNAL_PAGE_SIZE : Z) (fuel : nat) (t : Tree)
    (old_node middle_key new_node : Z) :
  IsRootPage (page_of t old_node) = true →
  InsertInParent INTERNAL_PAGE_SIZE (S fuel) old_node middle_key new_node t
  = let new_root_id := pool_next_page_id t in
    let t1 := set_pool_next_page_id (to_int32 (new_root_id + 1))
                (set_tree_pages (<[new_root_id := zero_page]>) t) in
    let new_root :=
      SetMaxSize (internal_max_size_ t)
        (SetSize 2
           (SetValueAt 0 (GetPage (page_of t old_node))
              (SetValueAt 1 (GetPage (page_of t1 new_node))
                 (SetKeyAt 1 middle_key
                    (SetPage new_root_id
                       (SetRootPage true
                          (InternalInit INTERNAL_PAGE_SIZE (page_of t1 new_root_id)))))))) in
    let t2 := set_tree_pages (<[new_root_id := new_root]>) t1 in
    let t3 := set_tree_pages (<[new_node := SetParent new_root_id (page_of t2 new_node)]>) t2 in
    let t4 := set_tree_pages (<[old_node := SetParent new_root_id (page_of t3 old_node)]>) t3 in
    (Return tt, set_root_page_id new_root_id t4).
Proof.
  intros Hroot. cbn [InsertInParent]. run_t. rewrite Hroot. reflexivity.
Qed.

Lemma InsertInParent_root_spec (INTERNAL_PAGE_SIZE : Z) (fuel : nat) (t : Tree)
    (old_node middle_key new_node : Z) :
  IsRootPage (page_of t old_node) = true →
  old_node ≠ pool_next_page_id t → new_node ≠ pool_next_page_id t →
  old_node ≠ new_node →
  match InsertInParent INTERNAL_PAGE_SIZE (S fuel) old_node middle_key new_node t with
  | (Return _, t') =>
      let new_root_id := pool_next_page_id t in
      let r := page_of t' new_root_id in
      root_page_id_ t' = new_root_id ∧
      IsLeafPage r = false ∧ IsRootPage r = true ∧ GetPage r = new_root_id ∧
      GetSize r = 2 ∧ GetMaxSize r = internal_max_size_ t ∧
      ValueAt r 0 = GetPage (page_of t old_node) ∧
      KeyAt r 1 = middle_key ∧ ValueAt r 1 = GetPage (page_of t new_node) ∧
      page_of t' old_node = SetParent new_root_id (page_of t old_node) ∧
      page_of t' new_node = SetParent new_root_id (page_of t new_node) ∧
      IsRootPage (page_of t' old_node) = true ∧
      (∀ other, other ≠ old_node → other ≠ new_node → other ≠ new_root_id →
                page_of t' other = page_of t other)
  | (Raise _, _) => False
  end.
Proof.
  intros Hroot Hold Hnew Hne. rewrite InsertInParent_root_eq by done. cbv zeta.
  set (n := pool_next_page_id t).
  split; [reflexivity|].
  assert (∀ x, page_of (set_pool_next_page_id x (set_tree_pages (<[n := zero_page]>) t)) new_node
               = page_of t new_node) as Hn1 by (intros; pages).
  split; [pages|]. split; [pages|]. split; [pages|]. split; [pages|]. split; [pages|].
  split; [pages|]. split; [pages|]. split; [pages; by rewrite Hn1|].
  split; [pages|]. split; [pages|]. split; [pages|].
  intros other H1 H2 H3. pages.
Qed.


(** X23: [InsertInParent] on a node flagged as root, with the pool handing out
    a page that is neither node: the new page becomes the root, an
    internal page of two slots whose slot 0 points to [old_node]'s page id
    and whose slot 1 holds [middle_key] and [new_node]'s page id; both
    nodes get it as parent, and [old_node] is still flagged as root. *)
Theorem InsertInParent_new_root (INTERNAL_PAGE_SIZE : Z) (fuel : nat) (t : Tree)
    (old_node middle_key new_node : Z) :
  IsRootPage (page_of t old_node) = true →
  old_node ≠ pool_next_page_id t → new_node ≠ pool_next_page_id t →
  old_node ≠ new_node →
  match InsertInParent INTERNAL_PAGE_SIZE (S fuel) old_node middle_key new_node t with
  | (Return _, t') =>
      let new_root_id := pool_next_page_id t in
      let r := page_of t' new_root_id in
      root_page_id_ t' = new_root_id ∧
      IsLeafPage r = false ∧ IsRootPage r = true ∧ GetPage r = new_root_id ∧
      GetSize r = 2 ∧ GetMaxSize r = internal_max_size_ t ∧
      ValueAt r 0 = GetPage (page_of t old_node) ∧
      KeyAt r 1 = middle_key ∧ ValueAt r 1 = GetPage (page_of t new_node) ∧
      page_of t' old_node = SetParent new_root_id (page_of t old_node) ∧
      page_of t' new_node = SetParent new_root_id (page_of t new_node) ∧
      IsRootPage (page_of t' old_node) = true ∧
      (∀ other, other ≠ old_node → other ≠ new_node → other ≠ new_root_id →
                page_of t' other = page_of t other)
  | (Raise _, _) => False
  end.
Proof. apply InsertInParent_root_spec. Qed.

Lemma InsertInParent_new_root_witness :
  match InsertInParent 255 1 5 25 6 tree_split_pending with
  | (Return _, t') =>
      let new_root_id := pool_next_page_id tree_split_pending in
      let r := page_of t' new_root_id in
      root_page_id_ t' = new_root_id ∧
      IsLeafPage r = false ∧ IsRootPage r = true ∧ GetPage r = new_root_id ∧
      GetSize r = 2 ∧ GetMaxSize r = internal_max_size_ tree_split_pending ∧
      ValueAt r 0 = GetPage (page_of tree_split_pending 5) ∧
      KeyAt r 1 = 25 ∧ ValueAt r 1 = GetPage (page_of tree_split_pending 6) ∧
      page_of t' 5 = SetParent new_root_id (page_of tree_split_pending 5) ∧
      page_of t' 6 = SetParent new_root_id (page_of tree_split_pending 6) ∧
      IsRootPage (page_of t' 5) = true ∧
      (∀ other, other ≠ 5 → other ≠ 6 → other ≠ new_root_id →
                page_of t' other = page_of tree_split_pending other)
  | (Raise _, _) => False
  end.
Proof.
  apply (InsertInParent_new_root 255 0 tree_split_pending 5 25 6);
    [reflexivity|discriminate|discriminate|discriminate].
Defined.

(** ** Descending to a leaf *)


Lemma FindLeafNode_root_leaf (fuel : nat) (key : Z) (t : Tree) :
  root_page_id_ t ≠ INVALID_PAGE_ID → IsLeafPage (page_of t (root_page_id_ t)) = true →
  FindLeafNode (S fuel) key t = (Return (root_page_id_ t), t).
Proof.
  intros Hroot Hleaf. unfold FindLeafNode. run_t. cbn [FindLeafNode_loop].
  apply Z.eqb_neq in Hroot. rewrite Hroot. run_t. by rewrite Hleaf.
Qed.



(** ** Insertion into a tree of one leaf *)

Lemma Insert_nonempty_eq (LEAF_PAGE_SIZE INTERNAL_PAGE_SIZE : Z) (fuel : nat)
    (t : Tree) (key value : Z) :
  root_page_id_ t ≠ INVALID_PAGE_ID → IsLeafPage (page_of t (root_page_id_ t)) = true →
  Insert LEAF_PAGE_SIZE INTERNAL_PAGE_SIZE (S fuel) key value t
  = let root := root_page_id_ t in
    if GetMaxSize (page_of t root) - 1 =? GetSize (page_of t root) then
      match SplitLeafNode LEAF_PAGE_SIZE INTERNAL_PAGE_SIZE (S fuel) root key value t with
      | (Return _, t') => (Return true, t')
      | (Raise e, t') => (Raise e, t')
      end
    else
      (Return true,
       set_tree_pages
         (<[root := LeafInsert (FindPosition (page_of t root) key) key value
                      (page_of t root)]>) t).
Proof.
  intros Hroot Hleaf. unfold Insert. unfold bind at 1. unfold IsEmpty.
  apply Z.eqb_neq in Hroot. rewrite Hroot. cbv iota.
  unfold bind at 1. apply Z.eqb_neq in Hroot.
  rewrite FindLeafNode_root_leaf by done.
  unfold bind at 1. rewrite BPlusTreePageFacts.InsertInLeaf_spec. cbv zeta.
  destruct (_ =? _); [|reflexivity].
  unfold bind at 1. unfold ret. reflexivity.
Qed.

(** X21: [Insert] into a tree whose root is a leaf with room (fewer than
    [GetMaxSize() - 1] entries) returns true and puts the pair into the
    root leaf at the position [FindPosition] gives; the root and the other
    pages stay, and the keys of the leaf still increase when the key was
    not among them. *)
Theorem Insert_into_root_leaf_with_room (LEAF_PAGE_SIZE INTERNAL_PAGE_SIZE : Z)
    (fuel : nat) (t : Tree) (key value : Z) :
  let root := root_page_id_ t in
  root ≠ INVALID_PAGE_ID → IsLeafPage (page_of t root) = true →
  0 ≤ GetSize (page_of t root) → GetSize (page_of t root) ≠ GetMaxSize (page_of t root) - 1 →
  keys_increasing 0 (page_of t root) →
  match Insert LEAF_PAGE_SIZE INTERNAL_PAGE_SIZE (S fuel) key value t with
  | (Return b, t') =>
      b = true ∧ root_page_id_ t' = root ∧
      entries (page_of t' root)
      = vector_insert (FindPosition (page_of t root) key) (key, value)
          (entries (page_of t root)) ∧
      ((∀ i, 0 ≤ i → i < GetSize (page_of t root) → KeyAt (page_of t root) i ≠ key) →
       keys_increasing 0 (page_of t' root)) ∧
      (∀ other, other ≠ root → page_of t' other = page_of t other)
  | (Raise _, _) => False
  end.
Proof.
  intros root Hroot Hleaf Hsz Hroom Hinc. rewrite Insert_nonempty_eq by done.
  cbv zeta. fold root.
  destruct (_ =? _) eqn:E; [apply Z.eqb_eq in E; lia|].
  destruct (BPlusTreePageFacts.search_le_spec 0 (page_of t root) key
              (Z.to_nat (GetSize (page_of t root) - 1 - 0 + 1)) 0
              (GetSize (page_of t root) - 1))
    as (Hr & _); try done; try lia.
  fold (FindPosition (page_of t root) key) in Hr.
  split; [done|]. split; [done|].
  rewrite page_of_written.
  split; [apply BPlusTreePageFacts.LeafInsert_entries; lia|].
  split; [by apply BPlusTreePageFacts.LeafInsert_increasing|].
  intros other Hne. pages.
Qed.

Lemma Insert_into_root_leaf_with_room_witness :
  match Insert 255 255 1 25 250 tree_leaf_root with
  | (Return b, t') =>
      b = true ∧ root_page_id_ t' = root_page_id_ tree_leaf_root ∧
      entries (page_of t' (root_page_id_ tree_leaf_root))
      = vector_insert (FindPosition (page_of tree_leaf_root (root_page_id_ tree_leaf_root)) 25)
          (25, 250) (entries (page_of tree_leaf_root (root_page_id_ tree_leaf_root))) ∧
      ((∀ i, 0 ≤ i →
             i < GetSize (page_of tree_leaf_root (root_page_id_ tree_leaf_root)) →
             KeyAt (page_of tree_leaf_root (root_page_id_ tree_leaf_root)) i ≠ 25) →
       keys_increasing 0 (page_of t' (root_page_id_ tree_leaf_root))) ∧
      (∀ other, other ≠ root_page_id_ tree_leaf_root →
                page_of t' other = page_of tree_leaf_root other)
  | (Raise _, _) => False
  end.
Proof.
  apply (Insert_into_root_leaf_with_room 255 255 0 tree_leaf_root 25 250).
  - discriminate.
  - reflexivity.
  - discriminate.
  - discriminate.
  - exact BPlusTreePageFacts.leaf_10_20_30_increasing.
Defined.


Lemma length_leaf_tmp p key value :
  length (leaf_tmp p key value) = S (Z.to_nat (GetSize p)).
Proof.
  unfold leaf_tmp, vector_insert, entries.
  rewrite length_app, length_cons, length_take, length_drop, length_fmap, length_seqZ. lia.
Qed.

(** X22: [Insert] into a tree whose root is a leaf flagged as root and holding
    [GetMaxSize() - 1] entries returns true after a split.  The pool's next
    page becomes a new leaf and the page after it the new root.  Of the
    entries with the new pair in place, the first [GetMaxSize() / 2]
    (rounded down) stay in the old leaf and the others go to the new leaf;
    the old leaf points to the new one, which takes over the old sibling
    pointer and has the tree's leaf size.  The new root is an internal
    page of two slots over the two leaves, keyed by the first key of the
    new leaf; both leaves have it as parent, and the old leaf is still
    flagged as root. *)
Theorem Insert_splits_full_root_leaf (LEAF_PAGE_SIZE INTERNAL_PAGE_SIZE : Z)
    (fuel : nat) (t : Tree) (key value : Z) :
  let root := root_page_id_ t in
  let r0 := page_of t root in
  let n := pool_next_page_id t in
  root ≠ INVALID_PAGE_ID → IsLeafPage r0 = true → IsRootPage r0 = true →
  GetSize r0 = GetMaxSize r0 - 1 → 1 ≤ GetMaxSize r0 < 2 ^ 31 →
  root ≠ n → root ≠ n + 1 → - 2 ^ 31 ≤ n < 2 ^ 31 - 1 →
  match Insert LEAF_PAGE_SIZE INTERNAL_PAGE_SIZE (S fuel) key value t with
  | (Return b, t') =>
      let tmp := leaf_tmp r0 key value in
      let middle_index := Z.to_nat (GetMaxSize r0 / 2) in
      let new_root := page_of t' (n + 1) in
      b = true ∧ root_page_id_ t' = n + 1 ∧
      entries (page_of t' root) = take middle_index tmp ∧
      entries (page_of t' n) = drop middle_index tmp ∧
      GetNextPageId (page_of t' root) = n ∧
      GetNextPageId (page_of t' n) = GetNextPageId r0 ∧
      IsLeafPage (page_of t' n) = true ∧ GetMaxSize (page_of t' n) = leaf_max_size_ t ∧
      GetParent (page_of t' root) = n + 1 ∧ GetParent (page_of t' n) = n + 1 ∧
      IsRootPage (page_of t' root) = true ∧
      IsLeafPage new_root = false ∧ IsRootPage new_root = true ∧ GetSize new_root = 2 ∧
      ValueAt new_root 0 = GetPage r0 ∧ ValueAt new_root 1 = n ∧
      KeyAt new_root 1 = KeyAt (page_of t' n) 0
  | (Raise _, _) => False
  end.
Proof.
  intros root r0 n Hroot Hleaf Hisroot Hfull Hmax Hn1 Hn2 Hrange.
  rewrite Insert_nonempty_eq by done. cbv zeta. fold root r0.
  assert ((GetMaxSize r0 - 1 =? GetSize r0) = true) as -> by (apply Z.eqb_eq; lia).
  unfold SplitLeafNode. run_t. fold root r0 n.
  change (leaf_max_size_ (set_pool_next_page_id _ _)) with (leaf_max_size_ t).
  set (t1 := set_pool_next_page_id (to_int32 (n + 1)) (set_tree_pages (<[n := zero_page]>) t)).
  assert (page_of t1 n = zero_page) as -> by (subst t1; pages).
  set (new0 := SetPage n (SetMaxSize (leaf_max_size_ t) (LeafInit LEAF_PAGE_SIZE zero_page))).
  rewrite page_of_written.
  assert (page_of (set_tree_pages (<[n := new0]>) t1) root = r0) as ->
    by (subst t1 r0; pages).
  pose proof (BPlusTreePageFacts.split_leaf_pages_spec (leaf_tmp r0 key value) r0 new0)
    as Hsplit.
  cbv zeta in Hsplit.
  destruct (split_leaf_pages (leaf_tmp r0 key value) r0 new0) as [[p' n'] middle_key].
  destruct Hsplit as (Hs1 & Hs2 & He1 & He2 & Hs3 & Hmk & Hh1 & Hh2);
    [done|done|reflexivity|rewrite length_leaf_tmp; lia|].
  cbv beta.
  set (t2 := set_tree_pages (<[n := n']>) (set_tree_pages (<[root := p']>) _)).
  assert (page_of t2 root = p') as -> by (subst t2; pages).
  assert (page_of t2 n = n') as -> by (subst t2; pages).
  set (t3 := set_tree_pages (<[n := SetNextPageId (GetNextPageId p') n']>) t2).
  assert (page_of t3 root = p') as -> by (subst t3 t2; pages).
  set (t4 := set_tree_pages (<[root := SetNextPageId n p']>) t3).
  destruct Hh1 as (Hp1 & Hp2 & Hp3 & Hp4 & Hp5 & Hp6).
  destruct Hh2 as (Hn'1 & Hn'2 & Hn'3 & Hn'4 & Hn'5 & Hn'6).
  assert (to_int32 (n + 1) = n + 1) as Hwrap.
  { unfold to_int32. rewrite Z.mod_small; lia. }
  assert (pool_next_page_id t4 = n + 1) as Hnext by (by rewrite <- Hwrap).
  assert (IsRootPage (page_of t4 root) = true) as Hroot4.
  { subst t4. rewrite page_of_written. unfold IsRootPage, SetNextPageId. cbn [is_root_].
    by rewrite Hp5. }
  pose proof (InsertInParent_root_spec INTERNAL_PAGE_SIZE fuel t4 root middle_key n Hroot4)
    as HP.
  rewrite Hnext in HP. cbv zeta in HP.
  destruct (InsertInParent INTERNAL_PAGE_SIZE (S fuel) root middle_key n t4)
    as [[[]|e] t']; [|apply HP; lia].
  destruct HP as (HP1 & HP2 & HP3 & HP4 & HP5 & HP6 & HP7 & HP8 & HP9 & HP10 & HP11 & HP12 & _);
    [lia|lia|lia|].
  assert (page_of t4 root = SetNextPageId n p') as H4root by (subst t4; pages).
  assert (page_of t4 n = SetNextPageId (GetNextPageId p') n') as H4n
    by (subst t4 t3; pages).
  rewrite H4root in HP7, HP10. rewrite H4n in HP9, HP11.
  rewrite HP10, HP11, HP7, HP8, HP9.
  split; [done|]. split; [done|]. split; [exact He1|]. split; [exact He2|].
  split; [reflexivity|].
  split; [unfold GetNextPageId; cbn [SetParent SetNextPageId next_page_id_]; exact Hp6|].
  split; [unfold IsLeafPage; cbn [SetParent SetNextPageId page_type_]; by rewrite Hn'1|].
  split; [unfold GetMaxSize; cbn [SetParent SetNextPageId max_size_]; by rewrite Hn'2|].
  split; [reflexivity|]. split; [reflexivity|].
  split; [unfold IsRootPage; cbn [SetParent SetNextPageId is_root_]; by rewrite Hp5|].
  split; [done|]. split; [done|]. split; [done|].
  split; [unfold GetPage; cbn [SetNextPageId page_id_]; exact Hp4|].
  split; [unfold GetPage; cbn [SetNextPageId page_id_]; by rewrite Hn'4|].
  exact Hmk.
Qed.


Lemma Insert_splits_full_root_leaf_witness :
  let t := tree_full_leaf_root in
  let root := root_page_id_ t in
  let r0 := page_of t root in
  let n := pool_next_page_id t in
  match Insert 255 255 1 25 250 t with
  | (Return b, t') =>
      let tmp := leaf_tmp r0 25 250 in
      let middle_index := Z.to_nat (GetMaxSize r0 / 2) in
      let new_root := page_of t' (n + 1) in
      b = true ∧ root_page_id_ t' = n + 1 ∧
      entries (page_of t' root) = take middle_index tmp ∧
      entries (page_of t' n) = drop middle_index tmp ∧
      GetNextPageId (page_of t' root) = n ∧
      GetNextPageId (page_of t' n) = GetNextPageId r0 ∧
      IsLeafPage (page_of t' n) = true ∧ GetMaxSize (page_of t' n) = leaf_max_size_ t ∧
      GetParent (page_of t' root) = n + 1 ∧ GetParent (page_of t' n) = n + 1 ∧
      IsRootPage (page_of t' root) = true ∧
      IsLeafPage new_root = false ∧ IsRootPage new_root = true ∧ GetSize new_root = 2 ∧
      ValueAt new_root 0 = GetPage r0 ∧ ValueAt new_root 1 = n ∧
      KeyAt new_root 1 = KeyAt (page_of t' n) 0
  | (Raise _, _) => False
  end.
Proof.
  apply (Insert_splits_full_root_leaf 255 255 0 tree_full_leaf_root 25 250).
  - discriminate.
  - reflexivity.
  - reflexivity.
  - reflexivity.
  - split; [discriminate|reflexivity].
  - discriminate.
  - discriminate.
  - split; [discriminate|reflexivity].
Defined.

End BPlusTreeMoreFacts.
(** * More properties of the buffer pool manager *)

Module BPMMoreFacts.
Import BPM BPMVictim.
#[local] Open Scope Z_scope.

Ltac run_m :=
  repeat (unfold bind, get, update_page, page_at, modify, ret, throw, on_replacer;
          cbn beta iota).

(** The invariant depends on the page table and on the page id of each
    frame only. *)
Lemma invariant_same_ids (b b' : BufferPoolManager) :
  page_table_ b' = page_table_ b →
  (∀ i q, pages_ b !! i = Some q →
          ∃ q', pages_ b' !! i = Some q' ∧ page_id_ q' = page_id_ q) →
  page_table_invariant b → page_table_invariant b'.
Proof.
  intros Ht Hp [Hin Hinj]. split.
  - intros pid f. rewrite Ht. intros Hf.
    destruct (Hin pid f Hf) as (H0 & q & Hq & Hid). split; [done|].
    destruct (Hp _ _ Hq) as (q' & Hq' & Hid'). exists q'. split; [done|]. congruence.
  - intros pid1 pid2 f. rewrite Ht. apply Hinj.
Qed.

(** ** [FlushPage] *)

(** X25: [FlushPage] returns false and changes nothing for a page that is not in
    the page table.  For a page in the table it writes the bytes of the
    frame the table names under the page id it was given, whether the frame
    is dirty or not, clears the frame's dirty flag and returns true; the
    disk then gives these bytes back for the page, and the page-table
    invariant is kept.  A table entry that names no frame of the pool is
    undefined behaviour. *)
Theorem FlushPage_contract (b : BufferPoolManager) (page_id : Z) :
  match FlushPage page_id b with
  | (Return false, b') => b' = b ∧ page_table_ b !! page_id = None
  | (Return true, b') =>
      ∃ f p, page_table_ b !! page_id = Some f ∧ 0 ≤ f ∧
             pages_ b !! Z.to_nat f = Some p ∧
             b' = set_pages (<[Z.to_nat f := set_is_dirty false p]>)
                    (set_disk_manager (WritePage page_id (data_ p)) b) ∧
             ReadPage page_id (data_ p) (disk_manager_ b') = data_ p ∧
             (page_table_invariant b → page_table_invariant b')
  | (Raise e, b') =>
      e = Undefined ∧ b' = b ∧
      ∃ f, page_table_ b !! page_id = Some f ∧ (f < 0 ∨ pages_ b !! Z.to_nat f = None)
  end.
Proof.
  unfold FlushPage. run_m.
  destruct (page_table_ b !! page_id) as [f|] eqn:Hpt; [|done].
  cbn beta iota.
  destruct (f <? 0) eqn:E.
  { split; [done|]. split; [done|]. exists f. split; [done|]. left. lia. }
  destruct (pages_ b !! Z.to_nat f) as [p|] eqn:Hp.
  2:{ split; [done|]. split; [done|]. exists f. split; [done|]. by right. }
  cbn [pages_ set_disk_manager]. rewrite Hp.
  exists f, p. split; [done|]. split; [lia|]. split; [done|]. split; [done|].
  split.
  { unfold ReadPage, WritePage. cbn [disk_manager_ set_pages set_disk_manager contents].
    by rewrite lookup_insert_eq. }
  apply invariant_same_ids; [done|].
  cbn [pages_ set_pages set_disk_manager]. intros i q Hq.
  destruct (decide (i = Z.to_nat f)) as [->|Hne].
  - exists (set_is_dirty false p). rewrite list_lookup_insert_eq.
    + split; [done|]. rewrite Hp in Hq. by injection Hq as <-.
    + by eapply lookup_lt_Some.
  - exists q. by rewrite list_lookup_insert_ne.
Qed.


(** ** [DeletePage] in src/unnamed/part_001 *)



(** ** Taking a frame for a page *)

(** [RecordAccess] and [SetEvictable(frame, false)] on a frame of the
    replacer's range both return, and leave the frame tracked and not
    evictable and the other nodes as they were. *)
Lemma record_then_pin (r : Replacer.LRUKReplacer) (f : Z) :
  to_size_t f < Replacer.replacer_size_ r →
  ∃ r1 r', Replacer.RecordAccess f r = (Return tt, r1) ∧
           Replacer.SetEvictable f false r1 = (Return tt, r') ∧
           Replacer.replacer_size_ r' = Replacer.replacer_size_ r ∧
           (∃ n, Replacer.node_store_ r' !! f = Some n ∧ Replacer.is_evictable_ n = false) ∧
           ∀ g, g ≠ f → Replacer.node_store_ r' !! g = Replacer.node_store_ r !! g.
Proof.
  intros Hlt.
  destruct (ReplacerMoreFacts.RecordAccess_in_range r f Hlt)
    as (r1 & Hrec & Hstore & _ & Hsize & _).
  exists r1. unfold Replacer.SetEvictable.
  destruct (to_size_t f >=? Replacer.replacer_size_ r1) eqn:E.
  { rewrite Z.geb_leb in E. apply Z.leb_le in E. lia. }
  rewrite Hstore, lookup_insert_eq. eexists. split; [done|]. split; [reflexivity|].
  cbn [Replacer.set_node_store Replacer.replacer_size_ Replacer.node_store_].
  split; [done|]. split.
  - eexists. rewrite lookup_insert_eq. split; reflexivity.
  - intros g Hg. rewrite Hstore. by rewrite !lookup_insert_ne.
Qed.

Lemma take_victim_unchecked_frame (b b1 : BufferPoolManager) (f : Z) :
  take_victim_unchecked b = (Return f, b1) →
  next_page_id_ b1 = next_page_id_ b ∧ pages_ b1 = pages_ b ∧
  page_table_ b1 = page_table_ b ∧ disk_manager_ b1 = disk_manager_ b ∧
  pool_size_ b1 = pool_size_ b.
Proof.
  unfold take_victim_unchecked. run_m. destruct (free_list_ b) as [|x rest].
  - unfold replacer_Evict. destruct (Replacer.Evict (replacer_ b)) as [[v|] r]; [|done].
    by intros [= <- <-].
  - by intros [= <- <-].
Qed.

(** X27: [NewPage] when a victim frame is found, a frame of the pool within the
    replacer's range: the page gets the next page id and the counter moves
    on; the frame holds the new id with pin count 1; the table maps the new
    id to the frame; the replacer tracks the frame as not evictable.  A
    dirty victim is written to disk under its old id, its table entry is
    erased and the bytes are zeroed, but the dirty flag stays set.  Of a
    clean victim the table entry and the bytes both stay. *)
Theorem NewPage_postcondition (b b1 : BufferPoolManager) (f : Z) (p : Page) :
  (Replacer.Size (replacer_ b) =? 0) && Replacer.is_empty (free_list_ b) = false →
  take_victim_unchecked b = (Return f, b1) →
  0 ≤ f → pages_ b !! Z.to_nat f = Some p →
  to_size_t f < Replacer.replacer_size_ (replacer_ b1) →
  ∃ b', NewPage b = (Return (Some (next_page_id_ b, f)), b') ∧
        next_page_id_ b' = to_int32 (next_page_id_ b + 1) ∧
        pages_ b' = <[Z.to_nat f := new_page_in p (next_page_id_ b)]> (pages_ b) ∧
        disk_manager_ b' = written_back p (disk_manager_ b) ∧
        page_table_ b'
        = <[next_page_id_ b := f]>
            (if is_dirty_ p then delete (page_id_ p) (page_table_ b) else page_table_ b) ∧
        free_list_ b' = free_list_ b1 ∧
        ∃ n, Replacer.node_store_ (replacer_ b') !! f = Some n ∧
             Replacer.is_evictable_ n = false.
Proof.
  intros Hcond Hv Hf Hp Hrange.
  destruct (take_victim_unchecked_frame b b1 f Hv) as (Hid & Hpages & Htable & Hdisk & _).
  destruct (record_then_pin (replacer_ b1) f Hrange)
    as (r1 & r' & Hrec & Hpin & _ & Htracked & _).
  assert (Z.to_nat f < length (pages_ b))%nat as Hlen by (by eapply lookup_lt_Some).
  unfold NewPage. unfold bind at 1. unfold get. rewrite Hcond.
  unfold bind at 1. rewrite Hv.
  destruct b1 as [ps1 nid1 pg1 rp1 fl1 pt1 dm1]. cbn [next_page_id_ pages_ page_table_
    disk_manager_ replacer_ free_list_] in *. subst nid1 pg1 pt1 dm1.
  run_m. unfold AllocatePage.
  destruct (f <? 0) eqn:E; [lia|]. cbn [pages_]. rewrite Hp.
  destruct (is_dirty_ p) eqn:Hdirty.
  - cbn [pages_ set_disk_manager set_page_table set_pages set_next_page_id replacer_
         next_page_id_]. rewrite Hp.
    cbn [pages_ set_disk_manager set_page_table set_pages set_next_page_id replacer_
         next_page_id_].
    rewrite list_lookup_insert_eq by done.
    cbn [pages_ set_disk_manager set_page_table set_pages set_next_page_id replacer_
         next_page_id_ set_replacer].
    rewrite Hrec. cbn [replacer_ set_replacer]. rewrite Hpin.
    eexists. split; [reflexivity|].
    cbn [pages_ set_disk_manager set_page_table set_pages set_next_page_id replacer_
         next_page_id_ set_replacer disk_manager_ page_table_ free_list_].
    split; [done|]. split.
    { rewrite list_insert_insert_eq. unfold new_page_in, set_pin_count, set_page_id, set_data.
      cbn [data_ page_id_ pin_count_ is_dirty_]. by rewrite Hdirty. }
    split; [unfold written_back; by rewrite Hdirty|]. done.
  - cbn [pages_ set_disk_manager set_page_table set_pages set_next_page_id replacer_
         next_page_id_]. rewrite Hp.
    cbn [pages_ set_disk_manager set_page_table set_pages set_next_page_id replacer_
         next_page_id_ set_replacer].
    rewrite Hrec. cbn [replacer_ set_replacer]. rewrite Hpin.
    eexists. split; [reflexivity|].
    cbn [pages_ set_disk_manager set_page_table set_pages set_next_page_id replacer_
         next_page_id_ set_replacer disk_manager_ page_table_ free_list_].
    split; [done|]. split.
    { unfold new_page_in, set_pin_count, set_page_id, set_data.
      cbn [data_ page_id_ pin_count_ is_dirty_]. by rewrite Hdirty. }
    split; [unfold written_back; by rewrite Hdirty|]. done.
Qed.


Lemma NewPage_postcondition_witness :
  let b := Scenarios.pool1_page1_dirty in
  let p := mkPage [x00; x00] 1 0 true in
  ∃ b', NewPage b = (Return (Some (next_page_id_ b, 0)), b') ∧
        next_page_id_ b' = to_int32 (next_page_id_ b + 1) ∧
        pages_ b' = <[Z.to_nat 0 := new_page_in p (next_page_id_ b)]> (pages_ b) ∧
        disk_manager_ b' = written_back p (disk_manager_ b) ∧
        page_table_ b'
        = <[next_page_id_ b := 0]>
            (if is_dirty_ p then delete (page_id_ p) (page_table_ b) else page_table_ b) ∧
        free_list_ b' = free_list_ pool1_page1_victim ∧
        ∃ n, Replacer.node_store_ (replacer_ b') !! 0 = Some n ∧
             Replacer.is_evictable_ n = false.
Proof.
  assert ((Replacer.Size (replacer_ Scenarios.pool1_page1_dirty) =? 0)
          && Replacer.is_empty (free_list_ Scenarios.pool1_page1_dirty) = false) as H1
    by (vm_compute; reflexivity).
  assert (take_victim_unchecked Scenarios.pool1_page1_dirty
          = (Return 0, pool1_page1_victim)) as H2 by (vm_compute; reflexivity).
  assert (0 ≤ 0) as H3 by reflexivity.
  assert (pages_ Scenarios.pool1_page1_dirty !! Z.to_nat 0
          = Some (mkPage [x00; x00] 1 0 true)) as H4 by (vm_compute; reflexivity).
  assert (to_size_t 0 < Replacer.replacer_size_ (replacer_ pool1_page1_victim)) as H5
    by (vm_compute; reflexivity).
  exact (NewPage_postcondition Scenarios.pool1_page1_dirty pool1_page1_victim 0
           (mkPage [x00; x00] 1 0 true) H1 H2 H3 H4 H5).
Defined.

(** ** [FetchPage] in src/unnamed/part_001 *)

Lemma take_victim_checked_frame (b b1 : BufferPoolManager) (f : Z) :
  take_victim_checked b = (Return (Some f), b1) →
  next_page_id_ b1 = next_page_id_ b ∧ pages_ b1 = pages_ b ∧
  page_table_ b1 = page_table_ b ∧ disk_manager_ b1 = disk_manager_ b ∧
  pool_size_ b1 = pool_size_ b.
Proof.
  unfold take_victim_checked. run_m. destruct (free_list_ b) as [|x rest].
  - unfold replacer_Evict. destruct (Replacer.Evict (replacer_ b)) as [[v|] r]; [|done].
    by intros [= <- <-].
  - by intros [= <- <-].
Qed.

Lemma Part001_FetchPage_absent (b : BufferPoolManager) (page_id : Z) :
  page_table_ b !! page_id = None →
  Part001.FetchPage page_id b
  = match take_victim_checked b with
    | (Return (Some victim_frame), b1) =>
        (_ <~ on_replacer (Replacer.RecordAccess victim_frame) ;;
         _ <~ on_replacer (Replacer.SetEvictable victim_frame false) ;;
         _ <~ modify (set_page_table (<[page_id := victim_frame]>)) ;;
         p <~ page_at victim_frame ;;
         _ <~ (if is_dirty_ p then
                 _ <~ modify (set_disk_manager (WritePage (page_id_ p) (data_ p))) ;;
                 update_page victim_frame (set_is_dirty false)
               else ret tt) ;;
         b <~ get ;;
         _ <~ update_page victim_frame
                (λ p, set_data (ReadPage page_id (data_ p) (disk_manager_ b)) p) ;;
         _ <~ update_page victim_frame (λ p, set_page_id page_id (set_pin_count 1 p)) ;;
         ret (Some victim_frame))%M b1
    | (Return None, b1) => (Return None, b1)
    | (Raise e, b1) => (Raise e, b1)
    end.
Proof.
  intros Hpt. unfold Part001.FetchPage, take_victim_checked.
  repeat (unfold bind, get, ret, modify; cbn beta iota). rewrite Hpt.
  destruct (free_list_ b) as [|x rest].
  - destruct (replacer_Evict b) as [[[v|]|e] b1]; reflexivity.
  - reflexivity.
Qed.


(** X28: [FetchPage] of a page that is not resident, when a victim frame is
    found, a frame of the pool within the replacer's range: a dirty victim
    is first written to disk under its old id; the frame then holds the
    bytes the disk gives for the page, the page id, pin count 1 and a clear
    dirty flag; the table maps the page to the frame, and the victim's own
    table entry is not erased; the replacer tracks the frame as not
    evictable. *)
Theorem Part001_FetchPage_loads_absent_page (b b1 : BufferPoolManager) (page_id f : Z)
    (p : Page) :
  page_table_ b !! page_id = None →
  take_victim_checked b = (Return (Some f), b1) →
  0 ≤ f → pages_ b !! Z.to_nat f = Some p →
  to_size_t f < Replacer.replacer_size_ (replacer_ b1) →
  ∃ b', Part001.FetchPage page_id b = (Return (Some f), b') ∧
        disk_manager_ b' = written_back p (disk_manager_ b) ∧
        pages_ b'
        = <[Z.to_nat f :=
              mkPage (ReadPage page_id (data_ p) (written_back p (disk_manager_ b)))
                     page_id 1 false]> (pages_ b) ∧
        page_table_ b' = <[page_id := f]> (page_table_ b) ∧
        next_page_id_ b' = next_page_id_ b ∧
        free_list_ b' = free_list_ b1 ∧
        ∃ n, Replacer.node_store_ (replacer_ b') !! f = Some n ∧
             Replacer.is_evictable_ n = false.
Proof.
  intros Hpt Hv Hf Hp Hrange.
  destruct (take_victim_checked_frame b b1 f Hv) as (Hid & Hpages & Htable & Hdisk & _).
  destruct (record_then_pin (replacer_ b1) f Hrange)
    as (r1 & r' & Hrec & Hpin & _ & Htracked & _).
  assert (Z.to_nat f < length (pages_ b))%nat as Hlen by (by eapply lookup_lt_Some).
  rewrite Part001_FetchPage_absent, Hv by done.
  destruct b1 as [ps1 nid1 pg1 rp1 fl1 pt1 dm1]. cbn [next_page_id_ pages_ page_table_
    disk_manager_ replacer_ free_list_] in *. subst nid1 pg1 pt1 dm1.
  run_m. cbn [replacer_]. rewrite Hrec. cbn [replacer_ set_replacer]. rewrite Hpin.
  destruct (f <? 0) eqn:E; [lia|].
  cbn [pages_ set_disk_manager set_page_table set_pages replacer_ set_replacer].
  rewrite Hp.
  destruct (is_dirty_ p) eqn:Hdirty.
  - cbn [pages_ set_disk_manager set_page_table set_pages replacer_ set_replacer].
    rewrite Hp.
    cbn [pages_ set_disk_manager set_page_table set_pages replacer_ set_replacer].
    rewrite !list_lookup_insert_eq by (by rewrite ?length_insert).
    cbn [pages_ set_disk_manager set_page_table set_pages replacer_ set_replacer].
    rewrite !list_lookup_insert_eq by (by rewrite ?length_insert).
    eexists. split; [reflexivity|].
    cbn [pages_ set_disk_manager set_page_table set_pages replacer_ set_replacer
         disk_manager_ page_table_ free_list_ next_page_id_].
    unfold written_back. rewrite Hdirty.
    split; [done|]. split; [by rewrite !list_insert_insert_eq|]. done.
  - cbn [pages_ set_disk_manager set_page_table set_pages replacer_ set_replacer].
    rewrite Hp.
    cbn [pages_ set_disk_manager set_page_table set_pages replacer_ set_replacer].
    rewrite !list_lookup_insert_eq by (by rewrite ?length_insert).
    eexists. split; [reflexivity|].
    cbn [pages_ set_disk_manager set_page_table set_pages replacer_ set_replacer
         disk_manager_ page_table_ free_list_ next_page_id_].
    unfold written_back. rewrite Hdirty.
    split; [done|]. split.
    { rewrite !list_insert_insert_eq. unfold set_page_id, set_pin_count, set_data.
      cbn [data_ page_id_ pin_count_ is_dirty_]. by rewrite Hdirty. }
    done.
Qed.


Lemma Part001_FetchPage_loads_absent_page_witness :
  let b := Scenarios.pool1_page1_dirty in
  let p := mkPage [x00; x00] 1 0 true in
  ∃ b', Part001.FetchPage 0 b = (Return (Some 0), b') ∧
        disk_manager_ b' = written_back p (disk_manager_ b) ∧
        pages_ b'
        = <[Z.to_nat 0 :=
              mkPage (ReadPage 0 (data_ p) (written_back p (disk_manager_ b)))
                     0 1 false]> (pages_ b) ∧
        page_table_ b' = <[0 := 0]> (page_table_ b) ∧
        next_page_id_ b' = next_page_id_ b ∧
        free_list_ b' = free_list_ pool1_page1_victim ∧
        ∃ n, Replacer.node_store_ (replacer_ b') !! 0 = Some n ∧
             Replacer.is_evictable_ n = false.
Proof.
  assert (page_table_ Scenarios.pool1_page1_dirty !! 0 = None) as H1
    by (vm_compute; reflexivity).
  assert (take_victim_checked Scenarios.pool1_page1_dirty
          = (Return (Some 0), pool1_page1_victim)) as H2 by (vm_compute; reflexivity).
  assert (0 ≤ 0) as H3 by reflexivity.
  assert (pages_ Scenarios.pool1_page1_dirty !! Z.to_nat 0
          = Some (mkPage [x00; x00] 1 0 true)) as H4 by (vm_compute; reflexivity).
  assert (to_size_t 0 < Replacer.replacer_size_ (replacer_ pool1_page1_victim)) as H5
    by (vm_compute; reflexivity).
  exact (Part001_FetchPage_loads_absent_page Scenarios.pool1_page1_dirty pool1_page1_victim
           0 0 (mkPage [x00; x00] 1 0 true) H1 H2 H3 H4 H5).
Defined.

End BPMMoreFacts.
(** * Properties of the page guards *)

Module PageGuardFacts.
Import PageGuard.
#[local] Open Scope Z_scope.

(** A guard that holds no page is dropped without effect. *)
Lemma Drop_without_page (g : BasicPageGuard) (b : BPM.BufferPoolManager) :
  page_ g = None → Drop g b = (Return g, b).
Proof. intros H. unfold Drop. by rewrite H. Qed.

(** X29: A [Drop] that returns leaves the guard without a page, so that a second
    [Drop], or the destructor after it, changes neither the guard nor the
    pool: a pin is given back at most once.  The same holds for the guard a
    move has emptied. *)
Theorem Drop_releases_once (g : BasicPageGuard) (b : BPM.BufferPoolManager) :
  match Drop g b with
  | (Return g', b') =>
      page_ g' = None ∧ Drop g' b' = (Return g', b') ∧
      (page_ g = None → g' = g ∧ b' = b)
  | (Raise _, _) => page_ g ≠ None
  end ∧
  Drop (move g).2 b = (Return (move g).2, b).
Proof.
  split; [|by apply Drop_without_page].
  unfold Drop at 1. destruct (page_ g) as [frame|] eqn:Hpage.
  - destruct (bpm_ g); [|done].
    unfold bind at 1. destruct (BPM.page_at frame b) as [[p|e] b1]; [|done].
    unfold bind at 1.
    destruct (if is_dirty_ g then BPM.UnpinPage (BPM.page_id_ p) true b1
              else BPM.UnpinPage (BPM.page_id_ p) false b1) as [[r|e] b2] eqn:Hun.
    + assert ((if is_dirty_ g then BPM.UnpinPage (BPM.page_id_ p) true
               else BPM.UnpinPage (BPM.page_id_ p) false) b1 = (Return r, b2)) as ->
        by (by destruct (is_dirty_ g)).
      by repeat split.
    + assert ((if is_dirty_ g then BPM.UnpinPage (BPM.page_id_ p) true
               else BPM.UnpinPage (BPM.page_id_ p) false) b1 = (Raise e, b2)) as ->
        by (by destruct (is_dirty_ g)).
      done.
  - split; [done|]. split; [by apply Drop_without_page|]. done.
Qed.

(** [UnpinPage] on a frame with more than one pin does not reach the
    replacer. *)
Lemma UnpinPage_still_pinned (b : BPM.BufferPoolManager) (page_id f : Z) (p : BPM.Page)
    (is_dirty : bool) :
  BPM.page_table_ b !! page_id = Some f → 0 ≤ f →
  BPM.pages_ b !! Z.to_nat f = Some p → 2 ≤ BPM.pin_count_ p →
  BPM.UnpinPage page_id is_dirty b
  = (Return true,
     BPM.set_pages
       (<[Z.to_nat f := BPM.mkPage (BPM.data_ p) (BPM.page_id_ p) (BPM.pin_count_ p - 1)
                                   (BPM.is_dirty_ p || is_dirty)]>) b).
Proof.
  intros Hpt Hf Hp Hpin.
  assert (Z.to_nat f < length (BPM.pages_ b))%nat as Hlen by (by eapply lookup_lt_Some).
  unfold BPM.UnpinPage. BPMFacts.run_m. rewrite Hpt. cbn beta iota.
  destruct (f <? 0) eqn:E; [lia|]. rewrite Hp.
  destruct (BPM.pin_count_ p <=? 0) eqn:E2; [lia|].
  rewrite Hp.
  destruct (BPM.pin_count_ p - 1 =? 0) eqn:E3; [lia|].
  destruct is_dirty; cbn [BPM.pages_ BPM.set_replacer BPM.set_pages].
  - rewrite list_lookup_insert_eq by done.
    f_equal. unfold BPM.set_pages; simpl.
    rewrite list_insert_insert_eq. by rewrite orb_true_r.
  - f_equal. unfold BPM.set_pages; simpl. by rewrite orb_false_r.
Qed.

(** X30: For a resident page that someone has pinned, whose frame records its
    page id: [FetchPageBasic] gives a guard on the frame with one more pin,
    and dropping the guard gives the pool back as it was. *)
Theorem FetchPageBasic_Drop_round_trip (b : BPM.BufferPoolManager) (page_id f : Z)
    (p : BPM.Page) :
  BPM.page_table_ b !! page_id = Some f → 0 ≤ f →
  BPM.pages_ b !! Z.to_nat f = Some p →
  BPM.page_id_ p = page_id → 1 ≤ BPM.pin_count_ p →
  ∃ b1, FetchPageBasic page_id b = (Return (mkGuard true (Some f) false), b1) ∧
        BPM.pages_ b1
        = <[Z.to_nat f := BPM.set_pin_count (BPM.pin_count_ p + 1) p]> (BPM.pages_ b) ∧
        Drop (mkGuard true (Some f) false) b1 = (Return released, b).
Proof.
  intros Hpt Hf Hp Hid Hpin.
  assert (Z.to_nat f < length (BPM.pages_ b))%nat as Hlen by (by eapply lookup_lt_Some).
  unfold FetchPageBasic. unfold bind at 1.
  rewrite (BPMFacts.Part001_FetchPage_resident b page_id f p Hpt Hf Hp).
  eexists. split; [reflexivity|]. split; [reflexivity|].
  set (p1 := BPM.set_pin_count (BPM.pin_count_ p + 1) p).
  set (b1 := BPM.set_pages (<[Z.to_nat f := p1]>) b).
  assert (BPM.pages_ b1 !! Z.to_nat f = Some p1) as Hp1
    by (subst b1; cbn [BPM.pages_ BPM.set_pages]; by rewrite list_lookup_insert_eq).
  unfold Drop. cbn [page_ bpm_ is_dirty_].
  unfold bind at 1. unfold BPM.page_at.
  destruct (f <? 0) eqn:E; [lia|]. rewrite Hp1.
  unfold bind at 1.
  rewrite (UnpinPage_still_pinned b1 (BPM.page_id_ p1) f p1 false);
    [|by subst p1 b1; cbn; rewrite Hid|done|done|subst p1; cbn; lia].
  unfold ret. f_equal.
  destruct b as [ps nid pages rp fl pt dm]. subst b1. unfold BPM.set_pages.
  cbn [BPM.pool_size_ BPM.next_page_id_ BPM.pages_ BPM.replacer_ BPM.free_list_
       BPM.page_table_ BPM.disk_manager_] in *.
  f_equal. rewrite list_insert_insert_eq.
  apply list_insert_id. rewrite Hp. f_equal. subst p1. destruct p as [d i c dirty].
  cbn [BPM.data_ BPM.page_id_ BPM.pin_count_ BPM.is_dirty_ BPM.set_pin_count].
  rewrite orb_false_r. f_equal. lia.
Qed.

Lemma FetchPageBasic_Drop_round_trip_witness :
  ∃ b1, FetchPageBasic 0 Scenarios.pool1_page0_pinned
        = (Return (mkGuard true (Some 0) false), b1) ∧
        BPM.pages_ b1
        = <[Z.to_nat 0 := BPM.set_pin_count
                            (BPM.pin_count_ (BPM.mkPage [x00; x00] 0 1 false) + 1)
                            (BPM.mkPage [x00; x00] 0 1 false)]>
            (BPM.pages_ Scenarios.pool1_page0_pinned) ∧
        Drop (mkGuard true (Some 0) false) b1 = (Return released, Scenarios.pool1_page0_pinned).
Proof.
  assert (BPM.page_table_ Scenarios.pool1_page0_pinned !! 0 = Some 0) as H1
    by (vm_compute; reflexivity).
  assert (0 ≤ 0) as H2 by reflexivity.
  assert (BPM.pages_ Scenarios.pool1_page0_pinned !! Z.to_nat 0
          = Some (BPM.mkPage [x00; x00] 0 1 false)) as H3 by (vm_compute; reflexivity).
  assert (BPM.page_id_ (BPM.mkPage [x00; x00] 0 1 false) = 0) as H4 by reflexivity.
  assert (1 ≤ BPM.pin_count_ (BPM.mkPage [x00; x00] 0 1 false)) as H5 by reflexivity.
  exact (FetchPageBasic_Drop_round_trip Scenarios.pool1_page0_pinned 0 0
           (BPM.mkPage [x00; x00] 0 1 false) H1 H2 H3 H4 H5).
Defined.

End PageGuardFacts.
